(** * fast-slic: the assignment/update kernels and the two adjacency builders

    A shallow embedding of [src/fast-slic.cpp] and the properties of its
    kernels.  Machine integers are values of [Z] with the conversions of the
    C++ source written out; arrays are lists read and written by index. *)

From Stdlib Require Import ZArith Lia List Bool String Sorted.
From stdpp Require Import base list.
Import ListNotations.
Local Open Scope Z_scope.

(** ** Machine integers *)

(** Conversion to [uint8_t], [uint16_t] and [uint32_t]: reduction modulo 2^w. *)
Definition to_uint8 (z : Z) : Z := z mod 256.
Definition to_uint16 (z : Z) : Z := z mod 65536.
Definition to_uint32 (z : Z) : Z := z mod 4294967296.

(** Conversion to [int16_t] and to [int]: two's complement. *)
Definition to_int16 (z : Z) : Z := (z + 32768) mod 65536 - 32768.
Definition to_int32 (z : Z) : Z := (z + 2147483648) mod 4294967296 - 2147483648.

(** Arithmetic at type [int]; the theorems bound the image so that no
    operation leaves the range, and the model wraps where one would. *)
Definition int_add (a c : Z) : Z := to_int32 (a + c).
Definition int_mul (a c : Z) : Z := to_int32 (a * c).

(** ** Arrays *)

(** [a[i]]: outside the array the model returns 0.  On the inputs the
    theorems admit the source uses no value read outside an array. *)
Definition rd (a : list Z) (i : Z) : Z :=
  if 0 <=? i then default 0 (a !! Z.to_nat i) else 0.

(** [a[i] = v]: outside the array the model leaves it unchanged. *)
Definition wr (a : list Z) (i : Z) (v : Z) : list Z :=
  if 0 <=? i then <[Z.to_nat i := v]> a else a.

(** [rows[k]] and [rows[k] = row] on an array of arrays. *)
Definition row_at {A : Type} (rows : list (list A)) (k : Z) : list A :=
  if 0 <=? k then default [] (rows !! Z.to_nat k) else [].

Definition set_row {A : Type} (rows : list (list A)) (k : Z) (row : list A)
    : list (list A) :=
  if 0 <=? k then <[Z.to_nat k := row]> rows else rows.

(** [for (k = lo; k < hi; k++) st = body(k, st)] *)
Definition for_range {St : Type} (lo hi : Z) (body : Z -> St -> St) (st : St) : St :=
  fold_left (fun s k => body (lo + Z.of_nat k) s) (seq 0 (Z.to_nat (hi - lo))) st.

(** ** Helpers of fast-slic-common-impl.hpp *)

(** Modelled from the spec: [my_max], [my_min] and [fast_abs] are declared in
    fast-slic-common-impl.hpp, a header that fast-slic.cpp includes; they
    are the maximum, the minimum and the absolute value at the type they are
    instantiated with. *)
Definition my_max (a b : Z) : Z := if a <? b then b else a.
Definition my_min (a b : Z) : Z := if a <? b then a else b.
Definition fast_abs (a : Z) : Z := if a <? 0 then - a else a.

(** Modelled from the spec: [round_int] is declared in
    fast-slic-common-impl.hpp; section 4.3 has the means "rounding to nearest,
    ties away from zero", which on the non-negative sums of the update kernel
    is [(numer + denom / 2) / denom] in C++ integer arithmetic. *)
Definition round_int (numer denom : Z) : Z := Z.quot (numer + Z.quot denom 2) denom.

(** Modelled from the spec: [ceil_int] is declared in
    fast-slic-common-impl.hpp; the number of cells of size [denom] that cover
    [numer] pixels. *)
Definition ceil_int (numer denom : Z) : Z := Z.quot (numer + denom - 1) denom.

(** ** Data model *)

(** Modelled from the spec: [struct Cluster] is declared in fast-slic-common.h;
    section 3 gives its fields: a 16-bit [number], 16-bit signed [y] and [x],
    8-bit [r], [g], [b] and a 32-bit [num_members]. *)
Record Cluster : Type := mkCluster {
  number : Z;
  y : Z;
  x : Z;
  r : Z;
  g : Z;
  b : Z;
  num_members : Z
}.

(** The values a [Cluster] can hold at the widths of its fields. *)
Definition cluster_wf (c : Cluster) : Prop :=
  0 <= number c < 65536 /\
  -32768 <= y c < 32768 /\ -32768 <= x c < 32768 /\
  0 <= r c < 256 /\ 0 <= g c < 256 /\ 0 <= b c < 256 /\
  0 <= num_members c < 4294967296.

(** An array of [uint8_t]. *)
Definition bytes_wf (a : list Z) : Prop := Forall (fun v => 0 <= v < 256) a.

(** [clusters[k]]; the default is never read on the inputs the theorems admit. *)
Definition cluster_at (clusters : list Cluster) (k : Z) : Cluster :=
  if 0 <=? k then default (mkCluster 0 0 0 0 0 0 0) (clusters !! Z.to_nat k)
  else mkCluster 0 0 0 0 0 0 0.

(** [clusters[k] = c] *)
Definition set_cluster (clusters : list Cluster) (k : Z) (c : Cluster) : list Cluster :=
  if 0 <=? k then <[Z.to_nat k := c]> clusters else clusters.

(** Modelled from the spec: [struct Connectivity] is declared in
    fast-slic-common.h; section 6 gives its layout: [num_nodes], an array of
    [num_nodes] neighbor counts and an array of [num_nodes] arrays of
    cluster ids. *)
Record Connectivity : Type := mkConnectivity {
  num_nodes : Z;
  num_neighbors : list Z;
  neighbors : list (list Z)
}.

(** The label image of an [H]x[W] image over [K] clusters: one word per
    pixel, a cluster index or the sentinel 0xFFFF. *)
Definition labels_wf (H W K : Z) (assignment : list Z) : Prop :=
  Z.of_nat (length assignment) = H * W /\
  Forall (fun l => 0 <= l < K \/ l = 65535) assignment.

(** ** Assignment kernel *)

(** The color L1 distance of [get_assignment_value], before the shift. *)
Definition color_l1 (cluster : Cluster) (image : list Z) (base_index : Z) : Z :=
  let img_base_index := to_int32 (3 * base_index) in
  let pr := rd image img_base_index in
  let pg := rd image (img_base_index + 1) in
  let pb := rd image (img_base_index + 2) in
  fast_abs (to_int16 (pr - to_int16 (r cluster)))
  + fast_abs (to_int16 (pg - to_int16 (g cluster)))
  + fast_abs (to_int16 (pb - to_int16 (b cluster))).

Definition get_assignment_value (cluster : Cluster) (image : list Z)
    (base_index : Z) (spatial_dist : Z) (quantize_level : Z) : Z :=
  let color_dist :=
    to_uint16 (to_uint32 (Z.shiftl (to_uint32 (color_l1 cluster image base_index))
                                   quantize_level)) in
  to_uint32 (to_uint32 (Z.shiftl (to_uint32 (color_dist + spatial_dist)) 16)
             + to_uint32 (number cluster)).

(** The [Context] of one call of the kernels.  [BaseContext] is declared in
    fast-slic-common-impl.hpp; the fields are those [slic_assign_cluster_oriented]
    reads. *)
Record Context : Type := mkContext {
  ctx_H : Z;
  ctx_W : Z;
  ctx_K : Z;
  ctx_S : Z;
  ctx_quantize_level : Z;
  ctx_image : list Z;
  ctx_clusters : list Cluster;
  ctx_spatial_normalize_cache : list Z
}.

(** [if (assignment[base_index] > assignment_val)
        assignment[base_index] = assignment_val;]
    as a worker makes the two accesses when no access of another worker
    falls between them; the two accesses apart are [worker_step]. *)
Definition assign_pixel (ctx : Context) (cluster : Cluster) (base_index : Z)
    (spatial_dist : Z) (assignment : list Z) : list Z :=
  let assignment_val :=
    get_assignment_value cluster (ctx_image ctx) base_index spatial_dist
      (ctx_quantize_level ctx) in
  if assignment_val <? rd assignment base_index
  then wr assignment base_index assignment_val
  else assignment.

(** The two inner loops over one row [i] of the window: the columns left of
    the center with [current_manhattan--], those from the center on with
    [current_manhattan++].  The counter is a [uint16_t]. *)
Definition assign_row (ctx : Context) (cluster : Cluster) (x_lo x_hi : Z) (i : Z)
    (current_manhattan : Z) (assignment : list Z) : list Z :=
  let W := ctx_W ctx in
  let cluster_x := to_int16 (x cluster) in
  let st :=
    for_range x_lo cluster_x (fun j '(assignment, current_manhattan) =>
      let base_index := int_add (int_mul W i) j in
      let spatial_dist := rd (ctx_spatial_normalize_cache ctx) current_manhattan in
      (assign_pixel ctx cluster base_index spatial_dist assignment,
       to_uint16 (current_manhattan - 1))) (assignment, current_manhattan) in
  let st :=
    for_range cluster_x x_hi (fun j '(assignment, current_manhattan) =>
      let base_index := int_add (int_mul W i) j in
      let spatial_dist := rd (ctx_spatial_normalize_cache ctx) current_manhattan in
      (assign_pixel ctx cluster base_index spatial_dist assignment,
       to_uint16 (current_manhattan + 1))) st in
  st.1.

(** The body of the loop over the sorted clusters. *)
Definition assign_cluster (ctx : Context) (cluster : Cluster) (assignment : list Z)
    : list Z :=
  let H := ctx_H ctx in
  let W := ctx_W ctx in
  let S := to_int16 (ctx_S ctx) in
  let cluster_y := to_int16 (y cluster) in
  let cluster_x := to_int16 (x cluster) in
  let y_lo := my_max (to_int16 0) (to_int16 (cluster_y - S)) in
  let y_hi := my_min (to_int16 H) (to_int16 (cluster_y + S + 1)) in
  let x_lo := my_max (to_int16 0) (to_int16 (cluster_x - S)) in
  let x_hi := my_min (to_int16 W) (to_int16 (cluster_x + S + 1)) in
  let row_first_manhattan := to_uint16 ((cluster_y - y_lo) + (cluster_x - x_lo)) in
  let st :=
    for_range y_lo cluster_y (fun i '(assignment, row_first_manhattan) =>
      let current_manhattan := row_first_manhattan in
      (assign_row ctx cluster x_lo x_hi i current_manhattan assignment,
       to_uint16 (row_first_manhattan - 1))) (assignment, row_first_manhattan) in
  let st :=
    for_range cluster_y y_hi (fun i '(assignment, row_first_manhattan) =>
      let current_manhattan := row_first_manhattan in
      (assign_row ctx cluster x_lo x_hi i current_manhattan assignment,
       to_uint16 (row_first_manhattan + 1))) st in
  st.1.

(** [slic_assign_cluster_oriented].  [zorder_sort] stands for the vector of
    [ZOrderTuple]s after [std::sort]: [get_sort_value] and the order of
    [ZOrderTuple] are declared in fast-slic-common-impl.hpp, so the order in
    which the clusters are visited is a parameter.  This is the kernel as
    one worker runs it: the loop over the sorted clusters runs its
    iterations one after the other.  The runs of a team of workers are
    [slic_assign_cluster_oriented_team]. *)
Definition slic_assign_cluster_oriented (zorder_sort : list Cluster -> list Cluster)
    (ctx : Context) (assignment : list Z) : list Z :=
  let H := ctx_H ctx in
  let W := ctx_W ctx in
  let K := ctx_K ctx in
  let assignment :=
    for_range 0 H (fun i =>
      for_range 0 W (fun j assignment =>
        wr assignment (int_add (int_mul i W) j) 4294967295)) assignment in
  let cluster_sorted_tuples := zorder_sort (ctx_clusters ctx) in
  let assignment :=
    for_range 0 K (fun cluster_sorted_idx assignment =>
      assign_cluster ctx (cluster_at cluster_sorted_tuples cluster_sorted_idx) assignment)
      assignment in
  for_range 0 H (fun i =>
    for_range 0 W (fun j assignment =>
      wr assignment (int_add (int_mul i W) j)
         (Z.land (rd assignment (int_add (int_mul i W) j)) 65535))) assignment.

(** The window of a cluster: the pixels within [S] rows and [S] columns of
    its center. *)
Definition in_window (S : Z) (c : Cluster) (i j : Z) : bool :=
  (Z.abs (i - y c) <=? S) && (Z.abs (j - x c) <=? S).

(** The distance [D(p, c)] of section 4.2 for the pixel [p = (i, j)]. *)
Definition slic_distance (ctx : Context) (c : Cluster) (i j : Z) : Z :=
  let p := ctx_W ctx * i + j in
  (Z.abs (rd (ctx_image ctx) (3 * p) - r c)
   + Z.abs (rd (ctx_image ctx) (3 * p + 1) - g c)
   + Z.abs (rd (ctx_image ctx) (3 * p + 2) - b c)) * 2 ^ ctx_quantize_level ctx
  + rd (ctx_spatial_normalize_cache ctx) (Z.abs (i - y c) + Z.abs (j - x c)).

(** The candidate word of cluster [c] at pixel [(i, j)]. *)
Definition candidate (ctx : Context) (c : Cluster) (i j : Z) : Z :=
  get_assignment_value c (ctx_image ctx) (ctx_W ctx * i + j)
    (rd (ctx_spatial_normalize_cache ctx) (Z.abs (i - y c) + Z.abs (j - x c)))
    (ctx_quantize_level ctx).

(** The least candidate word among the clusters of [cs] whose window holds
    [(i, j)], starting from [v]. *)
Definition best_candidate (ctx : Context) (cs : list Cluster) (i j : Z) (v : Z) : Z :=
  fold_left (fun v c =>
    if in_window (ctx_S ctx) c i j then Z.min v (candidate ctx c i j) else v) cs v.

(** What the kernel asks of a cluster: field widths, a center inside the
    image, and a window whose bounds fit [int16_t]. *)
Definition assign_cluster_ok (ctx : Context) (c : Cluster) : Prop :=
  cluster_wf c /\
  0 <= y c < ctx_H ctx /\ 0 <= x c < ctx_W ctx /\
  y c + ctx_S ctx + 1 <= 32767 /\ x c + ctx_S ctx + 1 <= 32767.

(** What the kernel asks of its context. *)
Definition assign_ctx_ok (ctx : Context) : Prop :=
  0 < ctx_H ctx <= 32767 /\ 0 < ctx_W ctx <= 32767 /\
  3 * (ctx_H ctx * ctx_W ctx) < 2147483648 /\
  0 <= ctx_S ctx /\
  0 <= ctx_quantize_level ctx <= 7 /\
  bytes_wf (ctx_image ctx) /\
  Z.of_nat (length (ctx_clusters ctx)) = ctx_K ctx /\
  Forall (assign_cluster_ok ctx) (ctx_clusters ctx) /\
  2 * ctx_S ctx + 1 <= Z.of_nat (length (ctx_spatial_normalize_cache ctx)) /\
  Forall (fun v => 0 <= v < 65536) (ctx_spatial_normalize_cache ctx).

(** [assignment'] is [assignment] with the candidate word of the cluster
    merged by minimum at the pixels of [R], and nothing else changed. *)
Definition relaxed (ctx : Context) (cluster : Cluster) (R : Z -> Z -> bool)
    (assignment assignment' : list Z) : Prop :=
  length assignment' = length assignment /\
  forall i j, 0 <= i < ctx_H ctx -> 0 <= j < ctx_W ctx ->
    rd assignment' (ctx_W ctx * i + j)
    = if R i j
      then Z.min (rd assignment (ctx_W ctx * i + j)) (candidate ctx cluster i j)
      else rd assignment (ctx_W ctx * i + j).

(** The clusters of the context whose window holds the pixel [(i, j)]. *)
Definition covering (ctx : Context) (i j : Z) (c : Cluster) : Prop :=
  In c (ctx_clusters ctx) /\ in_window (ctx_S ctx) c i j = true.

(** The candidate word as section 4.2 of the specification words it: both
    costs clamped to 0xFFFF, their sum clamped to 0xFFFF, the result in the
    high half and the cluster number in the low half. *)
Definition clamp16 (z : Z) : Z := Z.min 65535 z.

Definition saturated_assignment_value (cluster : Cluster) (image : list Z)
    (base_index : Z) (spatial_dist : Z) (quantize_level : Z) : Z :=
  let color_cost := clamp16 (Z.shiftl (color_l1 cluster image base_index) quantize_level) in
  let spatial_cost := clamp16 spatial_dist in
  Z.shiftl (clamp16 (color_cost + spatial_cost)) 16 + number cluster.

(** ** Assignment kernel: the parallel region *)

(** The loop over the sorted clusters is an OpenMP [parallel for
    schedule(static)]: the runtime hands every worker a chunk of
    [cluster_sorted_tuples], a worker runs the iterations of its chunk in
    order, and all workers share [assignment].  In
    [if (assignment[base_index] > assignment_val)
         assignment[base_index] = assignment_val;]
    the test and the store are two accesses of the shared word, and accesses
    of other workers can fall between them.  The model takes the accesses of
    whole words in an interleaved order, given by a schedule. *)

(** The accesses of the two inner loops over one row [i] of the window, in
    program order: the word [base_index] with the candidate [assignment_val]
    it is tested against. *)
Definition assign_row_accesses (ctx : Context) (cluster : Cluster) (x_lo x_hi : Z)
    (i : Z) (current_manhattan : Z) : list (Z * Z) :=
  let W := ctx_W ctx in
  let cluster_x := to_int16 (x cluster) in
  let st :=
    for_range x_lo cluster_x (fun j '(accesses, current_manhattan) =>
      let base_index := int_add (int_mul W i) j in
      let spatial_dist := rd (ctx_spatial_normalize_cache ctx) current_manhattan in
      let assignment_val :=
        get_assignment_value cluster (ctx_image ctx) base_index spatial_dist
          (ctx_quantize_level ctx) in
      (accesses ++ [(base_index, assignment_val)],
       to_uint16 (current_manhattan - 1))) ([], current_manhattan) in
  let st :=
    for_range cluster_x x_hi (fun j '(accesses, current_manhattan) =>
      let base_index := int_add (int_mul W i) j in
      let spatial_dist := rd (ctx_spatial_normalize_cache ctx) current_manhattan in
      let assignment_val :=
        get_assignment_value cluster (ctx_image ctx) base_index spatial_dist
          (ctx_quantize_level ctx) in
      (accesses ++ [(base_index, assignment_val)],
       to_uint16 (current_manhattan + 1))) st in
  st.1.

(** The accesses of one iteration of the loop over the sorted clusters. *)
Definition assign_cluster_accesses (ctx : Context) (cluster : Cluster) : list (Z * Z) :=
  let H := ctx_H ctx in
  let W := ctx_W ctx in
  let S := to_int16 (ctx_S ctx) in
  let cluster_y := to_int16 (y cluster) in
  let cluster_x := to_int16 (x cluster) in
  let y_lo := my_max (to_int16 0) (to_int16 (cluster_y - S)) in
  let y_hi := my_min (to_int16 H) (to_int16 (cluster_y + S + 1)) in
  let x_lo := my_max (to_int16 0) (to_int16 (cluster_x - S)) in
  let x_hi := my_min (to_int16 W) (to_int16 (cluster_x + S + 1)) in
  let row_first_manhattan := to_uint16 ((cluster_y - y_lo) + (cluster_x - x_lo)) in
  let st :=
    for_range y_lo cluster_y (fun i '(accesses, row_first_manhattan) =>
      let current_manhattan := row_first_manhattan in
      (accesses ++ assign_row_accesses ctx cluster x_lo x_hi i current_manhattan,
       to_uint16 (row_first_manhattan - 1))) ([], row_first_manhattan) in
  let st :=
    for_range cluster_y y_hi (fun i '(accesses, row_first_manhattan) =>
      let current_manhattan := row_first_manhattan in
      (accesses ++ assign_row_accesses ctx cluster x_lo x_hi i current_manhattan,
       to_uint16 (row_first_manhattan + 1))) st in
  st.1.

(** One access with nothing between its test and its store. *)
Definition assign_access (access : Z * Z) (assignment : list Z) : list Z :=
  if access.2 <? rd assignment access.1
  then wr assignment access.1 access.2
  else assignment.

Definition assign_accesses (accesses : list (Z * Z)) (assignment : list Z) : list Z :=
  fold_left (fun assignment access => assign_access access assignment)
    accesses assignment.

(** A worker of the parallel region: the accesses it has still to make, and,
    between a test that found the word greater and the store that follows
    it, the store it has decided on. *)
Record Worker : Type := mkWorker {
  chosen : option (Z * Z);
  remaining : list (Z * Z)
}.

(** The next access of a worker to the shared image: the store it has
    decided on, or else the test of its next word. *)
Definition worker_step (w : Worker) (assignment : list Z) : Worker * list Z :=
  match chosen w with
  | Some (base_index, assignment_val) =>
      (mkWorker None (remaining w), wr assignment base_index assignment_val)
  | None =>
      match remaining w with
      | (base_index, assignment_val) :: rest =>
          if assignment_val <? rd assignment base_index
          then (mkWorker (Some (base_index, assignment_val)) rest, assignment)
          else (mkWorker None rest, assignment)
      | [] => (w, assignment)
      end
  end.

(** The team with the shared image; worker [t] makes the next access. *)
Definition team_step (t : nat) (st : list Worker * list Z) : list Worker * list Z :=
  match st.1 !! t with
  | Some w => let '(w', assignment) := worker_step w st.2 in (<[t := w']> st.1, assignment)
  | None => st
  end.

(** A schedule names, access by access, the worker that goes next. *)
Definition team_run (schedule : list nat) (st : list Worker * list Z)
    : list Worker * list Z :=
  fold_left (fun st t => team_step t st) schedule st.

Definition worker_done (w : Worker) : bool :=
  match chosen w, remaining w with
  | None, [] => true
  | _, _ => false
  end.

(** Worker [w] is between its test of the word [base_index] and its store. *)
Definition waits_on (base_index : Z) (w : Worker) : bool :=
  match chosen w with
  | Some (base_index', _) => base_index' =? base_index
  | None => false
  end.

(** The next access of worker [t] is a store to a word that another worker
    has tested and not yet stored to. *)
Definition disturbing (t : nat) (workers : list Worker) : bool :=
  match workers !! t with
  | Some w =>
      match chosen w with
      | Some (base_index, _) => existsb (waits_on base_index) (delete t workers)
      | None => false
      end
  | None => false
  end.

(** No store of the run falls between the test and the store of another
    worker on the same word. *)
Fixpoint undisturbed (schedule : list nat) (st : list Worker * list Z) : bool :=
  match schedule with
  | [] => true
  | t :: rest => negb (disturbing t st.1) && undisturbed rest (team_step t st)
  end.

(** The parallel region at its start: [team] holds, for every worker, the
    clusters of its chunk of [cluster_sorted_tuples]; the image is filled
    with [0xFFFFFFFF] (that loop writes every word once, whatever the
    team). *)
Definition team_start (team : list (list Cluster)) (ctx : Context)
    (assignment : list Z) : list Worker * list Z :=
  let H := ctx_H ctx in
  let W := ctx_W ctx in
  let assignment :=
    for_range 0 H (fun i =>
      for_range 0 W (fun j assignment =>
        wr assignment (int_add (int_mul i W) j) 4294967295)) assignment in
  (map (fun chunk => mkWorker None (flat_map (assign_cluster_accesses ctx) chunk)) team,
   assignment).

(** [slic_assign_cluster_oriented] run by a team under a schedule.  The
    region ends when every worker has made all its accesses; a schedule that
    stops before is not a run of the kernel.  The sort and the division
    into chunks are not in the source ([get_sort_value] is declared in
    fast-slic-common-impl.hpp, the chunks are the runtime's), so the team
    is a parameter. *)
Definition slic_assign_cluster_oriented_team (team : list (list Cluster))
    (schedule : list nat) (ctx : Context) (assignment : list Z) : option (list Z) :=
  let H := ctx_H ctx in
  let W := ctx_W ctx in
  let '(workers, assignment) := team_run schedule (team_start team ctx assignment) in
  if forallb worker_done workers
  then Some
    (for_range 0 H (fun i =>
       for_range 0 W (fun j assignment =>
         wr assignment (int_add (int_mul i W) j)
            (Z.land (rd assignment (int_add (int_mul i W) j)) 65535))) assignment)
  else None.

(** The accesses a worker has not completed. *)
Definition worker_accesses (w : Worker) : list (Z * Z) :=
  match chosen w with
  | Some access => access :: remaining w
  | None => remaining w
  end.

(** What an undisturbed run maintains: the image is the start image after
    the completed accesses [done], made one at a time; completed and open
    accesses together are those of the whole team; and the word every
    waiting worker has tested is still greater than its candidate. *)
Definition team_calm (start : list Z) (accesses : list (Z * Z))
    (st : list Worker * list Z) : Prop :=
  (exists done,
     st.2 = assign_accesses done start /\
     Permutation (done ++ flat_map worker_accesses st.1) accesses) /\
  Forall (fun w => forall p v, chosen w = Some (p, v) -> v < rd st.2 p) st.1.


(** ** Update kernel *)

(** The accumulation loop of the parallel region over the whole image: the
    region as a team of one thread runs it.  The state is
    [(local_num_cluster_members, local_acc_vec)]. *)
Definition update_accumulate (H W : Z) (image assignment : list Z)
    (st : list Z * list Z) : list Z * list Z :=
  for_range 0 H (fun i =>
    for_range 0 W (fun j '(local_num_cluster_members, local_acc_vec) =>
      let base_index := int_add (int_mul W i) j in
      let img_base_index := int_mul 3 base_index in
      let cluster_no := to_uint16 (rd assignment base_index) in
      if cluster_no =? 65535 then (local_num_cluster_members, local_acc_vec)
      else
        let local_num_cluster_members :=
          wr local_num_cluster_members cluster_no
             (int_add (rd local_num_cluster_members cluster_no) 1) in
        let acc := local_acc_vec in
        let acc := wr acc (5 * cluster_no + 0) (int_add (rd acc (5 * cluster_no + 0)) i) in
        let acc := wr acc (5 * cluster_no + 1) (int_add (rd acc (5 * cluster_no + 1)) j) in
        let acc := wr acc (5 * cluster_no + 2)
                      (int_add (rd acc (5 * cluster_no + 2)) (rd image img_base_index)) in
        let acc := wr acc (5 * cluster_no + 3)
                      (int_add (rd acc (5 * cluster_no + 3)) (rd image (img_base_index + 1))) in
        let acc := wr acc (5 * cluster_no + 4)
                      (int_add (rd acc (5 * cluster_no + 4)) (rd image (img_base_index + 2))) in
        (local_num_cluster_members, acc))) st.

(** The critical section: the thread's sums merged into the shared ones. *)
Definition update_merge (K : Z) (local_num_cluster_members local_acc_vec : list Z)
    (st : list Z * list Z) : list Z * list Z :=
  for_range 0 K (fun k '(num_cluster_members, cluster_acc_vec) =>
    let cluster_acc_vec :=
      for_range 0 5 (fun dim cluster_acc_vec =>
        wr cluster_acc_vec (5 * k + dim)
           (int_add (rd cluster_acc_vec (5 * k + dim)) (rd local_acc_vec (5 * k + dim))))
        cluster_acc_vec in
    (wr num_cluster_members k
        (int_add (rd num_cluster_members k) (rd local_num_cluster_members k)),
     cluster_acc_vec)) st.

Definition slic_update_clusters (H W K : Z) (image : list Z) (clusters : list Cluster)
    (assignment : list Z) : list Cluster :=
  let num_cluster_members := replicate (Z.to_nat K) 0 in
  let cluster_acc_vec := replicate (Z.to_nat (int_mul K 5)) 0 in
  let '(local_num_cluster_members, local_acc_vec) :=
    update_accumulate H W image assignment
      (replicate (Z.to_nat K) 0, replicate (Z.to_nat (int_mul K 5)) 0) in
  let '(num_cluster_members, cluster_acc_vec) :=
    update_merge K local_num_cluster_members local_acc_vec
      (num_cluster_members, cluster_acc_vec) in
  for_range 0 K (fun k clusters =>
    let num_current_members := rd num_cluster_members k in
    let cluster := cluster_at clusters k in
    let cluster :=
      mkCluster (number cluster) (y cluster) (x cluster) (r cluster) (g cluster)
        (b cluster) (to_uint32 num_current_members) in
    if num_current_members =? 0 then set_cluster clusters k cluster
    else
      set_cluster clusters k
        (mkCluster (number cluster)
           (to_int16 (round_int (rd cluster_acc_vec (5 * k + 0)) num_current_members))
           (to_int16 (round_int (rd cluster_acc_vec (5 * k + 1)) num_current_members))
           (to_uint8 (round_int (rd cluster_acc_vec (5 * k + 2)) num_current_members))
           (to_uint8 (round_int (rd cluster_acc_vec (5 * k + 3)) num_current_members))
           (to_uint8 (round_int (rd cluster_acc_vec (5 * k + 4)) num_current_members))
           (num_members cluster))) clusters.

(** The sum of [f p] over the pixels [p] among the first [n] of the label
    image that carry the label [k]. *)
Fixpoint member_sum (f : Z -> Z) (labels : list Z) (k : Z) (n : nat) : Z :=
  match n with
  | O => 0
  | S m =>
      member_sum f labels k m
      + (if rd labels (Z.of_nat m) =? k then f (Z.of_nat m) else 0)
  end.

(** The five quantities the kernel averages at pixel [p] of an image of
    width [W]: row, column, red, green, blue. *)
Definition pixel_feature (W : Z) (image : list Z) (dim : Z) (p : Z) : Z :=
  if dim =? 0 then p / W
  else if dim =? 1 then p mod W
  else rd image (3 * p + (dim - 2)).

(** ** Mask aggregation *)

Definition fast_slic_get_mask_density (H W K : Z) (clusters : list Cluster)
    (assignment : list Z) (mask : list Z) (cluster_densities : list Z) : list Z :=
  let sum := replicate (Z.to_nat K) 0 in
  let sum :=
    for_range 0 H (fun i =>
      for_range 0 W (fun j sum =>
        let cluster_no := rd assignment (int_add (int_mul W i) j) in
        if cluster_no <? to_uint32 K
        then wr sum cluster_no
               (int_add (rd sum cluster_no) (rd mask (int_add (int_mul W i) j)))
        else sum)) sum in
  for_range 0 K (fun k cluster_densities =>
    wr cluster_densities k
       (to_uint8 (my_min 255
          (to_int32 (Z.quot (to_uint32 (rd sum k))
                            (my_max (num_members (cluster_at clusters k)) 1))))))
    cluster_densities.

Definition fast_slic_cluster_density_to_mask (H W K : Z) (clusters : list Cluster)
    (assignment : list Z) (cluster_densities : list Z) (result : list Z) : list Z :=
  for_range 0 H (fun i =>
    for_range 0 W (fun j result =>
      let cluster_no := rd assignment (int_add (int_mul W i) j) in
      if cluster_no <? to_uint32 K
      then wr result (int_add (int_mul W i) j) (rd cluster_densities cluster_no)
      else wr result (int_add (int_mul W i) j) 0)) result.

(** [num_members] of every cluster is the number of pixels labelled with it. *)
Definition members_counted (K : Z) (clusters : list Cluster) (assignment : list Z) : Prop :=
  Z.of_nat (length clusters) = K /\
  forall k, 0 <= k < K ->
    num_members (cluster_at clusters k) = Z.of_nat (count_occ Z.eq_dec assignment k).

(** ** Centroid-KNN builder *)

(** [operator<] of [std::pair<int, const Cluster*>]: by distance, then by
    address, which within the cluster array is the index. *)
Definition pair_lt (p q : Z * Z) : bool :=
  (p.1 <? q.1) || ((p.1 =? q.1) && (p.2 <? q.2)).

(** [std::push_heap] and [std::pop_heap] are library code: their contract
    fixes the front of the vector (a greatest element) and the elements it
    holds, not the order of the rest.  The model keeps the vector in
    descending order, which is one arrangement that satisfies the contract:
    [push_heap e heap] is [heap.push_back(e); std::push_heap(..)], and
    [std::pop_heap(..); heap.pop_back()] drops the head. *)
Fixpoint push_heap (e : Z * Z) (heap : list (Z * Z)) : list (Z * Z) :=
  match heap with
  | [] => [e]
  | top :: rest => if pair_lt top e then e :: heap else top :: push_heap e rest
  end.

(** [while (heap.size() > num_neighbors) { pop_heap; pop_back }] *)
Fixpoint shrink_heap (num_neighbors : Z) (heap : list (Z * Z)) : list (Z * Z) :=
  match heap with
  | [] => []
  | _ :: rest =>
      if num_neighbors <? Z.of_nat (length heap)
      then shrink_heap num_neighbors rest
      else heap
  end.

(** [(int)sqrt(H * W / K)] clamped below by 1; the square root of a value of
    type [int] converted to [double] and back is the integer square root. *)
Definition knn_S (H W K : Z) : Z :=
  my_max (to_int32 (Z.sqrt (Z.quot (int_mul H W) K))) 1.

(** The grid of cells with the clusters filed in them, by index. *)
Definition knn_cells (H W K : Z) (clusters : list Cluster) : list (list Z) :=
  let S := knn_S H W K in
  let nh := ceil_int H S in
  let nw := ceil_int W S in
  for_range 0 K (fun i s_cells =>
    let cluster := cluster_at clusters i in
    let cell := int_add (int_mul (Z.quot (y cluster) S) nw) (Z.quot (x cluster) S) in
    set_row s_cells cell (row_at s_cells cell ++ [i]))
    (replicate (Z.to_nat (int_mul nh nw)) []).

(** The three nested loops of the query for cluster [i], with the body of the
    innermost one as a parameter: [visit cluster_around st]. *)
Definition knn_scan {St : Type} (H W K : Z) (clusters : list Cluster) (i : Z)
    (visit : Z -> St -> St) (st : St) : St :=
  let S := knn_S H W K in
  let nh := ceil_int H S in
  let nw := ceil_int W S in
  let s_cells := knn_cells H W K clusters in
  let cluster := cluster_at clusters i in
  let cell_center_x := Z.quot (x cluster) S in
  let cell_center_y := Z.quot (y cluster) S in
  for_range (my_max (cell_center_y - 3) 0) (my_min nh (cell_center_y + 3)) (fun cy =>
    for_range (my_max (cell_center_x - 3) 0) (my_min nw (cell_center_x + 3)) (fun cx st =>
      fold_left (fun st cluster_around => visit cluster_around st)
        (row_at s_cells (int_add (int_mul cy nw) cx)) st)) st.

(** The body of the innermost loop. *)
Definition knn_visit (clusters : list Cluster) (num_neighbors : Z) (i : Z)
    (cluster_around : Z) (heap : list (Z * Z)) : list (Z * Z) :=
  if cluster_around =? i then heap
  else
    let ca := cluster_at clusters cluster_around in
    let cluster := cluster_at clusters i in
    let distance := int_add (fast_abs (x ca - x cluster)) (fast_abs (y ca - y cluster)) in
    match heap with
    | front :: _ =>
        if front.1 <=? distance then heap
        else shrink_heap num_neighbors (push_heap (distance, cluster_around) heap)
    | [] => shrink_heap num_neighbors (push_heap (distance, cluster_around) heap)
    end.

Definition knn_heap (H W K : Z) (clusters : list Cluster) (num_neighbors : Z) (i : Z)
    : list (Z * Z) :=
  knn_scan H W K clusters i (knn_visit clusters num_neighbors i) [].

Definition fast_slic_knn_connectivity (H W K : Z) (clusters : list Cluster)
    (num_neighbors : Z) : Connectivity :=
  let '(counts, lists) :=
    for_range 0 K (fun i '(counts, lists) =>
      let heap := knn_heap H W K clusters num_neighbors i in
      (wr counts i (Z.of_nat (length heap)),
       set_row lists i (map (fun e => number (cluster_at clusters e.2)) heap)))
      (replicate (Z.to_nat K) 0, replicate (Z.to_nat K) []) in
  mkConnectivity K counts lists.

(** The clusters the query for cluster [i] looks at, in the order of the scan. *)
Definition knn_scanned (H W K : Z) (clusters : list Cluster) (i : Z) : list Z :=
  knn_scan H W K clusters i (fun cluster_around seen => seen ++ [cluster_around]) [].

(** The block of cells section 4.6 of the specification describes: the cell
    of [c] is within 3 cells of the cell of the query [q] in each axis. *)
Definition in_block7 (S : Z) (q c : Cluster) : bool :=
  (Z.abs (Z.quot (y c) S - Z.quot (y q) S) <=? 3)
  && (Z.abs (Z.quot (x c) S - Z.quot (x q) S) <=? 3).

(** ** Pixel-adjacency builder *)

Definition symmetric_int_hash (a c : Z) : Z :=
  to_uint32 (Z.lxor (to_uint32 (a * 522133279)) c
             + Z.lxor (to_uint32 (c * 522133279)) a).

Definition max_conn : Z := 12.

(** The neighbors recorded for cluster [k]: the first [num_neighbors[k]]
    slots of [neighbors[k]]. *)
Definition neighbor_list (conn : Connectivity) (k : Z) : list Z :=
  take (Z.to_nat (rd (num_neighbors conn) k)) (row_at (neighbors conn) k).

(** The macro [CONNECTIVITY_SEARCH(expr)] with [expr] as [target_index]: the
    state is the record [conn], the [hashtable] and the local
    [num_source_neighbors]; [source_neighbors] and [target_neighbors] point
    into [conn->neighbors].  A [continue] inside the macro leaves its
    [do { } while (0)] only. *)
Definition CONNECTIVITY_SEARCH (K : Z) (assignment : list Z) (source : Z)
    (target_index : Z) (st : Connectivity * list Z * Z) : Connectivity * list Z * Z :=
  let '(conn, hashtable, num_source_neighbors) := st in
  let target := rd assignment target_index in
  if (to_uint32 K <=? target) || (source =? target) then st
  else
    let num_target_neighbors := rd (num_neighbors conn) target in
    if (max_conn <=? num_source_neighbors) || (max_conn <=? num_target_neighbors)
    then st
    else
      let source_neighbors := row_at (neighbors conn) source in
      let target_neighbors := row_at (neighbors conn) target in
      let hash_idx :=
        Z.rem (symmetric_int_hash source target) (to_uint32 (int_mul K 32)) in
      let bit := to_uint32 (Z.shiftl 1 (Z.rem hash_idx 32)) in
      let hit := negb (Z.land (rd hashtable (Z.quot hash_idx 32)) bit =? 0) in
      if hit && existsb (Z.eqb target)
                  (take (Z.to_nat num_source_neighbors) source_neighbors)
      then st
      else if hit && existsb (Z.eqb source)
                       (take (Z.to_nat num_target_neighbors) target_neighbors)
      then st
      else
        let lists :=
          set_row (neighbors conn) target
            (wr target_neighbors (rd (num_neighbors conn) target) source) in
        let counts :=
          wr (num_neighbors conn) target (int_add (rd (num_neighbors conn) target) 1) in
        let lists :=
          set_row lists source (wr (row_at lists source) num_source_neighbors target) in
        (mkConnectivity (num_nodes conn) counts lists,
         wr hashtable (Z.quot hash_idx 32)
            (Z.lor (rd hashtable (Z.quot hash_idx 32)) bit),
         int_add num_source_neighbors 1).

(** The body of the scan at pixel [(i, j)]. *)
Definition connectivity_pixel (W K : Z) (assignment : list Z) (i j : Z)
    (st : Connectivity * list Z) : Connectivity * list Z :=
  let '(conn, hashtable) := st in
  let base_index := int_add (int_mul W i) j in
  let source := rd assignment base_index in
  let num_source_neighbors := rd (num_neighbors conn) source in
  if to_uint32 K <=? source then st
  else
    let s := (conn, hashtable, num_source_neighbors) in
    let s := CONNECTIVITY_SEARCH K assignment source (int_add base_index 1) s in
    let s := CONNECTIVITY_SEARCH K assignment source (int_add base_index W) s in
    let s := CONNECTIVITY_SEARCH K assignment source (int_add (int_add base_index W) 1) s in
    let '(conn, hashtable, num_source_neighbors) := s in
    (mkConnectivity (num_nodes conn)
       (wr (num_neighbors conn) source num_source_neighbors) (neighbors conn),
     hashtable).

Definition fast_slic_get_connectivity (H W K : Z) (assignment : list Z) : Connectivity :=
  let conn :=
    mkConnectivity K (replicate (Z.to_nat K) 0)
      (replicate (Z.to_nat K) (replicate (Z.to_nat max_conn) 0)) in
  let hashtable := replicate (Z.to_nat K) 0 in
  fst (for_range 0 (H - 1) (fun i =>
         for_range 0 (W - 1) (fun j => connectivity_pixel W K assignment i j))
         (conn, hashtable)).

(** [conn->num_neighbors[source] = n]: the write that ends the body of the
    scan, and the record as the macro sees it through its local count. *)
Definition commit (conn : Connectivity) (source n : Z) : Connectivity :=
  mkConnectivity (num_nodes conn) (wr (num_neighbors conn) source n) (neighbors conn).

(** The arrays of the record of a scan over [K] clusters. *)
Definition conn_shape (K : Z) (conn : Connectivity) : Prop :=
  Z.of_nat (length (num_neighbors conn)) = K /\
  Z.of_nat (length (neighbors conn)) = K /\
  (forall k, 0 <= k < K -> length (row_at (neighbors conn) k) = 12%nat) /\
  (forall k, 0 <= k < K -> 0 <= rd (num_neighbors conn) k <= 12).

(** The three forward offsets: right, below, diagonally below-right. *)
Definition forward_offset (di dj : Z) : Prop :=
  (di = 0 /\ dj = 1) \/ (di = 1 /\ dj = 0) \/ (di = 1 /\ dj = 1).

(** Some pixel of the image labelled [a] has a pixel labelled [c] immediately
    to its right, below it or diagonally below-right of it. *)
Definition forward_pair (H W : Z) (assignment : list Z) (a c : Z) : Prop :=
  exists i j di dj,
    forward_offset di dj /\
    0 <= i /\ i + di < H /\ 0 <= j /\ j + dj < W /\
    rd assignment (W * i + j) = a /\
    rd assignment (W * (i + di) + (j + dj)) = c.

(** The same with the pixel labelled [a] outside the last row and the last
    column: the pixels the scan starts from. *)
Definition scanned_pair (H W : Z) (assignment : list Z) (a c : Z) : Prop :=
  exists i j di dj,
    forward_offset di dj /\
    0 <= i < H - 1 /\ 0 <= j < W - 1 /\
    rd assignment (W * i + j) = a /\
    rd assignment (W * (i + di) + (j + dj)) = c.

(** What the scan maintains: every recorded neighbor is another cluster of
    the array, is recorded in both directions, and comes from a pair of
    pixels related by [E]. *)
Definition conn_good (K : Z) (E : Z -> Z -> Prop) (conn : Connectivity) : Prop :=
  conn_shape K conn /\
  forall a c, 0 <= a < K -> In c (neighbor_list conn a) ->
    0 <= c < K /\ c <> a /\ In a (neighbor_list conn c) /\ (E a c \/ E c a).

(** The lists and the counts only grow. *)
Definition conn_extends (K : Z) (conn conn' : Connectivity) : Prop :=
  forall k, 0 <= k < K ->
    rd (num_neighbors conn) k <= rd (num_neighbors conn') k /\
    forall c, In c (neighbor_list conn k) -> In c (neighbor_list conn' k).

(** The pair [(a, c)] is recorded, or one of its ends is at the cap. *)
Definition settled (conn : Connectivity) (a c : Z) : Prop :=
  In c (neighbor_list conn a)
  \/ 12 <= rd (num_neighbors conn) a \/ 12 <= rd (num_neighbors conn) c.

(** ** Iteration driver *)

(** [context->clusters] after the update kernel has rewritten the array. *)
Definition with_clusters (ctx : Context) (clusters : list Cluster) : Context :=
  mkContext (ctx_H ctx) (ctx_W ctx) (ctx_K ctx) (ctx_S ctx) (ctx_quantize_level ctx)
    (ctx_image ctx) clusters (ctx_spatial_normalize_cache ctx).

(** [slic_assign]: the kernel runs when [context->algorithm] is the string
    "cluster_oriented"; for any other name the image is left as it is. *)
Definition slic_assign (zorder_sort : list Cluster -> list Cluster)
    (algorithm : string) (ctx : Context) (assignment : list Z) : list Z :=
  if String.eqb algorithm "cluster_oriented"
  then slic_assign_cluster_oriented zorder_sort ctx assignment
  else assignment.

(** The body of the loop of [fast_slic_iterate]: [slic_assign] then
    [slic_update_clusters], on the context the driver has set up with
    [algorithm = "cluster_oriented"]. *)
Definition slic_iteration (zorder_sort : list Cluster -> list Cluster)
    (st : Context * list Z) : Context * list Z :=
  let '(ctx, assignment) := st in
  let assignment := slic_assign zorder_sort "cluster_oriented" ctx assignment in
  let clusters :=
    slic_update_clusters (ctx_H ctx) (ctx_W ctx) (ctx_K ctx) (ctx_image ctx)
      (ctx_clusters ctx) assignment in
  (with_clusters ctx clusters, assignment).

(** [for (int i = 0; i < max_iter; i++) { slic_assign; slic_update_clusters }] *)
Definition slic_iterations (zorder_sort : list Cluster -> list Cluster)
    (max_iter : Z) (st : Context * list Z) : Context * list Z :=
  for_range 0 max_iter (fun _ => slic_iteration zorder_sort) st.

(** What the driver loop asks of its context beyond the assignment kernel:
    cluster numbers below [K <= 65535], sums of the update kernel within
    [int], and centroids of the update kernel within the [int16_t] window
    arithmetic. *)
Definition iterate_ctx_ok (ctx : Context) : Prop :=
  assign_ctx_ok ctx /\
  0 < ctx_K ctx <= 65535 /\
  Forall (fun c => number c < ctx_K ctx) (ctx_clusters ctx) /\
  ctx_H ctx * ctx_W ctx * Z.max 256 (Z.max (ctx_H ctx) (ctx_W ctx)) < 2147483648 /\
  ctx_H ctx + ctx_S ctx <= 32767 /\ ctx_W ctx + ctx_S ctx <= 32767.

(** The sum of the member counts of a cluster array. *)
Definition total_members (clusters : list Cluster) : Z :=
  fold_right (fun c s => num_members c + s) 0 clusters.

(** The sum of [f k] for [k] below [n]. *)
Fixpoint sum_below (f : Z -> Z) (n : nat) : Z :=
  match n with
  | O => 0
  | S m => sum_below f m + f (Z.of_nat m)
  end.

(** ** Pixel-adjacency builder: the hashtable *)

(** The bit of the hashtable the macro tests and sets for the pair
    [(a, c)]: bit [hash_idx % 32] of the word [hash_idx / 32]. *)
Definition hash_idx (K a c : Z) : Z :=
  Z.rem (symmetric_int_hash a c) (to_uint32 (int_mul K 32)).

Definition slot_set (K : Z) (hashtable : list Z) (a c : Z) : Prop :=
  Z.land (rd hashtable (Z.quot (hash_idx K a c) 32))
         (to_uint32 (Z.shiftl 1 (Z.rem (hash_idx K a c) 32))) <> 0.

(** What the scan maintains between the record and its hashtable: the bit
    of every recorded pair is set, and no list holds a cluster twice. *)
Definition conn_table_ok (K : Z) (conn : Connectivity) (hashtable : list Z) : Prop :=
  conn_good K (fun _ _ => True) conn /\
  Z.of_nat (length hashtable) = K /\
  (forall a c, 0 <= a < K -> In c (neighbor_list conn a) -> slot_set K hashtable a c) /\
  (forall a, 0 <= a < K -> NoDup (neighbor_list conn a)).

(** ** Centroid-KNN builder: the scan of a query *)

(** The distance the query for cluster [i] computes for [cluster_around]. *)
Definition knn_distance (clusters : list Cluster) (i cluster_around : Z) : Z :=
  int_add (fast_abs (x (cluster_at clusters cluster_around) - x (cluster_at clusters i)))
          (fast_abs (y (cluster_at clusters cluster_around) - y (cluster_at clusters i))).

(** The heap as the model keeps it: greatest distance first. *)
Definition heap_desc (heap : list (Z * Z)) : Prop :=
  StronglySorted (fun p q : Z * Z => q.1 <= p.1) heap.

(** What the query for cluster [i] maintains, after the clusters [seen]:
    the heap holds clusters it looked at, other than [i], with their
    distances, and some entry is at least as near as any cluster seen. *)
Definition knn_heap_ok (clusters : list Cluster) (i : Z) (seen : list Z)
    (heap : list (Z * Z)) : Prop :=
  heap_desc heap /\
  Forall (fun e => e.2 <> i /\ In e.2 seen /\ e.1 = knn_distance clusters i e.2) heap /\
  forall c, In c seen -> c <> i ->
    exists e, In e heap /\ e.1 <= knn_distance clusters i c.

(** The cells the loops of the query for [q] run over, seen from the cell
    of [c]: from 3 cells before the cell of [q] to 2 cells after it, in each
    axis. *)
Definition knn_window (S : Z) (q c : Cluster) : Prop :=
  -3 <= Z.quot (y c) S - Z.quot (y q) S <= 2 /\
  -3 <= Z.quot (x c) S - Z.quot (x q) S <= 2.

(** ** Examples *)

(** A 4x4 label image tiled by four 2x2 blocks. *)
Definition tiles_4x4 : list Z := [0; 0; 1; 1; 0; 0; 1; 1; 2; 2; 3; 3; 2; 2; 3; 3].

(** A 2x15 label image: fourteen clusters side by side above one cluster that
    fills the second row. *)
Definition stripe_2x15 : list Z :=
  [1; 2; 3; 4; 5; 6; 7; 8; 9; 10; 11; 12; 13; 14; 14;
   0; 0; 0; 0; 0; 0; 0; 0; 0; 0; 0; 0; 0; 0; 0].

(** Two 2x2 label images: two columns, and one row above two single pixels. *)
Definition columns_2x2 : list Z := [0; 1; 0; 1].
Definition row_over_two_2x2 : list Z := [2; 2; 0; 1].

(** A 2x2 image with two pixels of cluster 0, one of cluster 1, one pixel
    without a label, and a third cluster without members. *)
Definition update_image : list Z := [10; 20; 30; 20; 30; 40; 50; 60; 70; 255; 255; 255].
Definition update_labels : list Z := [0; 0; 1; 65535].
Definition update_clusters : list Cluster :=
  [mkCluster 0 5 5 1 2 3 9; mkCluster 1 6 6 4 5 6 9; mkCluster 2 7 7 7 8 9 9].

(** A 2x2 image with two clusters whose windows ([S = 1]) hold every pixel:
    a black cluster at (0, 0) and a cluster of color (255, 255, 3) at (1, 1).
    The pixel (0, 1) has color (255, 255, 2): at color L1 distance 512 from
    the first cluster and 1 from the second. *)
Definition assign_image : list Z := [0; 0; 0; 255; 255; 2; 9; 9; 9; 255; 255; 3].
Definition assign_clusters : list Cluster :=
  [mkCluster 0 0 0 0 0 0 0; mkCluster 1 1 1 255 255 3 0].
Definition assign_ctx (quantize_level : Z) : Context :=
  mkContext 2 2 2 1 quantize_level assign_image assign_clusters [0; 10; 20].

(** Nine centroids on a regular 3x3 grid of a 30x30 image, at spacing
    [S = 10], numbered in row-major order. *)
Definition grid_3x3 : list Cluster :=
  map (fun k => mkCluster k (5 + 10 * Z.quot k 3) (5 + 10 * Z.rem k 3) 0 0 0 0)
      [0; 1; 2; 3; 4; 5; 6; 7; 8].

(** Two centroids at the two ends of a 1x4 image ([S = 1], a grid of 1x4
    cells). *)
Definition row_ends : list Cluster :=
  [mkCluster 0 0 0 0 0 0 0; mkCluster 1 0 3 0 0 0 0].

(** A white pixel against a black cluster at [quantize_level = 7] with no
    spatial cost. *)
Definition black_cluster : Cluster := mkCluster 0 0 0 0 0 0 0.
Definition white_pixel : list Z := [255; 255; 255].

(** A 2x2 image: two pixels of cluster 0, one of cluster 1, one unlabelled. *)
Definition mask_clusters : list Cluster :=
  [mkCluster 0 0 0 0 0 0 2; mkCluster 1 1 0 0 0 0 1].
Definition mask_labels : list Z := [0; 0; 1; 65535].

(** Three clusters of a 2x6 image, two of them on the same centroid. *)
Definition stacked_clusters : list Cluster :=
  [mkCluster 0 1 1 0 0 0 0; mkCluster 1 1 1 0 0 0 0; mkCluster 2 1 4 0 0 0 0].

(** Two workers with one cluster of [assign_clusters] each, on the image of
    [assign_ctx].  Both schedules start alike: worker 0 tests and stores
    word 0, worker 1 tests word 0 (not greater) and tests word 1.  In
    [calm_schedule] worker 1 then stores word 1 before worker 0 tests it.  In
    [racy_schedule] worker 0 tests word 1 before that store, so both workers
    have seen the fill value, and the store of worker 0 comes last. *)
Definition assign_team : list (list Cluster) :=
  [[mkCluster 0 0 0 0 0 0 0]; [mkCluster 1 1 1 255 255 3 0]].
Definition calm_schedule : list nat :=
  [0; 0; 1; 1; 1; 0; 0; 0; 0; 0; 0; 1; 1; 1; 1]%nat.

(* ================================================================== *)
(** * Properties *)
(* ================================================================== *)

(** ** Machine integers *)

Lemma to_uint16_small z : 0 <= z < 65536 -> to_uint16 z = z.
Proof. intros ?. unfold to_uint16. by rewrite Z.mod_small. Qed.

Lemma to_uint32_small z : 0 <= z < 4294967296 -> to_uint32 z = z.
Proof. intros ?. unfold to_uint32. by rewrite Z.mod_small. Qed.

Lemma to_int16_small z : -32768 <= z < 32768 -> to_int16 z = z.
Proof. intros ?. unfold to_int16. rewrite Z.mod_small; lia. Qed.

Lemma to_int32_small z : -2147483648 <= z < 2147483648 -> to_int32 z = z.
Proof. intros ?. unfold to_int32. rewrite Z.mod_small; lia. Qed.

Lemma to_uint16_uint32 z : to_uint16 (to_uint32 z) = to_uint16 z.
Proof.
  unfold to_uint16, to_uint32. apply Z.mod_mod_divide.
  exists 65536. reflexivity.
Qed.

(** ** Arrays *)

Lemma rd_lookup (a : list Z) (i : nat) v : a !! i = Some v -> rd a (Z.of_nat i) = v.
Proof.
  intros Hv. unfold rd. rewrite Nat2Z.id, Hv.
  destruct (Z.leb_spec 0 (Z.of_nat i)); [done | lia].
Qed.

Lemma rd_bytes a i :
  bytes_wf a -> 0 <= rd a i < 256.
Proof.
  intros Ha. unfold rd. destruct (0 <=? i); [| lia].
  destruct (a !! Z.to_nat i) as [v|] eqn:E; simpl; [| lia].
  eapply (proj1 (Forall_lookup _ _) Ha); eauto.
Qed.

(** ** Assignment kernel: the candidate word *)

Lemma fast_abs_spec a : fast_abs a = Z.abs a.
Proof. unfold fast_abs. destruct (Z.ltb_spec a 0); lia. Qed.

Lemma color_l1_spec cluster image base_index :
  cluster_wf cluster -> bytes_wf image ->
  0 <= base_index < 715827882 ->
  color_l1 cluster image base_index =
    Z.abs (rd image (3 * base_index) - r cluster)
    + Z.abs (rd image (3 * base_index + 1) - g cluster)
    + Z.abs (rd image (3 * base_index + 2) - b cluster).
Proof.
  intros (_ & _ & _ & Hr & Hg & Hb & _) Himg Hi. unfold color_l1.
  rewrite (to_int32_small (3 * base_index)) by lia.
  pose proof (rd_bytes image (3 * base_index) Himg).
  pose proof (rd_bytes image (3 * base_index + 1) Himg).
  pose proof (rd_bytes image (3 * base_index + 2) Himg).
  rewrite !fast_abs_spec.
  rewrite (to_int16_small (r cluster)), (to_int16_small (g cluster)),
    (to_int16_small (b cluster)) by lia.
  rewrite !to_int16_small by lia. reflexivity.
Qed.

Lemma color_l1_range cluster image base_index :
  cluster_wf cluster -> bytes_wf image ->
  0 <= base_index < 715827882 ->
  0 <= color_l1 cluster image base_index <= 765.
Proof.
  intros Hc Himg Hi. rewrite color_l1_spec by done.
  destruct Hc as (_ & _ & _ & Hr & Hg & Hb & _).
  pose proof (rd_bytes image (3 * base_index) Himg).
  pose proof (rd_bytes image (3 * base_index + 1) Himg).
  pose proof (rd_bytes image (3 * base_index + 2) Himg).
  lia.
Qed.

(** The candidate word holds the cluster number in its low half and, in its
    high half, the sum of the two costs reduced modulo 2^16. *)
Lemma get_assignment_value_eq cluster image base_index spatial_dist quantize_level :
  cluster_wf cluster -> bytes_wf image ->
  0 <= base_index < 715827882 ->
  0 <= spatial_dist < 65536 ->
  0 <= quantize_level ->
  get_assignment_value cluster image base_index spatial_dist quantize_level =
    ((Z.shiftl (color_l1 cluster image base_index) quantize_level mod 65536
      + spatial_dist) mod 65536) * 65536 + number cluster.
Proof.
  intros Hc Himg Hi Hs Hq.
  pose proof (color_l1_range _ _ _ Hc Himg Hi) as Hl.
  destruct Hc as (Hn & _).
  unfold get_assignment_value.
  rewrite (to_uint32_small (color_l1 _ _ _)) by lia.
  rewrite to_uint16_uint32. unfold to_uint16.
  set (cd := Z.shiftl _ _ mod 65536).
  assert (0 <= cd < 65536) by (apply Z.mod_pos_bound; lia).
  rewrite (to_uint32_small (cd + spatial_dist)) by lia.
  rewrite (to_uint32_small (number cluster)) by lia.
  rewrite Z.shiftl_mul_pow2 by lia. change (2 ^ 16) with 65536.
  assert (E : to_uint32 ((cd + spatial_dist) * 65536)
              = (cd + spatial_dist) mod 65536 * 65536).
  { unfold to_uint32. change 4294967296 with (65536 * 65536).
    rewrite Z.mul_mod_distr_r by lia. reflexivity. }
  rewrite E.
  assert (0 <= (cd + spatial_dist) mod 65536 < 65536) by (apply Z.mod_pos_bound; lia).
  rewrite to_uint32_small by lia. reflexivity.
Qed.

(** The two halves of the candidate word. *)
Lemma get_assignment_value_halves cluster image base_index spatial_dist quantize_level :
  cluster_wf cluster -> bytes_wf image ->
  0 <= base_index < 715827882 ->
  0 <= spatial_dist < 65536 ->
  0 <= quantize_level <= 7 ->
  let l1 := Z.abs (rd image (3 * base_index) - r cluster)
            + Z.abs (rd image (3 * base_index + 1) - g cluster)
            + Z.abs (rd image (3 * base_index + 2) - b cluster) in
  let word := get_assignment_value cluster image base_index spatial_dist quantize_level in
  0 <= l1 <= 765 /\
  Z.land word 65535 = number cluster /\
  Z.shiftr word 16 = ((l1 * 2 ^ quantize_level) mod 65536 + spatial_dist) mod 65536 /\
  (l1 * 2 ^ quantize_level + spatial_dist < 65536 ->
   Z.shiftr word 16 = l1 * 2 ^ quantize_level + spatial_dist).
Proof.
  intros Hc Himg Hi Hs Hq l1 word.
  pose proof (color_l1_range _ _ _ Hc Himg Hi) as Hl.
  pose proof (color_l1_spec _ _ _ Hc Himg Hi) as El. fold l1 in El.
  assert (Ew : word = ((l1 * 2 ^ quantize_level) mod 65536 + spatial_dist) mod 65536
                      * 65536 + number cluster).
  { unfold word. rewrite get_assignment_value_eq by (done || lia).
    rewrite El, Z.shiftl_mul_pow2 by lia. reflexivity. }
  destruct Hc as (Hn & _).
  set (hi := ((l1 * 2 ^ quantize_level) mod 65536 + spatial_dist) mod 65536) in *.
  assert (0 <= hi < 65536) by (apply Z.mod_pos_bound; lia).
  assert (Ehi : Z.shiftr word 16 = hi).
  { rewrite Ew, Z.shiftr_div_pow2 by lia. change (2 ^ 16) with 65536.
    rewrite Z.div_add_l by lia. rewrite Z.div_small by lia. lia. }
  split; [lia |]. split; [| split; [exact Ehi |]].
  - rewrite Ew. change 65535 with (Z.ones 16). rewrite Z.land_ones by lia.
    change (2 ^ 16) with 65536.
    rewrite Z.add_comm, Z.mod_add by lia. apply Z.mod_small; lia.
  - intros Hsmall. rewrite Ehi. unfold hi.
    assert (0 <= l1 * 2 ^ quantize_level) by (apply Z.mul_nonneg_nonneg; lia).
    rewrite (Z.mod_small (l1 * 2 ^ quantize_level)) by lia.
    apply Z.mod_small; lia.
Qed.

(** C3 (as the code has it): the shifted color cost is truncated to 16 bits,
    the spatial cost is taken as read from the cache, and their sum is reduced
    modulo 2^16 when it is packed above the cluster number; nothing is
    clamped.  When the exact sum of the shifted color distance and the spatial
    cost is below 2^16 the high half of the word is that sum. *)
Theorem get_assignment_value_wraps cluster image base_index spatial_dist quantize_level :
  cluster_wf cluster -> bytes_wf image ->
  0 <= base_index < 715827882 ->
  0 <= spatial_dist < 65536 ->
  0 <= quantize_level <= 7 ->
  let l1 := Z.abs (rd image (3 * base_index) - r cluster)
            + Z.abs (rd image (3 * base_index + 1) - g cluster)
            + Z.abs (rd image (3 * base_index + 2) - b cluster) in
  let word := get_assignment_value cluster image base_index spatial_dist quantize_level in
  0 <= l1 <= 765 /\
  Z.land word 65535 = number cluster /\
  Z.shiftr word 16 = ((l1 * 2 ^ quantize_level) mod 65536 + spatial_dist) mod 65536 /\
  (l1 * 2 ^ quantize_level + spatial_dist < 65536 ->
   Z.shiftr word 16 = l1 * 2 ^ quantize_level + spatial_dist).
Proof.
  intros Hc Himg Hi Hs Hq.
  exact (get_assignment_value_halves cluster image base_index spatial_dist
           quantize_level Hc Himg Hi Hs Hq).
Qed.


Lemma get_assignment_value_wraps_witness :
  Z.shiftr (get_assignment_value black_cluster white_pixel 0 0 7) 16 = 32384.
Proof.
  pose proof (get_assignment_value_wraps black_cluster white_pixel 0 0 7) as Hw.
  simpl in Hw.
  assert (Hc : cluster_wf black_cluster) by (unfold cluster_wf; simpl; lia).
  assert (Hi : bytes_wf white_pixel)
    by (unfold bytes_wf, white_pixel; repeat constructor; lia).
  destruct (Hw Hc Hi ltac:(lia) ltac:(lia) ltac:(lia)) as (_ & _ & E & _).
  rewrite E. reflexivity.
Defined.

(** C3 as stated fails: the shifted color cost 765 * 128 =
    97920 is stored as 97920 - 65536 = 32384, where clamping gives 65535. *)
Lemma get_assignment_value_not_saturated :
  Z.shiftr (get_assignment_value black_cluster white_pixel 0 0 7) 16 = 32384 /\
  Z.shiftr (saturated_assignment_value black_cluster white_pixel 0 0 7) 16 = 65535 /\
  get_assignment_value black_cluster white_pixel 0 0 7
    <> saturated_assignment_value black_cluster white_pixel 0 0 7.
Proof. repeat split; vm_compute; congruence. Qed.


(** ** Loops *)

Section for_range_lemmas.
Context {St : Type}.
Implicit Types (body : Z -> St -> St) (st : St).

Lemma for_range_empty lo hi body st : hi <= lo -> for_range lo hi body st = st.
Proof.
  intros Hle. unfold for_range.
  replace (Z.to_nat (hi - lo)) with 0%nat by lia. reflexivity.
Qed.

Lemma for_range_snoc lo hi body st :
  lo <= hi ->
  for_range lo (hi + 1) body st = body hi (for_range lo hi body st).
Proof.
  intros Hle. unfold for_range.
  replace (Z.to_nat (hi + 1 - lo)) with (S (Z.to_nat (hi - lo))) by lia.
  rewrite seq_S, fold_left_app. simpl.
  f_equal. lia.
Qed.

(** Invariant rule of the counted loop. *)
Lemma for_range_ind (P : Z -> St -> Prop) lo hi body st :
  lo <= hi ->
  P lo st ->
  (forall k s, lo <= k < hi -> P k s -> P (k + 1) (body k s)) ->
  P hi (for_range lo hi body st).
Proof.
  intros Hle H0 Hstep.
  assert (Hn : forall n : nat, lo + Z.of_nat n <= hi ->
             P (lo + Z.of_nat n) (for_range lo (lo + Z.of_nat n) body st)).
  { induction n as [| n IH]; intros Hb.
    - rewrite Z.add_0_r, for_range_empty by lia. exact H0.
    - replace (lo + Z.of_nat (S n)) with (lo + Z.of_nat n + 1) by lia.
      rewrite for_range_snoc by lia. apply Hstep; [lia |]. apply IH. lia. }
  specialize (Hn (Z.to_nat (hi - lo))).
  replace (lo + Z.of_nat (Z.to_nat (hi - lo))) with hi in Hn by lia.
  apply Hn. lia.
Qed.

End for_range_lemmas.

(** ** Arrays, continued *)

Lemma rd_in_range (a : list Z) i :
  0 <= i < Z.of_nat (length a) -> a !! Z.to_nat i = Some (rd a i).
Proof.
  intros Hi. unfold rd. destruct (Z.leb_spec 0 i); [| lia].
  destruct (lookup_lt_is_Some_2 a (Z.to_nat i)) as [v Hv]; [lia |].
  by rewrite Hv.
Qed.

Lemma length_wr a i v : length (wr a i v) = length a.
Proof. unfold wr. destruct (0 <=? i); [apply length_insert | done]. Qed.

Lemma rd_wr_eq a i v : 0 <= i < Z.of_nat (length a) -> rd (wr a i v) i = v.
Proof.
  intros Hi. unfold rd, wr. destruct (Z.leb_spec 0 i); [| lia].
  rewrite list_lookup_insert_eq by lia. reflexivity.
Qed.

Lemma rd_wr_ne a i j v : i <> j -> rd (wr a i v) j = rd a j.
Proof.
  intros Hne. unfold rd, wr.
  destruct (Z.leb_spec 0 i), (Z.leb_spec 0 j); try done.
  rewrite list_lookup_insert_ne by lia. reflexivity.
Qed.

Lemma rd_replicate n v i : 0 <= i < Z.of_nat n -> rd (replicate n v) i = v.
Proof.
  intros Hi. unfold rd. destruct (Z.leb_spec 0 i); [| lia].
  rewrite lookup_replicate_2 by lia. reflexivity.
Qed.

Lemma take_succ_rd (a : list Z) p :
  0 <= p < Z.of_nat (length a) ->
  take (Z.to_nat (p + 1)) a = take (Z.to_nat p) a ++ [rd a p].
Proof.
  intros Hp. replace (Z.to_nat (p + 1)) with (S (Z.to_nat p)) by lia.
  apply take_S_r, rd_in_range, Hp.
Qed.

(** The row-major index of pixel [(i, j)], as the kernels compute it. *)
Lemma pixel_index H W i j :
  0 <= i < H -> 0 <= j < W -> H * W < 2147483648 ->
  int_add (int_mul W i) j = W * i + j /\ 0 <= W * i + j < H * W.
Proof.
  intros Hi Hj Hsz.
  assert (0 <= W * i + j < H * W) by nia.
  unfold int_add, int_mul.
  rewrite (to_int32_small (W * i)) by nia.
  rewrite to_int32_small by lia. done.
Qed.

(** Invariant rule of the row-major scan of an [H]x[W] image: the invariant
    is indexed by the number of pixels already visited. *)
Lemma for_pixels_ind {St : Type} (P : Z -> St -> Prop) H W
    (body : Z -> Z -> St -> St) (st : St) :
  0 <= H -> 0 <= W ->
  P 0 st ->
  (forall i j s, 0 <= i < H -> 0 <= j < W ->
     P (W * i + j) s -> P (W * i + j + 1) (body i j s)) ->
  P (H * W) (for_range 0 H (fun i => for_range 0 W (body i)) st).
Proof.
  intros HH HW H0 Hstep.
  replace (H * W) with (W * H) by lia.
  apply (for_range_ind (fun i s => P (W * i) s)); [lia | by rewrite Z.mul_0_r |].
  intros i s Hi Hs.
  replace (W * (i + 1)) with (W * i + W) by lia.
  apply (for_range_ind (fun j s => P (W * i + j) s)); [lia | by rewrite Z.add_0_r |].
  intros j s' Hj Hs'. rewrite Z.add_assoc. by apply Hstep.
Qed.

(** ** Mask aggregation *)

Section mask_roundtrip.
Variables (H W K : Z) (clusters : list Cluster) (assignment : list Z) (v : Z).
Hypothesis HH : 0 < H.
Hypothesis HW : 0 < W.
Hypothesis Hsize : 255 * (H * W) < 2147483648.
Hypothesis HK : 0 < K <= 65535.
Hypothesis Hlabels : labels_wf H W K assignment.
Hypothesis Hmembers : members_counted K clusters assignment.
Hypothesis Hv : 0 <= v <= 255.

Let mask : list Z := replicate (Z.to_nat (H * W)) v.

(** The sums of the first loop of [fast_slic_get_mask_density] after [n]
    pixels. *)
Let sum_inv (n : Z) (sum : list Z) : Prop :=
  Z.of_nat (length sum) = K /\
  forall k, 0 <= k < K ->
    rd sum k = v * Z.of_nat (count_occ Z.eq_dec (take (Z.to_nat n) assignment) k).

Lemma label_cases p :
  0 <= p < H * W ->
  0 <= rd assignment p < K \/ rd assignment p = 65535.
Proof using Hlabels.
  intros Hp. destruct Hlabels as [Hlen Hall].
  eapply (proj1 (Forall_lookup _ _) Hall). apply rd_in_range. lia.
Qed.

Lemma count_occ_take_le (n : nat) k :
  (count_occ Z.eq_dec (take n assignment) k <= n)%nat.
Proof.
  etrans; [apply count_occ_bound |]. rewrite length_take. lia.
Qed.

Lemma mask_sum_loop :
  sum_inv (H * W)
    (for_range 0 H (fun i =>
       for_range 0 W (fun j sum =>
         let cluster_no := rd assignment (int_add (int_mul W i) j) in
         if cluster_no <? to_uint32 K
         then wr sum cluster_no
                (int_add (rd sum cluster_no) (rd mask (int_add (int_mul W i) j)))
         else sum)) (replicate (Z.to_nat K) 0)).
Proof using HH HW Hsize HK Hlabels Hv.
  apply (for_pixels_ind sum_inv); [lia | lia | |].
  - split; [rewrite length_replicate; lia |].
    intros k Hk. rewrite rd_replicate by lia. simpl. lia.
  - intros i j sum Hi Hj [Hlen Hsum].
    destruct (pixel_index H W i j Hi Hj ltac:(lia)) as [-> Hp].
    set (p := W * i + j) in *. cbv zeta.
    destruct Hlabels as [Hlenl _].
    rewrite to_uint32_small by lia.
    pose proof (label_cases p Hp) as Hl.
    assert (Etake : forall k,
      Z.of_nat (count_occ Z.eq_dec (take (Z.to_nat (p + 1)) assignment) k)
      = Z.of_nat (count_occ Z.eq_dec (take (Z.to_nat p) assignment) k)
        + (if Z.eq_dec (rd assignment p) k then 1 else 0)).
    { intros k. rewrite take_succ_rd by lia. rewrite count_occ_app. simpl.
      destruct (Z.eq_dec (rd assignment p) k); lia. }
    destruct (Z.ltb_spec (rd assignment p) K) as [Hlt | Hge].
    + split; [by rewrite length_wr |].
      intros k Hk. rewrite Etake.
      destruct (Z.eq_dec (rd assignment p) k) as [<- | Hne].
      * rewrite rd_wr_eq by lia. rewrite Hsum by lia.
        unfold mask. rewrite rd_replicate by lia.
        pose proof (count_occ_take_le (Z.to_nat p) (rd assignment p)).
        unfold int_add. rewrite to_int32_small by nia. lia.
      * rewrite rd_wr_ne by done. rewrite Hsum by done. lia.
    + split; [done |]. intros k Hk. rewrite Etake.
      destruct (Z.eq_dec (rd assignment p) k); [lia |].
      rewrite Hsum by done. lia.
Qed.

Lemma mask_density_values densities0 :
  Z.of_nat (length densities0) = K ->
  let densities :=
    fast_slic_get_mask_density H W K clusters assignment mask densities0 in
  Z.of_nat (length densities) = K /\
  forall k, 0 <= k < K -> (0 < count_occ Z.eq_dec assignment k)%nat ->
    rd densities k = v.
Proof using HH HW Hsize HK Hlabels Hmembers Hv.
  intros Hlen0 densities. unfold densities, fast_slic_get_mask_density.
  pose proof mask_sum_loop as [Hlens Hsum].
  set (sum := for_range 0 H _ _) in *.
  apply (for_range_ind (fun n d =>
    Z.of_nat (length d) = K /\
    forall k, 0 <= k < n -> (0 < count_occ Z.eq_dec assignment k)%nat -> rd d k = v));
    [lia | split; [done | intros; lia] |].
  intros k d Hk [Hlen Hd]. split; [by rewrite length_wr |].
  intros k' Hk' Hpos. destruct (Z.eq_dec k k') as [<- | Hne].
  - rewrite rd_wr_eq by lia. rewrite Hsum by done.
    destruct Hmembers as [_ Hm]. rewrite Hm by done.
    destruct Hlabels as [Hlenl _].
    rewrite firstn_all2 by lia.
    set (c := Z.of_nat (count_occ Z.eq_dec assignment k)).
    assert (0 < c <= H * W).
    { unfold c. pose proof (count_occ_bound Z.eq_dec k assignment). lia. }
    rewrite to_uint32_small by nia.
    unfold my_max. destruct (Z.ltb_spec c 1); [lia |].
    rewrite Z.quot_div_nonneg by nia. rewrite Z.div_mul by lia.
    rewrite to_int32_small by lia.
    unfold my_min. destruct (Z.ltb_spec 255 v); [lia |].
    unfold to_uint8. apply Z.mod_small. lia.
  - rewrite rd_wr_ne by done. apply Hd; [lia | done].
Qed.

Lemma density_to_mask_values densities result0 :
  Z.of_nat (length result0) = H * W ->
  let result :=
    fast_slic_cluster_density_to_mask H W K clusters assignment densities result0 in
  forall p, 0 <= p < H * W ->
    rd result p = if rd assignment p <? K then rd densities (rd assignment p) else 0.
Proof using HH HW Hsize HK Hlabels.
  intros Hlen0 result. unfold result, fast_slic_cluster_density_to_mask.
  set (inv := fun n res => Z.of_nat (length res) = H * W /\
       forall p, 0 <= p < n ->
         rd res p = if rd assignment p <? K then rd densities (rd assignment p) else 0).
  assert (Hinv : inv (H * W)
    (for_range 0 H (fun i => for_range 0 W (fun j result =>
       let cluster_no := rd assignment (int_add (int_mul W i) j) in
       if cluster_no <? to_uint32 K
       then wr result (int_add (int_mul W i) j) (rd densities cluster_no)
       else wr result (int_add (int_mul W i) j) 0)) result0)).
  { apply (for_pixels_ind inv); [lia | lia | split; [done | intros; lia] |].
    intros i j res Hi Hj [Hlen Hres].
    destruct (pixel_index H W i j Hi Hj ltac:(lia)) as [-> Hp].
    set (q := W * i + j) in *. cbv zeta.
    rewrite to_uint32_small by lia.
    split; [destruct (rd assignment q <? K); by rewrite length_wr |].
    intros p Hp'. destruct (Z.eq_dec q p) as [<- | Hne].
    - destruct (rd assignment q <? K); by rewrite rd_wr_eq by lia.
    - destruct (rd assignment q <? K); rewrite rd_wr_ne by done; apply Hres; lia. }
  apply Hinv.
Qed.
End mask_roundtrip.

(** C7: on a label image whose labels are cluster indices or the sentinel,
    with [num_members] the member counts and a constant mask of value [v],
    [fast_slic_cluster_density_to_mask] after [fast_slic_get_mask_density]
    gives [v] at every pixel labelled with a cluster and 0 at every pixel
    that holds the sentinel. *)
Theorem mask_density_roundtrip H W K clusters assignment v densities0 result0 :
  0 < H -> 0 < W -> 255 * (H * W) < 2147483648 ->
  0 < K <= 65535 ->
  labels_wf H W K assignment ->
  members_counted K clusters assignment ->
  0 <= v <= 255 ->
  Z.of_nat (length densities0) = K ->
  Z.of_nat (length result0) = H * W ->
  let mask := replicate (Z.to_nat (H * W)) v in
  let densities :=
    fast_slic_get_mask_density H W K clusters assignment mask densities0 in
  let result :=
    fast_slic_cluster_density_to_mask H W K clusters assignment densities result0 in
  forall i j, 0 <= i < H -> 0 <= j < W ->
    (0 <= rd assignment (W * i + j) < K -> rd result (W * i + j) = v) /\
    (rd assignment (W * i + j) = 65535 -> rd result (W * i + j) = 0).
Proof.
  intros HH HW Hsize HK Hlabels Hmembers Hv Hd0 Hr0 mask densities result i j Hi Hj.
  assert (Hp : 0 <= W * i + j < H * W) by nia.
  set (p := W * i + j) in *.
  pose proof (density_to_mask_values H W K clusters assignment
                HH HW Hsize HK Hlabels densities result0 Hr0 p Hp) as Hres.
  fold result in Hres. rewrite Hres.
  split.
  - intros Hl. destruct (Z.ltb_spec (rd assignment p) K); [| lia].
    destruct (mask_density_values H W K clusters assignment v
                HH HW Hsize HK Hlabels Hmembers Hv densities0 Hd0) as [_ Hdens].
    apply Hdens; [done |].
    apply count_occ_In, list_elem_of_In, list_elem_of_lookup.
    exists (Z.to_nat p). apply rd_in_range. destruct Hlabels. lia.
  - intros Hl. destruct (Z.ltb_spec (rd assignment p) K); [lia | done].
Qed.


Lemma mask_density_roundtrip_witness :
  let densities :=
    fast_slic_get_mask_density 2 2 2 mask_clusters mask_labels
      (replicate 4%nat 200) [0; 0] in
  let result :=
    fast_slic_cluster_density_to_mask 2 2 2 mask_clusters mask_labels densities
      [7; 7; 7; 7] in
  rd result 2 = 200 /\ rd result 3 = 0.
Proof.
  intros densities result.
  assert (Hl : labels_wf 2 2 2 mask_labels).
  { split; [reflexivity |]. unfold mask_labels. repeat constructor; lia. }
  assert (Hm : members_counted 2 mask_clusters mask_labels).
  { split; [reflexivity |]. intros k Hk.
    assert (Ek : k = 0 \/ k = 1) by lia. destruct Ek as [-> | ->]; reflexivity. }
  pose proof (mask_density_roundtrip 2 2 2 mask_clusters mask_labels 200
                [0; 0] [7; 7; 7; 7]
                ltac:(lia) ltac:(lia) ltac:(lia) ltac:(lia) Hl Hm
                ltac:(lia) ltac:(reflexivity) ltac:(reflexivity)) as Hrt.
  split.
  - apply (Hrt 1 0 ltac:(lia) ltac:(lia)). vm_compute. split; congruence.
  - apply (Hrt 1 1 ltac:(lia) ltac:(lia)). reflexivity.
Defined.

(** ** Arrays of arrays *)

Lemma length_set_row {A} (rows : list (list A)) k row :
  length (set_row rows k row) = length rows.
Proof. unfold set_row. destruct (0 <=? k); [apply length_insert | done]. Qed.

Lemma row_at_set_row_eq {A} (rows : list (list A)) k row :
  0 <= k < Z.of_nat (length rows) -> row_at (set_row rows k row) k = row.
Proof.
  intros Hk. unfold row_at, set_row. destruct (Z.leb_spec 0 k); [| lia].
  rewrite list_lookup_insert_eq by lia. reflexivity.
Qed.

Lemma row_at_set_row_ne {A} (rows : list (list A)) k k' row :
  k <> k' -> row_at (set_row rows k row) k' = row_at rows k'.
Proof.
  intros Hne. unfold row_at, set_row.
  destruct (Z.leb_spec 0 k), (Z.leb_spec 0 k'); try done.
  rewrite list_lookup_insert_ne by lia. reflexivity.
Qed.

Lemma row_at_Forall {A} (P : A -> Prop) (rows : list (list A)) k :
  Forall (Forall P) rows -> Forall P (row_at rows k).
Proof.
  intros Hall. unfold row_at. destruct (0 <=? k); [| constructor].
  destruct (rows !! Z.to_nat k) as [row |] eqn:E; simpl; [| constructor].
  eapply (proj1 (Forall_lookup _ _) Hall); eauto.
Qed.

Lemma set_row_Forall {A} (P : A -> Prop) (rows : list (list A)) k row :
  Forall (Forall P) rows -> Forall P row -> Forall (Forall P) (set_row rows k row).
Proof.
  intros Hall Hrow. unfold set_row. destruct (0 <=? k); [| done].
  by apply Forall_insert.
Qed.

(** ** Centroid-KNN builder *)

Lemma push_heap_Forall (P : Z * Z -> Prop) e heap :
  P e -> Forall P heap -> Forall P (push_heap e heap).
Proof.
  intros He. induction 1 as [| top rest Htop Hrest IH]; simpl.
  - by constructor.
  - destruct (pair_lt top e); repeat constructor; done.
Qed.

Lemma shrink_heap_Forall (P : Z * Z -> Prop) n heap :
  Forall P heap -> Forall P (shrink_heap n heap).
Proof.
  induction 1 as [| top rest Htop Hrest IH]; [constructor |].
  cbn [shrink_heap]. destruct (n <? _); [done | by constructor].
Qed.

Lemma length_shrink_heap n heap :
  0 <= n -> Z.of_nat (length (shrink_heap n heap)) = Z.min n (Z.of_nat (length heap)).
Proof.
  intros Hn. induction heap as [| top rest IH]; [simpl; lia |].
  cbn [shrink_heap]. destruct (Z.ltb_spec n (Z.of_nat (length (top :: rest)))).
  - rewrite IH. simpl length in *. lia.
  - lia.
Qed.

(** Every cluster filed in the grid is an index of the cluster array. *)
Lemma knn_cells_indices H W K clusters :
  Forall (Forall (fun e => 0 <= e < K)) (knn_cells H W K clusters).
Proof.
  unfold knn_cells. destruct (Z.le_gt_cases 0 K) as [HK | HK].
  - apply (for_range_ind (fun _ cells => Forall (Forall (fun e => 0 <= e < K)) cells));
      [done | |].
    + apply Forall_replicate. constructor.
    + intros i cells Hi Hcells. apply set_row_Forall; [done |].
      apply Forall_app. split; [by apply row_at_Forall |].
      repeat constructor; lia.
  - rewrite for_range_empty by lia. apply Forall_replicate. constructor.
Qed.

(** Invariant rule of the query scan: the invariant is kept by a visit of
    any index of the cluster array. *)
Lemma knn_scan_ind {St : Type} (P : St -> Prop) H W K clusters i
    (visit : Z -> St -> St) (st : St) :
  P st ->
  (forall c s, 0 <= c < K -> P s -> P (visit c s)) ->
  P (knn_scan H W K clusters i visit st).
Proof.
  intros H0 Hstep. unfold knn_scan.
  set (lo_y := my_max _ 0). set (hi_y := my_min _ _).
  set (lo_x := my_max _ 0). set (hi_x := my_min _ _).
  assert (Hrow : forall (cell : list Z) s,
    Forall (fun e => 0 <= e < K) cell -> P s ->
    P (fold_left (fun st cluster_around => visit cluster_around st) cell s)).
  { induction cell as [| c cell IH]; intros s Hc Hs; simpl; [done |].
    inversion Hc; subst. apply IH; [done |]. by apply Hstep. }
  assert (Hx : forall cy s, P s ->
    P (for_range lo_x hi_x (fun cx st =>
         fold_left (fun st cluster_around => visit cluster_around st)
           (row_at (knn_cells H W K clusters)
              (int_add (int_mul cy (ceil_int W (knn_S H W K))) cx)) st) s)).
  { intros cy s Hs. destruct (Z.le_gt_cases lo_x hi_x).
    - apply (for_range_ind (fun _ s => P s)); [done | done |].
      intros cx s' _ Hs'. apply Hrow; [| done].
      apply row_at_Forall, knn_cells_indices.
    - by rewrite for_range_empty by lia. }
  destruct (Z.le_gt_cases lo_y hi_y).
  - apply (for_range_ind (fun _ s => P s)); [done | done |].
    intros cy s _ Hs. by apply Hx.
  - by rewrite for_range_empty by lia.
Qed.

Lemma knn_visit_Forall (P : Z * Z -> Prop) clusters num_neighbors i c heap :
  (forall d, c <> i -> P (d, c)) ->
  Forall P heap -> Forall P (knn_visit clusters num_neighbors i c heap).
Proof.
  intros Hc Hheap. unfold knn_visit.
  destruct (Z.eqb_spec c i) as [-> | Hne]; [done |].
  cbv zeta. set (d := int_add _ _).
  assert (Forall P (shrink_heap num_neighbors (push_heap (d, c) heap)))
    by (apply shrink_heap_Forall, push_heap_Forall; auto).
  destruct heap as [| front rest]; [done |].
  destruct (front.1 <=? d); done.
Qed.

(** The heap of the query for cluster [i] holds indices of the cluster array
    other than [i]. *)
Lemma knn_heap_others H W K clusters num_neighbors i :
  Forall (fun e => e.2 <> i /\ 0 <= e.2 < K) (knn_heap H W K clusters num_neighbors i).
Proof.
  unfold knn_heap. apply (knn_scan_ind (Forall (fun e => e.2 <> i /\ 0 <= e.2 < K)) H W K).
  - constructor.
  - intros c heap Hc Hheap. apply knn_visit_Forall; [| done].
    intros d Hne. simpl. done.
Qed.

(** The heap never holds more than [num_neighbors] entries. *)
Lemma knn_heap_size H W K clusters num_neighbors i :
  0 <= num_neighbors ->
  Z.of_nat (length (knn_heap H W K clusters num_neighbors i)) <= num_neighbors.
Proof.
  intros Hn. unfold knn_heap.
  apply (knn_scan_ind (fun heap => Z.of_nat (length heap) <= num_neighbors) H W K);
    [simpl; lia |].
  intros c heap Hc Hheap. unfold knn_visit.
  destruct (c =? i); [done |]. cbv zeta. set (d := int_add _ _).
  assert (Z.of_nat (length (shrink_heap num_neighbors (push_heap (d, c) heap)))
          <= num_neighbors) by (rewrite length_shrink_heap by done; lia).
  destruct heap as [| front rest]; [done |].
  destruct (front.1 <=? d); done.
Qed.

(** The rows of the record the builder returns. *)
Lemma knn_connectivity_rows H W K clusters nn i :
  0 <= i < K ->
  let conn := fast_slic_knn_connectivity H W K clusters nn in
  row_at (neighbors conn) i
    = map (fun e => number (cluster_at clusters e.2))
          (knn_heap H W K clusters nn i)
  /\ rd (num_neighbors conn) i
    = Z.of_nat (length (knn_heap H W K clusters nn i)).
Proof.
  intros Hi conn. unfold conn, fast_slic_knn_connectivity.
  set (body := fun (i : Z) '(counts, lists) => _).
  set (inv := fun (n : Z) (st : list Z * list (list Z)) =>
    Z.of_nat (length st.1) = K /\ Z.of_nat (length st.2) = K /\
    forall k, 0 <= k < n ->
      row_at st.2 k = map (fun e => number (cluster_at clusters e.2))
                          (knn_heap H W K clusters nn k)
      /\ rd st.1 k = Z.of_nat (length (knn_heap H W K clusters nn k))).
  assert (Hinv : inv K (for_range 0 K body
                          (replicate (Z.to_nat K) 0, replicate (Z.to_nat K) []))).
  { apply (for_range_ind inv); [lia | |].
    - unfold inv. simpl. rewrite !length_replicate. repeat split; lia.
    - intros k [counts lists] Hk (Hc & Hl & Hrows). unfold inv, body. simpl in *.
      rewrite length_wr, length_set_row.
      split; [done |]. split; [done |]. intros k' Hk'. split.
      + destruct (Z.eq_dec k k') as [<- | Hne].
        * by rewrite row_at_set_row_eq by lia.
        * rewrite row_at_set_row_ne by done. apply Hrows. lia.
      + destruct (Z.eq_dec k k') as [<- | Hne].
        * by rewrite rd_wr_eq by lia.
        * rewrite rd_wr_ne by done. apply Hrows. lia. }
  destruct (for_range 0 K body _) as [counts lists]. simpl.
  destruct Hinv as (_ & _ & Hrows). apply Hrows, Hi.
Qed.

Lemma cluster_at_lookup (clusters : list Cluster) i :
  0 <= i < Z.of_nat (length clusters) ->
  clusters !! Z.to_nat i = Some (cluster_at clusters i).
Proof.
  intros Hi. unfold cluster_at. destruct (Z.leb_spec 0 i); [| lia].
  destruct (lookup_lt_is_Some_2 clusters (Z.to_nat i)) as [c Hc]; [lia |].
  by rewrite Hc.
Qed.

Lemma cluster_number_inj (clusters : list Cluster) i j :
  NoDup (map number clusters) ->
  0 <= i < Z.of_nat (length clusters) ->
  0 <= j < Z.of_nat (length clusters) ->
  number (cluster_at clusters i) = number (cluster_at clusters j) ->
  i = j.
Proof.
  intros Hnd Hi Hj Heq.
  change (map number clusters) with (number <$> clusters) in Hnd.
  assert (Z.to_nat i = Z.to_nat j); [| lia].
  eapply (NoDup_lookup _ _ _ _ Hnd); rewrite list_lookup_fmap.
  - rewrite (cluster_at_lookup clusters i Hi). reflexivity.
  - rewrite (cluster_at_lookup clusters j Hj). simpl. by rewrite Heq.
Qed.

(** C10: when the clusters carry pairwise distinct numbers, the neighbor list
    the centroid-KNN builder returns for cluster [i] does not hold the number
    of cluster [i], wherever the centroids lie. *)
Theorem knn_excludes_self H W K clusters num_neighbors i :
  Z.of_nat (length clusters) = K ->
  NoDup (map number clusters) ->
  0 <= i < K ->
  ~ In (number (cluster_at clusters i))
       (row_at (neighbors (fast_slic_knn_connectivity H W K clusters num_neighbors)) i).
Proof.
  intros Hlen Hnd Hi Hin.
  destruct (knn_connectivity_rows H W K clusters num_neighbors i Hi) as [Hrow _].
  rewrite Hrow in Hin. apply in_map_iff in Hin as (e & Hnum & He).
  pose proof (knn_heap_others H W K clusters num_neighbors i) as Hall.
  rewrite Forall_forall in Hall. apply list_elem_of_In in He.
  destruct (Hall e He) as [Hne Hrange].
  apply Hne. apply (cluster_number_inj clusters); [done | lia | lia | done].
Qed.


Lemma knn_excludes_self_witness :
  row_at (neighbors (fast_slic_knn_connectivity 2 6 3 stacked_clusters 2)) 0 = [1]
  /\ ~ In 0 (row_at (neighbors (fast_slic_knn_connectivity 2 6 3 stacked_clusters 2)) 0).
Proof.
  split; [reflexivity |].
  apply (knn_excludes_self 2 6 3 stacked_clusters 2 0).
  - reflexivity.
  - unfold stacked_clusters. simpl. apply NoDup_ListNoDup.
    repeat constructor; simpl; lia.
  - lia.
Defined.

(** C5, on nine centroids on a regular 3x3 grid: with [num_neighbors = 4] and
    [K = 9] every cluster should get 4 neighbors; the builder returns
    1 for the corner cluster 0 and 3 for the corner cluster 2.  The scan
    skips every candidate that is not strictly nearer than the front of the
    heap, also while the heap holds fewer than [num_neighbors] entries. *)
Theorem knn_grid_3x3_short_lists :
  let conn := fast_slic_knn_connectivity 30 30 9 grid_3x3 4 in
  knn_S 30 30 9 = 10 /\
  Z.min 4 (9 - 1) = 4 /\
  num_neighbors conn = [1; 1; 3; 1; 4; 4; 3; 4; 4] /\
  row_at (neighbors conn) 0 = [1] /\
  length (row_at (neighbors conn) 2) = 3%nat.
Proof. vm_compute. repeat split; reflexivity. Qed.

(** C6, on two clusters three cells apart: the cell of cluster 1 is
    within 3 cells of the cell of cluster 0, and the query for cluster 1
    looks at cluster 0, but the query for cluster 0 stops one cell short and
    never looks at cluster 1: the loops run over the cells from 3 before the
    query's cell to 2 after it. *)
Theorem knn_window_stops_short :
  knn_S 1 4 2 = 1 /\
  in_block7 1 (cluster_at row_ends 0) (cluster_at row_ends 1) = true /\
  knn_scanned 1 4 2 row_ends 1 = [0; 1] /\
  knn_scanned 1 4 2 row_ends 0 = [0] /\
  neighbors (fast_slic_knn_connectivity 1 4 2 row_ends 1) = [[]; [0]].
Proof. vm_compute. repeat split; reflexivity. Qed.

(** ** Pixel-adjacency builder *)

Lemma neighbor_list_commit conn source n k :
  neighbor_list (commit conn source n) k
  = take (Z.to_nat (rd (wr (num_neighbors conn) source n) k)) (row_at (neighbors conn) k).
Proof. reflexivity. Qed.

Lemma commit_same conn source :
  commit conn source (rd (num_neighbors conn) source) = conn.
Proof.
  destruct conn as [nodes counts lists]. unfold commit. simpl. f_equal.
  unfold wr, rd. destruct (0 <=? source); [| done].
  destruct (counts !! Z.to_nat source) as [n |] eqn:E; simpl.
  - by apply list_insert_id.
  - apply list_insert_ge. by apply lookup_ge_None.
Qed.

Lemma existsb_eqb_In (v : Z) (l : list Z) :
  existsb (Z.eqb v) l = true <-> In v l.
Proof.
  rewrite existsb_exists. split.
  - intros (w & Hw & E). apply Z.eqb_eq in E. by subst.
  - intros Hin. exists v. split; [done | apply Z.eqb_refl].
Qed.

(** One slot appended to a neighbor array. *)
Lemma take_wr_snoc (row : list Z) n v :
  0 <= n < Z.of_nat (length row) ->
  take (Z.to_nat (n + 1)) (wr row n v) = take (Z.to_nat n) row ++ [v].
Proof.
  intros Hn. unfold wr. destruct (Z.leb_spec 0 n); [| lia].
  replace (Z.to_nat (n + 1)) with (S (Z.to_nat n)) by lia.
  rewrite (take_S_r _ _ v) by (apply list_lookup_insert_eq; lia).
  rewrite take_insert_ge by lia. reflexivity.
Qed.

Section connectivity_step.
Variables (K : Z) (assignment : list Z).
Hypothesis HK : 0 < K < 4294967296.

(** What one expansion of the macro does to the record as seen through the
    local count: nothing, or one entry appended to each of the two lists. *)
Lemma CONNECTIVITY_SEARCH_cases source target_index conn hashtable n :
  conn_shape K (commit conn source n) ->
  0 <= source < K ->
  0 <= rd assignment target_index ->
  let target := rd assignment target_index in
  let v := commit conn source n in
  match CONNECTIVITY_SEARCH K assignment source target_index (conn, hashtable, n) with
  | (conn', hashtable', n') =>
      let v' := commit conn' source n' in
      conn_shape K v' /\
      ((v' = v /\
        (K <= target \/ target = source
         \/ 12 <= rd (num_neighbors v) source \/ 12 <= rd (num_neighbors v) target
         \/ In target (neighbor_list v source)
         \/ In source (neighbor_list v target)))
       \/
       (target < K /\ target <> source /\
        rd (num_neighbors v) source < 12 /\ rd (num_neighbors v) target < 12 /\
        (forall k, 0 <= k < K ->
           neighbor_list v' k
           = neighbor_list v k
             ++ (if k =? source then [target] else if k =? target then [source] else [])) /\
        (forall k, 0 <= k < K ->
           rd (num_neighbors v') k
           = rd (num_neighbors v) k
             + (if k =? source then 1 else if k =? target then 1 else 0))))
  end.
Proof using HK.
  intros Hshape Hsrc Htgt0 target v.
  destruct Hshape as (Hlc & Hll & Hrows & Hcounts). simpl in Hlc, Hll, Hrows, Hcounts.
  rewrite length_wr in Hlc.
  assert (Hn : 0 <= n <= 12).
  { rewrite <- (rd_wr_eq (num_neighbors conn) source n) by lia. by apply Hcounts. }
  assert (Hshape : conn_shape K v).
  { repeat split; simpl; rewrite ?length_wr; try done; by apply Hcounts. }
  unfold CONNECTIVITY_SEARCH. fold target.
  rewrite to_uint32_small by lia.
  destruct (Z.leb_spec K target) as [Hge | Hlt]; cbn [orb].
  { split; [done |]. left. split; [done | tauto]. }
  destruct (Z.eqb_spec source target) as [Heq | Hne]; cbn [orb].
  { split; [done |]. left. split; [done |]. right; left. done. }
  assert (Hvs : rd (num_neighbors v) source = n) by (apply rd_wr_eq; lia).
  assert (Hvt : rd (num_neighbors v) target = rd (num_neighbors conn) target)
    by (apply rd_wr_ne; done).
  unfold max_conn.
  destruct (Z.leb_spec 12 n) as [Hfull | Hroom]; cbn [orb].
  { split; [done |]. left. split; [done |]. lia. }
  destruct (Z.leb_spec 12 (rd (num_neighbors conn) target)) as [Hfull | Hroomt]; cbn [orb].
  { split; [done |]. left. split; [done |]. lia. }
  set (hash_idx := Z.rem _ _). set (bit := to_uint32 _).
  set (hit := negb _).
  assert (Hnls : neighbor_list v source
                 = take (Z.to_nat n) (row_at (neighbors conn) source)).
  { unfold v. rewrite neighbor_list_commit. by rewrite rd_wr_eq by lia. }
  assert (Hnlt : neighbor_list v target
                 = take (Z.to_nat (rd (num_neighbors conn) target))
                        (row_at (neighbors conn) target)).
  { unfold v. rewrite neighbor_list_commit. by rewrite rd_wr_ne by done. }
  destruct (hit && existsb _ _) eqn:E1.
  { apply andb_true_iff in E1 as [_ E1]. apply existsb_eqb_In in E1.
    split; [done |]. left. split; [done |]. rewrite Hnls. tauto. }
  destruct (hit && existsb (Z.eqb source) _) eqn:E2.
  { apply andb_true_iff in E2 as [_ E2]. apply existsb_eqb_In in E2.
    split; [done |]. left. split; [done |]. rewrite Hnlt. tauto. }
  clear E1 E2.
  set (nt := rd (num_neighbors conn) target) in *.
  assert (Hnt : 0 <= nt <= 12).
  { unfold nt. rewrite <- (rd_wr_ne (num_neighbors conn) source target n) by done.
    apply Hcounts. lia. }
  unfold int_add. rewrite !to_int32_small by lia.
  rewrite (row_at_set_row_ne _ target source) by done.
  set (rs := row_at (neighbors conn) source) in *.
  set (rt := row_at (neighbors conn) target) in *.
  assert (Hrs : length rs = 12%nat) by (apply Hrows; lia).
  assert (Hrt : length rt = 12%nat) by (apply Hrows; lia).
  assert (Hcnt : forall k, 0 <= k < K ->
    rd (wr (wr (num_neighbors conn) target (nt + 1)) source (n + 1)) k
    = rd (wr (num_neighbors conn) source n) k
      + (if k =? source then 1 else if k =? target then 1 else 0)).
  { intros k Hk. destruct (Z.eqb_spec k source) as [-> | Hks].
    - rewrite !rd_wr_eq by (rewrite ?length_wr; lia). lia.
    - rewrite !(rd_wr_ne _ source k) by done.
      destruct (Z.eqb_spec k target) as [-> | Hkt].
      + rewrite rd_wr_eq by lia. fold nt. lia.
      + rewrite rd_wr_ne by done. lia. }
  assert (Hrow : forall k, 0 <= k < K ->
    row_at (set_row (set_row (neighbors conn) target (wr rt nt source))
              source (wr rs n target)) k
    = if k =? source then wr rs n target
      else if k =? target then wr rt nt source
      else row_at (neighbors conn) k).
  { intros k Hk. destruct (Z.eqb_spec k source) as [-> | Hks].
    - rewrite row_at_set_row_eq by (rewrite length_set_row; lia). done.
    - rewrite (row_at_set_row_ne _ source k) by done.
      destruct (Z.eqb_spec k target) as [-> | Hkt].
      + by rewrite row_at_set_row_eq by lia.
      + by rewrite row_at_set_row_ne by done. }
  split.
  { repeat split; simpl; rewrite ?length_wr, ?length_set_row; try done.
    - intros k Hk. rewrite Hrow by done.
      destruct (k =? source); [by rewrite length_wr |].
      destruct (k =? target); [by rewrite length_wr | by apply Hrows].
    - rewrite Hcnt by done. pose proof (Hcounts k ltac:(done)) as Hck.
      destruct (Z.eqb_spec k source) as [-> | Hks];
        [rewrite rd_wr_eq in * by lia; lia |].
      destruct (Z.eqb_spec k target) as [-> | Hkt]; lia.
    - rewrite Hcnt by done. pose proof (Hcounts k ltac:(done)) as Hck.
      destruct (Z.eqb_spec k source) as [-> | Hks];
        [rewrite rd_wr_eq in * by lia; lia |].
      destruct (Z.eqb_spec k target) as [-> | Hkt]; [| lia].
      rewrite rd_wr_ne in * by done. fold nt in Hck. lia. }
  right. repeat split; try lia.
  - intros k Hk. unfold neighbor_list at 1. cbn [commit num_neighbors neighbors].
    rewrite Hcnt, Hrow by done. unfold v. rewrite neighbor_list_commit.
    destruct (Z.eqb_spec k source) as [-> | Hks].
    + rewrite rd_wr_eq by lia. apply take_wr_snoc. fold rs. lia.
    + rewrite rd_wr_ne by done.
      destruct (Z.eqb_spec k target) as [-> | Hkt].
      * apply take_wr_snoc. fold nt rt. lia.
      * by rewrite Z.add_0_r, app_nil_r.
  - intros k Hk. unfold v. cbn [commit num_neighbors]. by apply Hcnt.
Qed.
End connectivity_step.

Lemma conn_extends_refl K conn : conn_extends K conn conn.
Proof. intros k Hk. split; [lia | done]. Qed.

Lemma conn_extends_trans K c1 c2 c3 :
  conn_extends K c1 c2 -> conn_extends K c2 c3 -> conn_extends K c1 c3.
Proof.
  intros H12 H23 k Hk. destruct (H12 k Hk) as [Hc Hl], (H23 k Hk) as [Hc' Hl'].
  split; [lia | auto].
Qed.

Lemma settled_extends K conn conn' a c :
  conn_extends K conn conn' -> 0 <= a < K -> 0 <= c < K ->
  settled conn a c -> settled conn' a c.
Proof.
  intros Hext Ha Hc [Hin | [Hfull | Hfull]].
  - left. by apply (Hext a Ha).
  - right; left. pose proof (proj1 (Hext a Ha)). lia.
  - right; right. pose proof (proj1 (Hext c Hc)). lia.
Qed.

Section connectivity_scan.
Variables (K : Z) (assignment : list Z) (E : Z -> Z -> Prop).
Hypothesis HK : 0 < K < 4294967296.
Hypothesis Hwords : Forall (fun l => 0 <= l) assignment.

Lemma rd_assignment_nonneg p : 0 <= rd assignment p.
Proof using Hwords.
  unfold rd. destruct (0 <=? p); [| lia].
  destruct (assignment !! Z.to_nat p) as [l |] eqn:El; simpl; [| lia].
  eapply (proj1 (Forall_lookup _ _) Hwords); eauto.
Qed.

(** One expansion of the macro keeps the invariant, only grows the record,
    and settles the pair it looks at. *)
Lemma CONNECTIVITY_SEARCH_step source target_index conn hashtable n :
  conn_good K E (commit conn source n) ->
  0 <= source < K ->
  (rd assignment target_index < K -> rd assignment target_index <> source ->
   E source (rd assignment target_index)) ->
  match CONNECTIVITY_SEARCH K assignment source target_index (conn, hashtable, n) with
  | (conn', hashtable', n') =>
      conn_good K E (commit conn' source n') /\
      conn_extends K (commit conn source n) (commit conn' source n') /\
      (rd assignment target_index < K -> rd assignment target_index <> source ->
       settled (commit conn' source n') source (rd assignment target_index))
  end.
Proof using HK Hwords.
  intros [Hshape Hgood] Hsrc HE.
  pose proof (rd_assignment_nonneg target_index) as Htgt0.
  pose proof (CONNECTIVITY_SEARCH_cases K assignment HK source target_index
                conn hashtable n Hshape Hsrc Htgt0) as Hcases.
  cbv zeta in Hcases.
  destruct (CONNECTIVITY_SEARCH K assignment source target_index (conn, hashtable, n))
    as [[conn' hashtable'] n'].
  set (target := rd assignment target_index) in *.
  set (v := commit conn source n) in *. set (v' := commit conn' source n') in *.
  destruct Hcases as [Hshape' [[Heq Hwhy] | (Hlt & Hne & Hrs & Hrt & Hnl & Hcnt)]].
  - rewrite Heq. split; [done |]. split; [apply conn_extends_refl |].
    intros Hlt Hne. destruct Hwhy as [? | [? | [? | [? | [? | Hin]]]]];
      try lia; unfold settled; try tauto.
    left. apply (Hgood target source); [lia | done].
  - assert (Hin' : forall k c, 0 <= k < K ->
      In c (neighbor_list v' k) <->
      In c (neighbor_list v k)
      \/ (k = source /\ c = target) \/ (k = target /\ c = source)).
    { intros k c Hk. rewrite Hnl by done. rewrite in_app_iff.
      destruct (Z.eqb_spec k source) as [-> | Hks]; simpl; [intuition lia |].
      destruct (Z.eqb_spec k target) as [-> | Hkt]; simpl; intuition lia. }
    split; [split; [done |] | split].
    + intros a c Ha Hc. apply Hin' in Hc; [| done].
      destruct Hc as [Hold | [[-> ->] | [-> ->]]].
      * destruct (Hgood a c Ha Hold) as (Hc & Hac & Hsym & HEac).
        repeat split; try done; try lia. rewrite Hin' by done. by left.
      * repeat split; try lia; [| left; by apply HE].
        rewrite Hin' by lia. right; right; done.
      * repeat split; try lia; [| right; by apply HE].
        rewrite Hin' by lia. right; left; done.
    + intros k Hk. split; [rewrite Hcnt by done; repeat case_match; lia |].
      intros c Hc. rewrite Hin' by done. by left.
    + intros _ _. left. rewrite Hin' by done. right; left; done.
Qed.

(** The body of the scan at one pixel, from a pixel labelled with a
    cluster. *)
Lemma connectivity_pixel_step W i j conn hashtable :
  conn_good K E conn ->
  let base_index := int_add (int_mul W i) j in
  let source := rd assignment base_index in
  let targets := [int_add base_index 1; int_add base_index W;
                  int_add (int_add base_index W) 1] in
  (forall ti, In ti targets -> source < K -> rd assignment ti < K ->
     rd assignment ti <> source -> E source (rd assignment ti)) ->
  match connectivity_pixel W K assignment i j (conn, hashtable) with
  | (conn', hashtable') =>
      conn_good K E conn' /\ conn_extends K conn conn' /\
      (forall ti, In ti targets -> source < K -> rd assignment ti < K ->
         rd assignment ti <> source -> settled conn' source (rd assignment ti))
  end.
Proof using HK Hwords.
  intros Hgood base_index source targets HE.
  unfold connectivity_pixel. fold base_index. fold source.
  rewrite to_uint32_small by lia.
  destruct (Z.leb_spec K source) as [Hge | Hlt].
  { split; [done |]. split; [apply conn_extends_refl |]. intros; lia. }
  assert (Hsrc : 0 <= source < K)
    by (pose proof (rd_assignment_nonneg base_index); unfold source; lia).
  set (t3 := int_add (int_add base_index W) 1) in *.
  set (t1 := int_add base_index 1) in *. set (t2 := int_add base_index W) in *.
  rewrite <- (commit_same conn source) in Hgood.
  pose proof (CONNECTIVITY_SEARCH_step source t1 conn hashtable _ Hgood Hsrc
                ltac:(intros; apply HE; [simpl; tauto | lia | done | done])) as H1.
  destruct (CONNECTIVITY_SEARCH K assignment source t1 _) as [[c1 h1] n1].
  destruct H1 as (Hg1 & He1 & Hs1).
  pose proof (CONNECTIVITY_SEARCH_step source t2 c1 h1 n1 Hg1 Hsrc
                ltac:(intros; apply HE; [simpl; tauto | lia | done | done])) as H2.
  destruct (CONNECTIVITY_SEARCH K assignment source t2 _) as [[c2 h2] n2].
  destruct H2 as (Hg2 & He2 & Hs2).
  pose proof (CONNECTIVITY_SEARCH_step source t3 c2 h2 n2 Hg2 Hsrc
                ltac:(intros; apply HE; [simpl; tauto | lia | done | done])) as H3.
  destruct (CONNECTIVITY_SEARCH K assignment source t3 _) as [[c3 h3] n3].
  destruct H3 as (Hg3 & He3 & Hs3).
  rewrite commit_same in He1. cbv beta iota zeta.
  change (mkConnectivity (num_nodes c3) (wr (num_neighbors c3) source n3) (neighbors c3))
    with (commit c3 source n3).
  split; [done |]. split.
  { eapply conn_extends_trans; [exact He1 |].
    eapply conn_extends_trans; [exact He2 | exact He3]. }
  intros ti Hti _ Htlt Htne.
  assert (Ht0 : 0 <= rd assignment ti) by apply rd_assignment_nonneg.
  destruct Hti as [<- | [<- | [<- | []]]].
  - eapply settled_extends; [exact He3 | done | lia |].
    eapply settled_extends; [exact He2 | done | lia |]. by apply Hs1.
  - eapply settled_extends; [exact He3 | done | lia |]. by apply Hs2.
  - by apply Hs3.
Qed.
End connectivity_scan.

Lemma for_range_inv {St : Type} (P : St -> Prop) lo hi (body : Z -> St -> St) st :
  P st ->
  (forall k s, lo <= k < hi -> P s -> P (body k s)) ->
  P (for_range lo hi body st).
Proof.
  intros H0 Hstep. destruct (Z.le_gt_cases lo hi).
  - apply (for_range_ind (fun _ s => P s)); done.
  - by rewrite for_range_empty by lia.
Qed.

Lemma row_at_replicate {A} n (row : list A) k :
  0 <= k < Z.of_nat n -> row_at (replicate n row) k = row.
Proof.
  intros Hk. unfold row_at. destruct (Z.leb_spec 0 k); [| lia].
  rewrite lookup_replicate_2 by lia. reflexivity.
Qed.

Section connectivity_run.
Variables (H W K : Z) (assignment : list Z).
Hypothesis HK : 0 < K < 4294967296.
Hypothesis Hwords : Forall (fun l => 0 <= l) assignment.

Let conn0 : Connectivity :=
  mkConnectivity K (replicate (Z.to_nat K) 0)
    (replicate (Z.to_nat K) (replicate (Z.to_nat max_conn) 0)).

Lemma conn0_good E : conn_good K E conn0.
Proof using HK.
  split.
  - repeat split; simpl; rewrite ?length_replicate; try lia.
    + intros k Hk. rewrite row_at_replicate by lia. reflexivity.
    + rewrite rd_replicate by lia. lia.
    + rewrite rd_replicate by lia. lia.
  - intros a c Ha Hin. unfold neighbor_list, conn0 in Hin. simpl in Hin.
    rewrite rd_replicate in Hin by lia. simpl in Hin. done.
Qed.

(** The record the builder returns keeps the invariant of the scan. *)
Lemma get_connectivity_good :
  conn_good K (fun _ _ => True) (fast_slic_get_connectivity H W K assignment).
Proof using HK Hwords.
  unfold fast_slic_get_connectivity. fold conn0.
  set (P := fun st : Connectivity * list Z => conn_good K (fun _ _ => True) st.1).
  apply (for_range_inv P); [apply conn0_good |].
  intros i st _ Hst. apply (for_range_inv P); [done |].
  intros j [conn hashtable] _ Hgood. unfold P in *. simpl in Hgood.
  pose proof (connectivity_pixel_step K assignment (fun _ _ => True) HK Hwords
                W i j conn hashtable Hgood ltac:(done)) as Hstep.
  destruct (connectivity_pixel W K assignment i j (conn, hashtable)) as [conn' h'].
  apply Hstep.
Qed.

Hypothesis HH : 0 < H.
Hypothesis HW : 0 < W.
Hypothesis Hsize : H * W < 2147483648.

(** The pairs the scan has looked at after [n] of its pixels. *)
Let looked_at (n : Z) (a c : Z) : Prop :=
  exists i j di dj,
    forward_offset di dj /\
    0 <= i /\ 0 <= j < W - 1 /\ (W - 1) * i + j < n /\
    rd assignment (W * i + j) = a /\
    rd assignment (W * (i + di) + (j + dj)) = c.

Lemma get_connectivity_scanned :
  let conn := fast_slic_get_connectivity H W K assignment in
  conn_good K (scanned_pair H W assignment) conn /\
  forall a c, scanned_pair H W assignment a c ->
    0 <= a < K -> 0 <= c < K -> a <> c -> settled conn a c.
Proof using HK Hwords HH HW Hsize.
  intros conn. unfold conn, fast_slic_get_connectivity. fold conn0.
  set (E := scanned_pair H W assignment).
  set (P := fun (n : Z) (st : Connectivity * list Z) =>
    conn_good K E st.1 /\
    forall a c, looked_at n a c ->
      0 <= a < K -> 0 <= c < K -> a <> c -> settled st.1 a c).
  assert (Hend : P ((H - 1) * (W - 1))
    (for_range 0 (H - 1) (fun i =>
       for_range 0 (W - 1) (fun j => connectivity_pixel W K assignment i j))
       (conn0, replicate (Z.to_nat K) 0))).
  { apply (for_pixels_ind P); [lia | lia | |].
    - split; [apply conn0_good |].
      intros a c (i & j & di & dj & _ & Hi & Hj & Hn & _). nia.
    - intros i j [c0 h0] Hi Hj [Hgood Hdone]. simpl in Hgood, Hdone.
      destruct (pixel_index H W i j ltac:(lia) ltac:(lia) Hsize) as [Eb Hb].
      assert (Et1 : int_add (W * i + j) 1 = W * (i + 0) + (j + 1)).
      { unfold int_add. rewrite to_int32_small by nia. lia. }
      assert (Et2 : int_add (W * i + j) W = W * (i + 1) + (j + 0)).
      { unfold int_add. rewrite to_int32_small by nia. lia. }
      assert (Et3 : int_add (int_add (W * i + j) W) 1 = W * (i + 1) + (j + 1)).
      { rewrite Et2. unfold int_add. rewrite to_int32_small by nia. lia. }
      assert (Hoff : forall ti,
        In ti [int_add (W * i + j) 1; int_add (W * i + j) W;
               int_add (int_add (W * i + j) W) 1] ->
        exists di dj, forward_offset di dj /\ ti = W * (i + di) + (j + dj)).
      { intros ti [<- | [<- | [<- | []]]].
        - exists 0, 1. split; [left; done | done].
        - exists 1, 0. split; [right; left; done | done].
        - exists 1, 1. split; [right; right; done | done]. }
      pose proof (connectivity_pixel_step K assignment E HK Hwords
                    W i j c0 h0 Hgood) as Hstep.
      cbv zeta in Hstep. rewrite Eb in Hstep.
      assert (HE : forall ti,
        In ti [int_add (W * i + j) 1; int_add (W * i + j) W;
               int_add (int_add (W * i + j) W) 1] ->
        rd assignment (W * i + j) < K -> rd assignment ti < K ->
        rd assignment ti <> rd assignment (W * i + j) ->
        E (rd assignment (W * i + j)) (rd assignment ti)).
      { intros ti Hti _ _ _. destruct (Hoff ti Hti) as (di & dj & Hd & ->).
        exists i, j, di, dj. repeat split; try done; lia. }
      specialize (Hstep HE).
      destruct (connectivity_pixel W K assignment i j (c0, h0)) as [c1 h1].
      destruct Hstep as (Hgood1 & Hext & Hnew).
      split; [done |]. simpl.
      intros a c (i' & j' & di & dj & Hd & Hi' & Hj' & Hn & Ha & Hc) Har Hcr Hne.
      destruct (Z.lt_ge_cases ((W - 1) * i' + j') ((W - 1) * i + j)) as [Hold | Hnow].
      + eapply settled_extends; [exact Hext | done | done |].
        apply Hdone; [| done | done | done].
        exists i', j', di, dj. repeat split; try done; lia.
      + assert (Ei : i' = i).
        { destruct (Z.lt_trichotomy i' i) as [Hlt | [Heq | Hgt]]; [| done |].
          - assert ((W - 1) * (i' + 1) <= (W - 1) * i) by (apply Z.mul_le_mono_nonneg_l; lia).
            lia.
          - assert ((W - 1) * (i + 1) <= (W - 1) * i') by (apply Z.mul_le_mono_nonneg_l; lia).
            lia. }
        subst i'. assert (j' = j) by lia. subst j'.
        subst a c. apply Hnew; [| lia | lia | lia].
        destruct Hd as [[-> ->] | [[-> ->] | [-> ->]]].
        * rewrite <- Et1. simpl. tauto.
        * rewrite <- Et2. simpl. tauto.
        * rewrite <- Et3. simpl. tauto. }
  destruct Hend as [Hgood Hdone]. split; [exact Hgood |].
  intros a c (i & j & di & dj & Hd & Hi & Hj & Ha & Hc). apply Hdone.
  exists i, j, di, dj. repeat split; try done; try lia. nia.
Qed.
End connectivity_run.

(** Outside the cluster array the record holds no list. *)
Lemma neighbor_list_outside K conn k :
  conn_shape K conn -> ~ 0 <= k < K -> neighbor_list conn k = [].
Proof.
  intros (Hlc & _) Hk. unfold neighbor_list, rd.
  destruct (Z.leb_spec 0 k); [| done].
  rewrite lookup_ge_None_2 by lia. reflexivity.
Qed.

(** An array of [uint32_t]. *)
Lemma words_nonneg (assignment : list Z) :
  Forall (fun l => 0 <= l < 4294967296) assignment ->
  Forall (fun l => 0 <= l) assignment.
Proof.
  intros Hw. eapply Forall_impl; [exact Hw |]. intros l Hl. simpl in Hl. lia.
Qed.

(** C8: in the record [fast_slic_get_connectivity] returns, a cluster
    recorded among the neighbors of another has that one among its own
    neighbors: the two entries of a pair are written together or not at all,
    so the lists are symmetric whether or not they reached the cap. *)
Theorem get_connectivity_symmetric H W K assignment a c :
  0 < K <= 65535 ->
  Forall (fun l => 0 <= l < 4294967296) assignment ->
  let conn := fast_slic_get_connectivity H W K assignment in
  In c (neighbor_list conn a) -> In a (neighbor_list conn c).
Proof.
  intros HK Hwords conn Hin.
  destruct (get_connectivity_good H W K assignment ltac:(lia) (words_nonneg _ Hwords))
    as [Hshape Hgood]. fold conn in Hshape, Hgood.
  destruct (Z.le_gt_cases 0 a) as [Ha0 | Ha0], (Z.lt_ge_cases a K) as [HaK | HaK];
    try (rewrite (neighbor_list_outside K conn a Hshape) in Hin by lia; done).
  by apply (Hgood a c).
Qed.

(** C9: every neighbor list of the record [fast_slic_get_connectivity]
    returns holds at most 12 entries, and an expansion of the search macro
    that finds 12 neighbors at either end of its pair leaves the record, the
    hash table and the local count as they were. *)
Theorem get_connectivity_capped H W K assignment :
  0 < K <= 65535 ->
  Forall (fun l => 0 <= l < 4294967296) assignment ->
  let conn := fast_slic_get_connectivity H W K assignment in
  (forall k, 0 <= rd (num_neighbors conn) k <= 12 /\
             (length (neighbor_list conn k) <= 12)%nat) /\
  (forall source target_index c hashtable n,
     12 <= n \/ 12 <= rd (num_neighbors c) (rd assignment target_index) ->
     CONNECTIVITY_SEARCH K assignment source target_index (c, hashtable, n)
     = (c, hashtable, n)).
Proof.
  intros HK Hwords conn. split.
  - intros k.
    destruct (get_connectivity_good H W K assignment ltac:(lia) (words_nonneg _ Hwords))
      as [Hshape _]. fold conn in Hshape.
    assert (Hk : 0 <= rd (num_neighbors conn) k <= 12).
    { destruct (Z.le_gt_cases 0 k) as [Hk0 | Hk0], (Z.lt_ge_cases k K) as [HkK | HkK];
        try (by apply Hshape).
      - unfold rd. destruct (0 <=? k); [| lia].
        destruct Hshape as (Hlc & _). rewrite lookup_ge_None_2 by lia. simpl. lia.
      - unfold rd. destruct (Z.leb_spec 0 k); lia.
      - unfold rd. destruct (Z.leb_spec 0 k); lia. }
    split; [done |]. unfold neighbor_list. rewrite length_take. lia.
  - intros source target_index c hashtable n Hfull. unfold CONNECTIVITY_SEARCH.
    destruct (_ || _); [done |]. unfold max_conn.
    destruct Hfull as [Hfull | Hfull].
    + destruct (Z.leb_spec 12 n); [done | lia].
    + destruct (Z.leb_spec 12 (rd (num_neighbors c) (rd assignment target_index)));
        [by rewrite orb_true_r | lia].
Qed.

Lemma scanned_pair_forward H W assignment a c :
  scanned_pair H W assignment a c -> forward_pair H W assignment a c.
Proof.
  intros (i & j & di & dj & Hd & Hi & Hj & Ha & Hc).
  exists i, j, di, dj. repeat split; try done; try lia;
    destruct Hd as [[-> ->] | [[-> ->] | [-> ->]]]; lia.
Qed.

(** C4 (as the code has it): for distinct clusters [a] and [c] that both end
    with fewer than 12 recorded neighbors, [c] is recorded for [a] as soon as
    some pixel outside the last row and the last column carries one of the
    two labels and has the other label immediately to its right, below it or
    diagonally below-right of it; and when [c] is recorded for [a], some
    pixel carries one of the two labels and has the other at one of these
    three places.  No list holds the sentinel and the sentinel has no list. *)
Theorem get_connectivity_adjacency H W K assignment a c :
  0 < H -> 0 < W -> H * W < 2147483648 ->
  0 < K <= 65535 ->
  labels_wf H W K assignment ->
  let conn := fast_slic_get_connectivity H W K assignment in
  0 <= a < K -> 0 <= c < K -> a <> c ->
  rd (num_neighbors conn) a < 12 -> rd (num_neighbors conn) c < 12 ->
  (scanned_pair H W assignment a c \/ scanned_pair H W assignment c a ->
   In c (neighbor_list conn a)) /\
  (In c (neighbor_list conn a) ->
   forward_pair H W assignment a c \/ forward_pair H W assignment c a) /\
  ~ In 65535 (neighbor_list conn a) /\
  neighbor_list conn 65535 = [].
Proof.
  intros HH HW Hsize HK [Hlen Hlabels] conn Ha Hc Hne Hra Hrc.
  assert (Hwords : Forall (fun l => 0 <= l) assignment).
  { eapply Forall_impl; [exact Hlabels |]. intros l Hl. simpl in Hl. lia. }
  destruct (get_connectivity_scanned H W K assignment ltac:(lia) Hwords HH HW Hsize)
    as [[Hshape Hgood] Hsettled].
  fold conn in Hshape, Hgood, Hsettled.
  repeat split.
  - intros [Hac | Hca].
    + destruct (Hsettled a c Hac Ha Hc Hne) as [Hin | [Hfull | Hfull]]; [done | lia | lia].
    + destruct (Hsettled c a Hca Hc Ha ltac:(lia)) as [Hin | [Hfull | Hfull]];
        [| lia | lia].
      by apply (Hgood c a).
  - intros Hin. destruct (Hgood a c Ha Hin) as (_ & _ & _ & [Hp | Hp]);
      [left | right]; by apply scanned_pair_forward.
  - intros Hin. destruct (Hgood a 65535 Ha Hin) as (Hr & _). lia.
  - apply (neighbor_list_outside K conn 65535 Hshape). lia.
Qed.

Lemma get_connectivity_symmetric_witness :
  In 12 (neighbor_list (fast_slic_get_connectivity 2 15 15 stripe_2x15) 0)
  /\ In 0 (neighbor_list (fast_slic_get_connectivity 2 15 15 stripe_2x15) 12).
Proof.
  assert (Hin : In 12 (neighbor_list (fast_slic_get_connectivity 2 15 15 stripe_2x15) 0))
    by (vm_compute; tauto).
  split; [exact Hin |].
  apply (get_connectivity_symmetric 2 15 15 stripe_2x15 0 12); [lia | | exact Hin].
  unfold stripe_2x15. repeat constructor; lia.
Defined.

Lemma get_connectivity_capped_witness :
  let conn := fast_slic_get_connectivity 2 15 15 stripe_2x15 in
  rd (num_neighbors conn) 0 = 12
  /\ (length (neighbor_list conn 0) <= 12)%nat
  /\ CONNECTIVITY_SEARCH 15 stripe_2x15 13 27 (conn, [], 2) = (conn, [], 2).
Proof.
  intros conn.
  assert (Hw : Forall (fun l => 0 <= l < 4294967296) stripe_2x15)
    by (unfold stripe_2x15; repeat constructor; lia).
  destruct (get_connectivity_capped 2 15 15 stripe_2x15 ltac:(lia) Hw) as [Hcap Hdrop].
  split; [reflexivity |]. split; [apply Hcap |].
  apply Hdrop. right. vm_compute. congruence.
Defined.

Lemma get_connectivity_adjacency_witness :
  In 1 (neighbor_list (fast_slic_get_connectivity 4 4 4 tiles_4x4) 0).
Proof.
  assert (Hl : labels_wf 4 4 4 tiles_4x4).
  { split; [reflexivity |]. unfold tiles_4x4. repeat constructor; lia. }
  apply (get_connectivity_adjacency 4 4 4 tiles_4x4 0 1
           ltac:(lia) ltac:(lia) ltac:(lia) ltac:(lia) Hl
           ltac:(lia) ltac:(lia) ltac:(lia)
           ltac:(vm_compute; reflexivity) ltac:(vm_compute; reflexivity)).
  left. exists 0, 1, 0, 1. repeat split; try lia. left. done.
Defined.

(** C4 as stated fails in both directions.  On the two
    columns, cluster 0 is recorded for cluster 1 although no pixel labelled 1
    has a pixel labelled 0 to its right, below it or diagonally below-right:
    a pair is recorded at both ends.  On the row above two pixels, the pixel
    labelled 0 has the pixel labelled 1 to its right, in the last row, and
    the pair is not recorded. *)
Lemma get_connectivity_adjacency_not_iff :
  (let conn := fast_slic_get_connectivity 2 2 2 columns_2x2 in
   rd (num_neighbors conn) 1 < 12 /\ rd (num_neighbors conn) 0 < 12 /\
   In 0 (neighbor_list conn 1) /\ ~ forward_pair 2 2 columns_2x2 1 0)
  /\
  (let conn := fast_slic_get_connectivity 2 2 3 row_over_two_2x2 in
   rd (num_neighbors conn) 0 < 12 /\ rd (num_neighbors conn) 1 < 12 /\
   forward_pair 2 2 row_over_two_2x2 0 1 /\ ~ In 1 (neighbor_list conn 0)).
Proof.
  split.
  - split; [vm_compute; reflexivity |]. split; [vm_compute; reflexivity |].
    split; [vm_compute; tauto |].
    intros (i & j & di & dj & Hd & Hi & Hidi & Hj & Hjdj & Ha & Hc).
    assert (Ei : i = 0 \/ i = 1) by (destruct Hd as [[? ?] | [[? ?] | [? ?]]]; lia).
    assert (Ej : j = 0 \/ j = 1) by (destruct Hd as [[? ?] | [[? ?] | [? ?]]]; lia).
    destruct Hd as [[-> ->] | [[-> ->] | [-> ->]]], Ei as [-> | ->], Ej as [-> | ->];
      vm_compute in Ha, Hc; lia || congruence.
  - split; [vm_compute; reflexivity |]. split; [vm_compute; reflexivity |]. split.
    + exists 1, 0, 0, 1. repeat split; try lia. left. done.
    + vm_compute. intros [E | []]. congruence.
Qed.

(** ** Update kernel *)

Lemma member_sum_bound f labels k M (n : nat) :
  0 <= M ->
  (forall p, 0 <= p < Z.of_nat n -> 0 <= f p <= M) ->
  0 <= member_sum f labels k n <= Z.of_nat n * M.
Proof.
  intros HM. induction n as [| n IH]; intros Hf; [simpl; lia |].
  cbn [member_sum]. specialize (IH ltac:(intros; apply Hf; lia)).
  pose proof (Hf (Z.of_nat n) ltac:(lia)).
  destruct (_ =? k); nia.
Qed.

Lemma member_sum_count (labels : list Z) k (n : nat) :
  (n <= length labels)%nat ->
  member_sum (fun _ => 1) labels k n = Z.of_nat (count_occ Z.eq_dec (take n labels) k).
Proof.
  induction n as [| n IH]; intros Hn; [reflexivity |].
  cbn [member_sum]. rewrite IH by lia.
  destruct (lookup_lt_is_Some_2 labels n ltac:(lia)) as [l Hl].
  rewrite (take_S_r _ _ l Hl), count_occ_app. rewrite (rd_lookup _ _ _ Hl). simpl.
  destruct (Z.eqb_spec l k), (Z.eq_dec l k); lia.
Qed.

Lemma member_sum_succ f labels k (n : Z) :
  0 <= n ->
  member_sum f labels k (Z.to_nat (n + 1))
  = member_sum f labels k (Z.to_nat n) + (if rd labels n =? k then f n else 0).
Proof.
  intros Hn. replace (Z.to_nat (n + 1)) with (S (Z.to_nat n)) by lia.
  cbn [member_sum]. by rewrite Z2Nat.id by done.
Qed.

(** The five sums of one cluster, each increased by its term. *)
Lemma acc_five_writes (acc : list Z) c v0 v1 v2 v3 v4 K :
  Z.of_nat (length acc) = 5 * K -> 0 <= c < K ->
  let acc1 := wr acc (5 * c + 0) (rd acc (5 * c + 0) + v0) in
  let acc2 := wr acc1 (5 * c + 1) (rd acc1 (5 * c + 1) + v1) in
  let acc3 := wr acc2 (5 * c + 2) (rd acc2 (5 * c + 2) + v2) in
  let acc4 := wr acc3 (5 * c + 3) (rd acc3 (5 * c + 3) + v3) in
  let acc5 := wr acc4 (5 * c + 4) (rd acc4 (5 * c + 4) + v4) in
  Z.of_nat (length acc5) = 5 * K /\
  forall k d, 0 <= k < K -> 0 <= d < 5 ->
    rd acc5 (5 * k + d)
    = rd acc (5 * k + d)
      + (if k =? c
         then (if d =? 0 then v0 else if d =? 1 then v1 else if d =? 2 then v2
               else if d =? 3 then v3 else v4)
         else 0).
Proof.
  intros Hlen Hc acc1 acc2 acc3 acc4 acc5.
  split; [unfold acc5, acc4, acc3, acc2, acc1; by rewrite !length_wr |].
  intros k d Hk Hd.
  assert (Hrd : forall (a : list Z) q q' v, Z.of_nat (length a) = 5 * K ->
            0 <= q < 5 * K ->
            rd (wr a q v) q' = if q' =? q then v else rd a q').
  { intros a q q' v Ha Hq. destruct (Z.eqb_spec q' q) as [-> | Hne].
    - apply rd_wr_eq. lia.
    - apply rd_wr_ne. lia. }
  assert (L1 : Z.of_nat (length acc1) = 5 * K) by (unfold acc1; by rewrite length_wr).
  assert (L2 : Z.of_nat (length acc2) = 5 * K) by (unfold acc2; by rewrite length_wr).
  assert (L3 : Z.of_nat (length acc3) = 5 * K) by (unfold acc3; by rewrite length_wr).
  assert (L4 : Z.of_nat (length acc4) = 5 * K) by (unfold acc4; by rewrite length_wr).
  unfold acc5. rewrite Hrd by (done || lia).
  unfold acc4. rewrite !Hrd by (done || lia).
  unfold acc3. rewrite !Hrd by (done || lia).
  unfold acc2. rewrite !Hrd by (done || lia).
  unfold acc1. rewrite !Hrd by (done || lia).
  repeat match goal with |- context [?a =? ?c] => destruct (Z.eqb_spec a c) end;
    first [lia | congruence].
Qed.

Lemma acc_five_writes_int (acc : list Z) c v0 v1 v2 v3 v4 K :
  Z.of_nat (length acc) = 5 * K -> 0 <= c < K ->
  (forall d v, 0 <= d < 5 -> In v [v0; v1; v2; v3; v4] ->
     -2147483648 <= rd acc (5 * c + d) + v < 2147483648) ->
  let acc1 := wr acc (5 * c + 0) (int_add (rd acc (5 * c + 0)) v0) in
  let acc2 := wr acc1 (5 * c + 1) (int_add (rd acc1 (5 * c + 1)) v1) in
  let acc3 := wr acc2 (5 * c + 2) (int_add (rd acc2 (5 * c + 2)) v2) in
  let acc4 := wr acc3 (5 * c + 3) (int_add (rd acc3 (5 * c + 3)) v3) in
  let acc5 := wr acc4 (5 * c + 4) (int_add (rd acc4 (5 * c + 4)) v4) in
  Z.of_nat (length acc5) = 5 * K /\
  forall k d, 0 <= k < K -> 0 <= d < 5 ->
    rd acc5 (5 * k + d)
    = rd acc (5 * k + d)
      + (if k =? c
         then (if d =? 0 then v0 else if d =? 1 then v1 else if d =? 2 then v2
               else if d =? 3 then v3 else v4)
         else 0).
Proof.
  intros Hlen Hc Hb acc1 acc2 acc3 acc4 acc5.
  pose proof (acc_five_writes acc c v0 v1 v2 v3 v4 K Hlen Hc) as Hplain.
  cbv zeta in Hplain.
  assert (E1 : acc1 = wr acc (5 * c + 0) (rd acc (5 * c + 0) + v0)).
  { unfold acc1, int_add. rewrite to_int32_small; [done |]. apply Hb; simpl; [lia | tauto]. }
  assert (E2 : acc2 = wr acc1 (5 * c + 1) (rd acc1 (5 * c + 1) + v1)).
  { unfold acc2, int_add. rewrite to_int32_small; [done |].
    unfold acc1. rewrite !rd_wr_ne by lia. apply Hb; simpl; [lia | tauto]. }
  assert (E3 : acc3 = wr acc2 (5 * c + 2) (rd acc2 (5 * c + 2) + v2)).
  { unfold acc3, int_add. rewrite to_int32_small; [done |].
    unfold acc2, acc1. rewrite !rd_wr_ne by lia. apply Hb; simpl; [lia | tauto]. }
  assert (E4 : acc4 = wr acc3 (5 * c + 3) (rd acc3 (5 * c + 3) + v3)).
  { unfold acc4, int_add. rewrite to_int32_small; [done |].
    unfold acc3, acc2, acc1. rewrite !rd_wr_ne by lia. apply Hb; simpl; [lia | tauto]. }
  assert (E5 : acc5 = wr acc4 (5 * c + 4) (rd acc4 (5 * c + 4) + v4)).
  { unfold acc5, int_add. rewrite to_int32_small; [done |].
    unfold acc4, acc3, acc2, acc1. rewrite !rd_wr_ne by lia.
    apply Hb; simpl; [lia | tauto]. }
  rewrite E5, E4, E3, E2, E1. exact Hplain.
Qed.

Section update_kernel.
Variables (H W K : Z) (image : list Z) (assignment : list Z).
Hypothesis HH : 0 < H.
Hypothesis HW : 0 < W.
Hypothesis Hsize : H * W * Z.max 256 (Z.max H W) < 2147483648.
Hypothesis HK : 0 < K <= 65535.
Hypothesis Hlabels : labels_wf H W K assignment.
Hypothesis Himage : bytes_wf image.

Let M : Z := Z.max 256 (Z.max H W).

Lemma pixel_feature_range d p :
  0 <= d < 5 -> 0 <= p < H * W -> 0 <= pixel_feature W image d p <= M.
Proof using HH HW Himage.
  intros Hd Hp. unfold pixel_feature, M.
  destruct (Z.eqb_spec d 0); [| destruct (Z.eqb_spec d 1)].
  - assert (0 <= p / W < H); [| lia].
    split; [apply Z.div_pos; lia | apply Z.div_lt_upper_bound; lia].
  - pose proof (Z.mod_pos_bound p W HW). lia.
  - pose proof (rd_bytes image (3 * p + (d - 2)) Himage). lia.
Qed.

(** The thread's sums after [n] pixels of the scan. *)
Let acc_inv (n : Z) (st : list Z * list Z) : Prop :=
  Z.of_nat (length st.1) = K /\ Z.of_nat (length st.2) = 5 * K /\
  forall k, 0 <= k < K ->
    rd st.1 k = member_sum (fun _ => 1) assignment k (Z.to_nat n) /\
    forall d, 0 <= d < 5 ->
      rd st.2 (5 * k + d)
      = member_sum (pixel_feature W image d) assignment k (Z.to_nat n).

Lemma update_accumulate_sums :
  acc_inv (H * W)
    (update_accumulate H W image assignment
       (replicate (Z.to_nat K) 0, replicate (Z.to_nat (int_mul K 5)) 0)).
Proof using HH HW Hsize HK Hlabels Himage.
  assert (HM : 256 <= M /\ H <= M /\ W <= M) by (unfold M; lia).
  fold M in Hsize.
  assert (Hsz256 : 256 * (H * W) < 2147483648) by nia.
  assert (Hsz : H * W < 2147483648) by nia.
  unfold update_accumulate. apply (for_pixels_ind acc_inv); [lia | lia | |].
  - unfold acc_inv. simpl. unfold int_mul. rewrite to_int32_small by lia.
    rewrite !length_replicate. repeat split; try lia.
    + by rewrite rd_replicate by lia.
    + intros d Hd. by rewrite rd_replicate by lia.
  - intros i j [num acc] Hi Hj (Hln & Hla & Hsum). simpl in Hln, Hla, Hsum.
    destruct (pixel_index H W i j Hi Hj Hsz) as [-> Hp].
    set (p := W * i + j) in *. cbv zeta.
    assert (E3 : int_mul 3 p = 3 * p) by (unfold int_mul; apply to_int32_small; lia).
    rewrite !E3.
    destruct Hlabels as [Hlenl Hall].
    assert (Hl : 0 <= rd assignment p < K \/ rd assignment p = 65535).
    { eapply (proj1 (Forall_lookup _ _) Hall). apply rd_in_range. lia. }
    rewrite (to_uint16_small (rd assignment p)) by lia.
    assert (Hms : forall f k,
      member_sum f assignment k (Z.to_nat (p + 1))
      = member_sum f assignment k (Z.to_nat p)
        + (if rd assignment p =? k then f p else 0))
      by (intros; apply member_sum_succ; lia).
    destruct (Z.eqb_spec (rd assignment p) 65535) as [Hs | Hns].
    + unfold acc_inv. cbn [fst snd].
      split; [done |]. split; [done |]. intros k Hk. split.
      * rewrite Hms. destruct (Z.eqb_spec (rd assignment p) k); [lia |].
        rewrite Z.add_0_r. by apply Hsum.
      * intros d Hd. rewrite Hms. destruct (Z.eqb_spec (rd assignment p) k); [lia |].
        rewrite Z.add_0_r. by apply Hsum.
    + set (c := rd assignment p) in *. assert (Hc : 0 <= c < K) by lia.
      assert (Hbound : forall f k, (forall q, 0 <= q < p -> 0 <= f q <= M) ->
        0 <= member_sum f assignment k (Z.to_nat p) <= p * M).
      { intros f k Hf.
        pose proof (member_sum_bound f assignment k M (Z.to_nat p) ltac:(lia)
                      ltac:(intros; apply Hf; lia)). lia. }
      assert (Ei : p / W = i).
      { unfold p. rewrite Z.mul_comm, Z.div_add_l by lia.
        rewrite Z.div_small by lia. lia. }
      assert (Ej : p mod W = j).
      { unfold p. rewrite Z.add_comm, Z.mul_comm, Z.mod_add by lia.
        apply Z.mod_small. lia. }
      pose proof (acc_five_writes_int acc c i j (rd image (3 * p))
                    (rd image (3 * p + 1)) (rd image (3 * p + 2)) K Hla Hc) as Hfive.
      cbv zeta in Hfive.
      assert (Hvals : forall v, In v [i; j; rd image (3 * p); rd image (3 * p + 1);
                                      rd image (3 * p + 2)] -> 0 <= v <= M).
      { pose proof (rd_bytes image (3 * p) Himage).
        pose proof (rd_bytes image (3 * p + 1) Himage).
        pose proof (rd_bytes image (3 * p + 2) Himage).
        intros v [<- | [<- | [<- | [<- | [<- | []]]]]]; lia. }
      destruct Hfive as [Hla' Hacc'].
      { intros d v Hd Hv. specialize (Hvals v Hv).
        rewrite (proj2 (Hsum c Hc) d Hd).
        pose proof (Hbound (pixel_feature W image d) c
          ltac:(intros; apply pixel_feature_range; lia)). nia. }
      unfold acc_inv. cbn [fst snd].
      split; [by rewrite length_wr |]. split; [exact Hla' |].
      intros k Hk. split.
      * rewrite Hms. destruct (Z.eqb_spec c k) as [<- | Hne].
        -- rewrite rd_wr_eq by lia. rewrite (proj1 (Hsum c Hc)).
           pose proof (Hbound (fun _ => 1) c ltac:(intros; lia)).
           unfold int_add. rewrite to_int32_small by nia. done.
        -- rewrite rd_wr_ne by done. rewrite Z.add_0_r. by apply Hsum.
      * intros d Hd. rewrite Hacc' by done. rewrite Hms.
        rewrite (proj2 (Hsum k ltac:(done)) d Hd).
        rewrite (Z.eqb_sym c k). destruct (Z.eqb_spec k c) as [-> | Hne]; [| done].
        f_equal. unfold pixel_feature.
        destruct (Z.eqb_spec d 0); [lia |]. destruct (Z.eqb_spec d 1); [lia |].
        destruct (Z.eqb_spec d 2) as [-> | ?]; [f_equal; f_equal; lia |].
        destruct (Z.eqb_spec d 3) as [-> | ?]; [done |].
        assert (d = 4) as -> by lia. done.
Qed.
End update_kernel.

Lemma member_sum_le_count f labels k F (n : nat) :
  (forall p, 0 <= p < Z.of_nat n -> 0 <= f p <= F) ->
  0 <= member_sum f labels k n <= member_sum (fun _ => 1) labels k n * F.
Proof.
  induction n as [| n IH]; intros Hf; [simpl; lia |].
  cbn [member_sum]. specialize (IH ltac:(intros; apply Hf; lia)).
  pose proof (Hf (Z.of_nat n) ltac:(lia)).
  destruct (_ =? k); lia.
Qed.

(** [round_int] rounds the quotient to a nearest integer. *)
Lemma round_int_nearest s n :
  0 <= s -> 0 < n -> 2 * Z.abs (n * round_int s n - s) <= n.
Proof.
  intros Hs Hn. unfold round_int.
  rewrite (Z.quot_div_nonneg n 2) by lia.
  rewrite Z.quot_div_nonneg by (try apply Z.add_nonneg_nonneg; try apply Z.div_pos; lia).
  pose proof (Z.div_mod (s + n / 2) n ltac:(lia)) as Hdm.
  pose proof (Z.mod_pos_bound (s + n / 2) n Hn).
  pose proof (Z.div_mod n 2 ltac:(lia)).
  pose proof (Z.mod_pos_bound n 2 ltac:(lia)).
  lia.
Qed.

Lemma round_int_range s n F :
  0 < n -> 0 <= F -> 0 <= s <= n * F -> 0 <= round_int s n <= F.
Proof.
  intros Hn HF Hs. unfold round_int.
  rewrite (Z.quot_div_nonneg n 2) by lia.
  assert (0 <= n / 2 < n) by (split; [apply Z.div_pos; lia | apply Z.div_lt; lia]).
  rewrite Z.quot_div_nonneg by lia.
  split; [apply Z.div_pos; lia |].
  assert ((s + n / 2) / n < F + 1); [| lia].
  apply Z.div_lt_upper_bound; nia.
Qed.

Lemma cluster_at_set_eq clusters k c :
  0 <= k < Z.of_nat (length clusters) -> cluster_at (set_cluster clusters k c) k = c.
Proof.
  intros Hk. unfold cluster_at, set_cluster. destruct (Z.leb_spec 0 k); [| lia].
  rewrite list_lookup_insert_eq by lia. reflexivity.
Qed.

Lemma cluster_at_set_ne clusters k k' c :
  k <> k' -> cluster_at (set_cluster clusters k c) k' = cluster_at clusters k'.
Proof.
  intros Hne. unfold cluster_at, set_cluster.
  destruct (Z.leb_spec 0 k), (Z.leb_spec 0 k'); try done.
  rewrite list_lookup_insert_ne by lia. reflexivity.
Qed.

Lemma length_set_cluster clusters k c :
  length (set_cluster clusters k c) = length clusters.
Proof. unfold set_cluster. destruct (0 <=? k); [apply length_insert | done]. Qed.

(** The critical section copies the sums of the one thread into the shared
    arrays, which start at zero. *)
Lemma update_merge_copies K (local_num local_acc : list Z) :
  0 <= K ->
  (forall k, 0 <= k < K -> -2147483648 <= rd local_num k < 2147483648) ->
  (forall q, 0 <= q < 5 * K -> -2147483648 <= rd local_acc q < 2147483648) ->
  match update_merge K local_num local_acc
          (replicate (Z.to_nat K) 0, replicate (Z.to_nat (5 * K)) 0) with
  | (num, acc) =>
      forall k, 0 <= k < K ->
        rd num k = rd local_num k /\
        forall d, 0 <= d < 5 -> rd acc (5 * k + d) = rd local_acc (5 * k + d)
  end.
Proof.
  intros HK Hnum Hacc.
  set (inv := fun (n : Z) (st : list Z * list Z) =>
    Z.of_nat (length st.1) = K /\ Z.of_nat (length st.2) = 5 * K /\
    (forall k, 0 <= k < K -> rd st.1 k = if k <? n then rd local_num k else 0) /\
    (forall q, 0 <= q < 5 * K -> rd st.2 q = if q <? 5 * n then rd local_acc q else 0)).
  assert (Hinv : inv K (update_merge K local_num local_acc
                          (replicate (Z.to_nat K) 0, replicate (Z.to_nat (5 * K)) 0))).
  { unfold update_merge. apply (for_range_ind inv); [lia | |].
    - unfold inv. simpl. rewrite !length_replicate. repeat split; try lia.
      + intros k Hk. rewrite rd_replicate by lia. destruct (Z.ltb_spec k 0); lia.
      + intros q Hq. rewrite rd_replicate by lia. destruct (Z.ltb_spec q (5 * 0)); lia.
    - intros k [num acc] Hk (Hln & Hla & Hn & Ha). cbn [fst snd] in *.
      set (inner := fun (d : Z) (a : list Z) =>
        Z.of_nat (length a) = 5 * K /\
        forall q, 0 <= q < 5 * K ->
          rd a q = if q <? 5 * k + d then rd local_acc q else 0).
      assert (Hinner : inner 5 (for_range 0 5 (fun dim cluster_acc_vec =>
                wr cluster_acc_vec (5 * k + dim)
                  (int_add (rd cluster_acc_vec (5 * k + dim))
                           (rd local_acc (5 * k + dim)))) acc)).
      { apply (for_range_ind inner); [lia | |].
        - split; [done |]. intros q Hq. rewrite Ha by done.
          by replace (5 * k + 0) with (5 * k) by lia.
        - intros d a Hd [Hl Hq]. split; [by rewrite length_wr |].
          intros q Hqr. destruct (Z.eq_dec (5 * k + d) q) as [<- | Hne].
          + rewrite rd_wr_eq by lia. rewrite Hq by lia.
            destruct (Z.ltb_spec (5 * k + d) (5 * k + d)); [lia |].
            destruct (Z.ltb_spec (5 * k + d) (5 * k + (d + 1))); [| lia].
            unfold int_add. apply to_int32_small. apply Hacc. lia.
          + rewrite rd_wr_ne by done. rewrite Hq by done.
            destruct (Z.ltb_spec q (5 * k + d)), (Z.ltb_spec q (5 * k + (d + 1))); lia. }
      destruct Hinner as [Hla' Ha']. unfold inv. cbn [fst snd].
      split; [by rewrite length_wr |]. split; [done |]. split.
      + intros k' Hk'. destruct (Z.eq_dec k k') as [<- | Hne].
        * rewrite rd_wr_eq by lia. rewrite Hn by done.
          destruct (Z.ltb_spec k k); [lia |]. destruct (Z.ltb_spec k (k + 1)); [| lia].
          unfold int_add. apply to_int32_small. by apply Hnum.
        * rewrite rd_wr_ne by done. rewrite Hn by done.
          destruct (Z.ltb_spec k' k), (Z.ltb_spec k' (k + 1)); lia.
      + intros q Hq. rewrite Ha' by done.
        destruct (Z.ltb_spec q (5 * k + 5)), (Z.ltb_spec q (5 * (k + 1))); lia. }
  destruct (update_merge _ _ _ _) as [num acc].
  destruct Hinv as (_ & _ & Hn & Ha). cbn [fst snd] in *.
  intros k Hk. split.
  - rewrite Hn by done. destruct (Z.ltb_spec k K); lia.
  - intros d Hd. rewrite Ha by lia. destruct (Z.ltb_spec (5 * k + d) (5 * K)); lia.
Qed.

(** C2: on a label image whose labels are cluster indices or the sentinel,
    the update kernel sets [num_members] of every cluster [k] to the number
    of pixels labelled [k]; for a cluster with members it sets [y], [x], [r],
    [g], [b] to the sums of the rows, columns and color channels of its
    pixels divided by that number and rounded to a nearest integer; a cluster
    without members keeps its centroid and gets [num_members = 0]. *)
Theorem slic_update_clusters_means H W K image clusters assignment k :
  0 < H <= 32768 -> 0 < W <= 32768 ->
  H * W * Z.max 256 (Z.max H W) < 2147483648 ->
  0 < K <= 65535 ->
  labels_wf H W K assignment ->
  bytes_wf image ->
  Z.of_nat (length clusters) = K ->
  0 <= k < K ->
  let clusters' := slic_update_clusters H W K image clusters assignment in
  let c := cluster_at clusters k in
  let c' := cluster_at clusters' k in
  let n := Z.of_nat (count_occ Z.eq_dec assignment k) in
  let total d :=
    member_sum (pixel_feature W image d) assignment k (Z.to_nat (H * W)) in
  length clusters' = length clusters /\
  number c' = number c /\
  num_members c' = n /\
  (n = 0 -> y c' = y c /\ x c' = x c /\ r c' = r c /\ g c' = g c /\ b c' = b c) /\
  (0 < n ->
   y c' = round_int (total 0) n /\ x c' = round_int (total 1) n /\
   r c' = round_int (total 2) n /\ g c' = round_int (total 3) n /\
   b c' = round_int (total 4) n /\
   forall d, 0 <= d < 5 -> 2 * Z.abs (n * round_int (total d) n - total d) <= n).
Proof.
  intros HH HW Hsize HK Hlabels Himage Hlen Hk clusters' c c' n total.
  assert (HM : 256 <= Z.max 256 (Z.max H W) /\ H <= Z.max 256 (Z.max H W)
               /\ W <= Z.max 256 (Z.max H W)) by lia.
  assert (Hsz : H * W < 2147483648) by nia.
  pose proof (update_accumulate_sums H W K image assignment
                ltac:(lia) ltac:(lia) Hsize HK Hlabels Himage) as Hacc.
  subst c' clusters'. unfold slic_update_clusters.
  assert (E5 : int_mul K 5 = 5 * K) by (unfold int_mul; rewrite to_int32_small; lia).
  rewrite E5 in *.
  revert Hacc. destruct (update_accumulate H W image assignment _) as [lnum lacc].
  intros (Hln & Hla & Hsum). cbn [fst snd] in *.
  assert (Hcount : forall k', 0 <= k' < K ->
    rd lnum k' = Z.of_nat (count_occ Z.eq_dec assignment k')).
  { intros k' Hk'. rewrite (proj1 (Hsum k' Hk')).
    destruct Hlabels as [Hlenl _].
    rewrite member_sum_count by lia. by rewrite firstn_all2 by lia. }
  assert (Hfeat : forall k' d, 0 <= k' < K -> 0 <= d < 5 ->
    0 <= rd lacc (5 * k' + d)
      <= rd lnum k' * (if d =? 0 then H - 1 else if d =? 1 then W - 1 else 255)).
  { intros k' d Hk' Hd. rewrite (proj2 (Hsum k' Hk') d Hd), (proj1 (Hsum k' Hk')).
    apply member_sum_le_count. intros p Hp. unfold pixel_feature.
    destruct (Z.eqb_spec d 0); [| destruct (Z.eqb_spec d 1)].
    - assert (0 <= p / W < H); [| lia].
      split; [apply Z.div_pos; lia | apply Z.div_lt_upper_bound; lia].
    - pose proof (Z.mod_pos_bound p W ltac:(lia)). lia.
    - pose proof (rd_bytes image (3 * p + (d - 2)) Himage). lia. }
  assert (Hnb : forall k', 0 <= k' < K -> 0 <= rd lnum k' <= H * W).
  { intros k' Hk'. rewrite Hcount by done.
    pose proof (count_occ_bound Z.eq_dec k' assignment).
    destruct Hlabels as [Hlenl _]. lia. }
  pose proof (update_merge_copies K lnum lacc ltac:(lia)) as Hmerge.
  revert Hmerge. destruct (update_merge K lnum lacc _) as [num acc]. intros Hmerge.
  specialize (Hmerge ltac:(intros k' Hk'; specialize (Hnb k' Hk'); lia)).
  assert (Hmerge' : forall k', 0 <= k' < K ->
            rd num k' = rd lnum k' /\
            forall d, 0 <= d < 5 -> rd acc (5 * k' + d) = rd lacc (5 * k' + d)).
  { apply Hmerge. intros q Hq.
    replace q with (5 * (q / 5) + q mod 5) by (pose proof (Z.div_mod q 5); lia).
    assert (0 <= q / 5 < K)
      by (split; [apply Z.div_pos; lia | apply Z.div_lt_upper_bound; lia]).
    pose proof (Z.mod_pos_bound q 5 ltac:(lia)).
    pose proof (Hfeat (q / 5) (q mod 5) ltac:(done) ltac:(done)) as Hf.
    pose proof (Hnb (q / 5) ltac:(done)).
    repeat case_match; nia. }
  clear Hmerge.
  set (final := fun k' =>
    let cl := cluster_at clusters k' in
    let m := rd num k' in
    if m =? 0
    then mkCluster (number cl) (y cl) (x cl) (r cl) (g cl) (b cl) (to_uint32 m)
    else mkCluster (number cl)
           (to_int16 (round_int (rd acc (5 * k' + 0)) m))
           (to_int16 (round_int (rd acc (5 * k' + 1)) m))
           (to_uint8 (round_int (rd acc (5 * k' + 2)) m))
           (to_uint8 (round_int (rd acc (5 * k' + 3)) m))
           (to_uint8 (round_int (rd acc (5 * k' + 4)) m))
           (to_uint32 m)).
  set (inv := fun (m : Z) (cl : list Cluster) =>
    length cl = length clusters /\
    forall k', 0 <= k' < K ->
      cluster_at cl k' = if k' <? m then final k' else cluster_at clusters k').
  match goal with |- context [for_range 0 K ?body clusters] =>
    assert (Hinv : inv K (for_range 0 K body clusters)) end.
  { apply (for_range_ind inv); [lia | |].
    - split; [done |]. intros k' Hk'. destruct (Z.ltb_spec k' 0); [lia | done].
    - intros m cl Hm [Hl Hcl]. cbv zeta. cbn [number y x r g b num_members].
      assert (Ecl : cluster_at cl m = cluster_at clusters m).
      { rewrite Hcl by lia. destruct (Z.ltb_spec m m); [lia | done]. }
      rewrite Ecl.
      split; [destruct (rd num m =? 0); by rewrite length_set_cluster |].
      intros k' Hk'. destruct (Z.eq_dec m k') as [<- | Hne].
      + destruct (Z.ltb_spec m (m + 1)); [| lia]. unfold final. cbv zeta.
        destruct (rd num m =? 0); by rewrite cluster_at_set_eq by lia.
      + assert (Eo : cluster_at (set_cluster cl m (final m)) k' = cluster_at cl k')
          by (by apply cluster_at_set_ne).
        destruct (rd num m =? 0); rewrite cluster_at_set_ne by done;
          rewrite Hcl by done;
          destruct (Z.ltb_spec k' m), (Z.ltb_spec k' (m + 1)); lia || done. }
  destruct Hinv as [Hlen' Hfinal]. split; [exact Hlen' |].
  rewrite (Hfinal k Hk). destruct (Z.ltb_spec k K); [| lia].
  unfold final. cbv zeta. fold c.
  destruct (Hmerge' k Hk) as [En Ea]. rewrite En, (Hcount k Hk). fold n.
  assert (Hn : 0 <= n <= H * W) by (unfold n; rewrite <- Hcount by done; by apply Hnb).
  assert (Etot : forall d, 0 <= d < 5 -> rd acc (5 * k + d) = total d).
  { intros d Hd. rewrite (Ea d Hd). apply (proj2 (Hsum k Hk) d Hd). }
  rewrite !Etot by lia.
  assert (Htot : forall d, 0 <= d < 5 ->
    0 <= total d <= n * (if d =? 0 then H - 1 else if d =? 1 then W - 1 else 255)).
  { intros d Hd. rewrite <- Etot by done. rewrite (Ea d Hd).
    unfold n. rewrite <- Hcount by done. by apply Hfeat. }
  destruct (Z.eqb_spec n 0) as [Hz | Hnz]; cbn [number y x r g b num_members].
  - rewrite to_uint32_small by lia. repeat split; try done; lia.
  - rewrite to_uint32_small by lia. split; [done |]. split; [done |].
    split; [lia |]. intros Hpos.
    pose proof (round_int_range (total 0) n (H - 1) Hpos ltac:(lia) (Htot 0 ltac:(lia))).
    pose proof (round_int_range (total 1) n (W - 1) Hpos ltac:(lia) (Htot 1 ltac:(lia))).
    pose proof (round_int_range (total 2) n 255 Hpos ltac:(lia) (Htot 2 ltac:(lia))).
    pose proof (round_int_range (total 3) n 255 Hpos ltac:(lia) (Htot 3 ltac:(lia))).
    pose proof (round_int_range (total 4) n 255 Hpos ltac:(lia) (Htot 4 ltac:(lia))).
    rewrite !to_int16_small by lia. unfold to_uint8. rewrite !Z.mod_small by lia.
    repeat split; try done.
    intros d Hd. apply round_int_nearest; [apply (Htot d Hd) | done].
Qed.

Lemma slic_update_clusters_means_witness :
  let clusters' := slic_update_clusters 2 2 3 update_image update_clusters update_labels in
  num_members (cluster_at clusters' 0) = 2
  /\ x (cluster_at clusters' 0) = 1
  /\ r (cluster_at clusters' 0) = 15.
Proof.
  intros clusters'.
  assert (Hl : labels_wf 2 2 3 update_labels).
  { split; [reflexivity |]. unfold update_labels. repeat constructor; lia. }
  assert (Hi : bytes_wf update_image).
  { unfold bytes_wf, update_image. repeat constructor; lia. }
  destruct (slic_update_clusters_means 2 2 3 update_image update_clusters update_labels 0
              ltac:(lia) ltac:(lia) ltac:(simpl; lia) ltac:(lia) Hl Hi
              ltac:(reflexivity) ltac:(lia))
    as (_ & _ & Hn & _ & Hmean).
  split; [exact Hn |].
  destruct (Hmean ltac:(simpl; lia)) as (_ & Hx & Hr & _).
  split; [exact Hx | exact Hr].
Defined.

(** ** Assignment kernel: the scan of one window *)

Section assign_window.
Variables (ctx : Context) (cluster : Cluster).
Hypothesis Hctx : assign_ctx_ok ctx.
Hypothesis Hcl : assign_cluster_ok ctx cluster.

Let H := ctx_H ctx.
Let W := ctx_W ctx.
Let S := ctx_S ctx.

Lemma relaxed_none assignment :
  relaxed ctx cluster (fun _ _ => false) assignment assignment.
Proof. split; done. Qed.

Lemma relaxed_ext R R' assignment assignment' :
  (forall i j, 0 <= i < H -> 0 <= j < W -> R i j = R' i j) ->
  relaxed ctx cluster R assignment assignment' ->
  relaxed ctx cluster R' assignment assignment'.
Proof.
  intros Hext [Hlen Hrd]. split; [done |].
  intros i j Hi Hj. rewrite <- Hext by done. by apply Hrd.
Qed.

Lemma pixel_index_inj i j i' j' :
  0 <= j < W -> 0 <= j' < W -> W * i + j = W * i' + j' -> i = i' /\ j = j'.
Proof using Type.
  intros Hj Hj' Heq.
  assert (i = i'); [| split; [done | subst; lia]].
  destruct (Z.lt_trichotomy i i') as [Hlt | [Heq' | Hgt]]; [| done |].
  - assert (W * (i + 1) <= W * i') by (apply Z.mul_le_mono_nonneg_l; lia). lia.
  - assert (W * (i' + 1) <= W * i) by (apply Z.mul_le_mono_nonneg_l; lia). lia.
Qed.

(** One more pixel merged. *)
Lemma relaxed_pixel R assignment assignment' i j :
  Z.of_nat (length assignment) = H * W ->
  0 <= i < H -> 0 <= j < W ->
  R i j = false ->
  relaxed ctx cluster R assignment assignment' ->
  relaxed ctx cluster (fun i' j' => R i' j' || ((i' =? i) && (j' =? j))) assignment
    (assign_pixel ctx cluster (int_add (int_mul W i) j)
       (rd (ctx_spatial_normalize_cache ctx)
           (Z.abs (i - y cluster) + Z.abs (j - x cluster)))
       assignment').
Proof using Hctx.
  intros Hlen Hi Hj HR [Hlen' Hrd]. unfold relaxed. fold H W in Hrd |- *.
  destruct Hctx as (HH & HW & Hsz & _). fold H W in HH, HW, Hsz.
  destruct (pixel_index H W i j Hi Hj ltac:(lia)) as [-> Hp].
  unfold assign_pixel. cbv zeta.
  change (get_assignment_value cluster (ctx_image ctx) (W * i + j)
            (rd (ctx_spatial_normalize_cache ctx)
                (Z.abs (i - y cluster) + Z.abs (j - x cluster)))
            (ctx_quantize_level ctx)) with (candidate ctx cluster i j).
  set (val := candidate ctx cluster i j).
  split.
  - destruct (val <? _); by rewrite ?length_wr.
  - intros i' j' Hi' Hj'.
    destruct (Z.eqb_spec i' i) as [-> | Hne]; [destruct (Z.eqb_spec j' j) as [-> | Hne] |].
    + rewrite HR. cbn [orb andb]. specialize (Hrd i j Hi Hj). rewrite HR in Hrd.
      destruct (Z.ltb_spec val (rd assignment' (W * i + j))).
      * rewrite rd_wr_eq by lia. lia.
      * lia.
    + cbn [andb]. rewrite orb_false_r.
      assert (W * i + j <> W * i + j') by lia.
      destruct (val <? _); rewrite ?rd_wr_ne by done; by apply Hrd.
    + cbn [andb]. rewrite orb_false_r.
      assert (W * i + j <> W * i' + j').
      { intros Heq. apply pixel_index_inj in Heq; lia. }
      destruct (val <? _); rewrite ?rd_wr_ne by done; by apply Hrd.
Qed.

Ltac bool_cases :=
  repeat match goal with
    | |- context [Z.eqb ?a ?c] => destruct (Z.eqb_spec a c)
    | |- context [Z.leb ?a ?c] => destruct (Z.leb_spec a c)
    | |- context [Z.ltb ?a ?c] => destruct (Z.ltb_spec a c)
    end;
  cbn [andb orb]; rewrite ?orb_false_r, ?orb_true_r; try reflexivity; try lia.

(** The two inner loops over row [i] of the window. *)
Lemma assign_row_relaxed R assignment assignment0 x_lo x_hi i :
  Z.of_nat (length assignment) = H * W ->
  0 <= i < H ->
  Z.abs (i - y cluster) <= S ->
  0 <= x_lo <= x cluster -> x cluster < x_hi <= W ->
  x cluster - x_lo <= S -> x_hi - x cluster <= S + 1 ->
  (forall j, R i j = false) ->
  relaxed ctx cluster R assignment assignment0 ->
  relaxed ctx cluster
    (fun i' j' => R i' j' || ((i' =? i) && (x_lo <=? j') && (j' <? x_hi)))
    assignment
    (assign_row ctx cluster x_lo x_hi i
       (Z.abs (i - y cluster) + (x cluster - x_lo)) assignment0).
Proof using Hctx Hcl.
  intros Hlen Hi Hdy Hxlo Hxhi Hwl Hwr HR Hrel.
  destruct Hcl as (Hwf & Hcy & Hcx & HyS & HxS). fold H W S in Hcy, Hcx, HyS, HxS.
  destruct Hwf as (_ & _ & Hxr & _).
  assert (HS : 0 <= S) by (unfold S; apply Hctx).
  unfold assign_row. fold W. rewrite (to_int16_small (x cluster)) by lia.
  set (dy := Z.abs (i - y cluster)) in *.
  set (row := fun (hi : Z) (i' j' : Z) =>
    R i' j' || ((i' =? i) && (x_lo <=? j') && (j' <? hi))).
  set (inv1 := fun (j : Z) (st : list Z * Z) =>
    st.2 = dy + (x cluster - j) /\ relaxed ctx cluster (row j) assignment st.1).
  set (inv2 := fun (j : Z) (st : list Z * Z) =>
    st.2 = dy + (j - x cluster) /\ relaxed ctx cluster (row j) assignment st.1).
  assert (Hstep : forall j a, x_lo <= j < x_hi ->
    relaxed ctx cluster (row j) assignment a ->
    relaxed ctx cluster (row (j + 1)) assignment
      (assign_pixel ctx cluster (int_add (int_mul W i) j)
         (rd (ctx_spatial_normalize_cache ctx) (dy + Z.abs (j - x cluster))) a)).
  { intros j a Hj Ha.
    eapply relaxed_ext; [| apply (relaxed_pixel (row j)); try done; try lia].
    - intros i' j' Hi' Hj'. unfold row. destruct (R i' j'); bool_cases.
    - unfold row. rewrite HR. bool_cases. }
  match goal with |- context [for_range x_lo (x cluster) ?body ?st] =>
    assert (H1 : inv1 (x cluster) (for_range x_lo (x cluster) body st)) end.
  { apply (for_range_ind inv1); [lia | |].
    - split; [done |]. cbn [fst]. eapply relaxed_ext; [| exact Hrel].
      intros i' j' _ _. unfold row. destruct (R i' j'); bool_cases.
    - intros j [a m] Hj [Hm Ha]. cbn [fst snd] in *. subst m. split; cbn [fst snd].
      + rewrite to_uint16_small by lia. lia.
      + replace (dy + (x cluster - j)) with (dy + Z.abs (j - x cluster)) by lia.
        apply Hstep; [lia | done]. }
  match goal with |- context [for_range (x cluster) x_hi ?body ?st] =>
    assert (H2 : inv2 x_hi (for_range (x cluster) x_hi body st)) end.
  { apply (for_range_ind inv2); [lia | |].
    - destruct H1 as [Hm Ha]. split; [rewrite Hm; lia | done].
    - intros j [a m] Hj [Hm Ha]. cbn [fst snd] in *. subst m. split; cbn [fst snd].
      + rewrite to_uint16_small by lia. lia.
      + replace (dy + (j - x cluster)) with (dy + Z.abs (j - x cluster)) by lia.
        apply Hstep; [lia | done]. }
  apply H2.
Qed.

(** The scan of the window of one cluster merges its candidate word at the
    pixels of the window and nowhere else. *)
Lemma assign_cluster_relaxed assignment :
  Z.of_nat (length assignment) = H * W ->
  relaxed ctx cluster (in_window S cluster) assignment
    (assign_cluster ctx cluster assignment).
Proof using Hctx Hcl.
  intros Hlen.
  pose proof Hcl as (Hwf & Hcy & Hcx & HyS & HxS). fold H W S in Hcy, Hcx, HyS, HxS.
  destruct Hwf as (_ & Hyr & Hxr & _).
  pose proof Hctx as (HH & HW & _ & HS & _). fold H W S in HH, HW, HS.
  unfold assign_cluster. fold H W S.
  rewrite (to_int16_small S), (to_int16_small (y cluster)),
    (to_int16_small (x cluster)), (to_int16_small 0),
    (to_int16_small H), (to_int16_small W) by lia.
  rewrite !to_int16_small by lia.
  set (y_lo := my_max 0 (y cluster - S)). set (y_hi := my_min H (y cluster + S + 1)).
  set (x_lo := my_max 0 (x cluster - S)). set (x_hi := my_min W (x cluster + S + 1)).
  assert (Hylo : y_lo = Z.max 0 (y cluster - S))
    by (unfold y_lo, my_max; destruct (Z.ltb_spec 0 (y cluster - S)); lia).
  assert (Hyhi : y_hi = Z.min H (y cluster + S + 1))
    by (unfold y_hi, my_min; destruct (Z.ltb_spec H (y cluster + S + 1)); lia).
  assert (Hxlo : x_lo = Z.max 0 (x cluster - S))
    by (unfold x_lo, my_max; destruct (Z.ltb_spec 0 (x cluster - S)); lia).
  assert (Hxhi : x_hi = Z.min W (x cluster + S + 1))
    by (unfold x_hi, my_min; destruct (Z.ltb_spec W (x cluster + S + 1)); lia).
  clearbody y_lo y_hi x_lo x_hi.
  rewrite to_uint16_small by lia.
  set (rows := fun (lo hi : Z) (i' j' : Z) =>
    (lo <=? i') && (i' <? hi) && (x_lo <=? j') && (j' <? x_hi)).
  set (inv1 := fun (i : Z) (st : list Z * Z) =>
    st.2 = (y cluster - i) + (x cluster - x_lo)
    /\ relaxed ctx cluster (rows y_lo i) assignment st.1).
  set (inv2 := fun (i : Z) (st : list Z * Z) =>
    st.2 = (i - y cluster) + (x cluster - x_lo)
    /\ relaxed ctx cluster (rows y_lo i) assignment st.1).
  assert (Hstep : forall i a, y_lo <= i < y_hi ->
    relaxed ctx cluster (rows y_lo i) assignment a ->
    relaxed ctx cluster (rows y_lo (i + 1)) assignment
      (assign_row ctx cluster x_lo x_hi i
         (Z.abs (i - y cluster) + (x cluster - x_lo)) a)).
  { intros i a Hi Ha.
    eapply relaxed_ext;
      [| apply (assign_row_relaxed (rows y_lo i)); try done; try lia].
    - intros i' j' Hi' Hj'. unfold rows. bool_cases.
    - intros j. unfold rows. bool_cases. }
  match goal with |- context [for_range y_lo (y cluster) ?body ?st] =>
    assert (H1 : inv1 (y cluster) (for_range y_lo (y cluster) body st)) end.
  { apply (for_range_ind inv1); [lia | |].
    - split; [done |]. cbn [fst]. eapply relaxed_ext; [| apply relaxed_none].
      intros i' j' _ _. unfold rows. bool_cases.
    - intros i [a m] Hi [Hm Ha]. cbn [fst snd] in *. subst m. split; cbn [fst snd].
      + rewrite to_uint16_small by lia. lia.
      + replace (y cluster - i) with (Z.abs (i - y cluster)) by lia.
        apply Hstep; [lia | done]. }
  match goal with |- context [for_range (y cluster) y_hi ?body ?st] =>
    assert (H2 : inv2 y_hi (for_range (y cluster) y_hi body st)) end.
  { apply (for_range_ind inv2); [lia | |].
    - destruct H1 as [Hm Ha]. split; [rewrite Hm; lia | done].
    - intros i [a m] Hi [Hm Ha]. cbn [fst snd] in *. subst m. split; cbn [fst snd].
      + rewrite to_uint16_small by lia. lia.
      + replace (i - y cluster) with (Z.abs (i - y cluster)) by lia.
        apply Hstep; [lia | done]. }
  destruct H2 as [_ H2]. eapply relaxed_ext; [| exact H2].
  intros i' j' Hi' Hj'. unfold rows, in_window. fold H W in Hi', Hj'. bool_cases.
Qed.
End assign_window.

(** ** Assignment kernel: all clusters *)

Lemma pixel_index_swapped H W i j :
  0 <= i < H -> 0 <= j < W -> H * W < 2147483648 ->
  int_add (int_mul i W) j = W * i + j.
Proof.
  intros Hi Hj Hsz. rewrite <- (proj1 (pixel_index H W i j Hi Hj Hsz)).
  unfold int_mul. by rewrite (Z.mul_comm i W).
Qed.

Lemma fill_loop H W v (assignment : list Z) :
  0 < H -> 0 < W -> H * W < 2147483648 ->
  Z.of_nat (length assignment) = H * W ->
  let filled :=
    for_range 0 H (fun i => for_range 0 W (fun j assignment =>
      wr assignment (int_add (int_mul i W) j) v)) assignment in
  Z.of_nat (length filled) = H * W /\
  forall p, 0 <= p < H * W -> rd filled p = v.
Proof.
  intros HH HW Hsz Hlen filled. unfold filled.
  set (inv := fun (n : Z) (a : list Z) =>
    Z.of_nat (length a) = H * W /\ forall p, 0 <= p < n -> rd a p = v).
  assert (Hinv : inv (H * W)
    (for_range 0 H (fun i => for_range 0 W (fun j assignment =>
       wr assignment (int_add (int_mul i W) j) v)) assignment)).
  { apply (for_pixels_ind inv); [lia | lia | split; [done | intros; lia] |].
    intros i j a Hi Hj [Hl Ha]. rewrite (pixel_index_swapped H W) by done.
    assert (0 <= W * i + j < H * W) by nia.
    split; [by rewrite length_wr |]. intros p Hp.
    destruct (Z.eq_dec (W * i + j) p) as [<- | Hne].
    - by rewrite rd_wr_eq by lia.
    - rewrite rd_wr_ne by done. apply Ha. lia. }
  exact Hinv.
Qed.

Lemma mask_loop H W (assignment : list Z) :
  0 < H -> 0 < W -> H * W < 2147483648 ->
  Z.of_nat (length assignment) = H * W ->
  let masked :=
    for_range 0 H (fun i => for_range 0 W (fun j assignment =>
      wr assignment (int_add (int_mul i W) j)
         (Z.land (rd assignment (int_add (int_mul i W) j)) 65535))) assignment in
  forall p, 0 <= p < H * W -> rd masked p = Z.land (rd assignment p) 65535.
Proof.
  intros HH HW Hsz Hlen masked. unfold masked.
  set (inv := fun (n : Z) (a : list Z) =>
    Z.of_nat (length a) = H * W /\
    forall p, 0 <= p < H * W ->
      rd a p = if p <? n then Z.land (rd assignment p) 65535 else rd assignment p).
  assert (Hinv : inv (H * W)
    (for_range 0 H (fun i => for_range 0 W (fun j assignment =>
       wr assignment (int_add (int_mul i W) j)
          (Z.land (rd assignment (int_add (int_mul i W) j)) 65535))) assignment)).
  { apply (for_pixels_ind inv); [lia | lia | |].
    - split; [done |]. intros p Hp. destruct (Z.ltb_spec p 0); [lia | done].
    - intros i j a Hi Hj [Hl Ha]. rewrite (pixel_index_swapped H W) by done.
      assert (Hq : 0 <= W * i + j < H * W) by nia.
      split; [by rewrite length_wr |]. intros p Hp.
      destruct (Z.eq_dec (W * i + j) p) as [<- | Hne].
      + rewrite rd_wr_eq by lia. rewrite (Ha _ Hq).
        destruct (Z.ltb_spec (W * i + j) (W * i + j)); [lia |].
        destruct (Z.ltb_spec (W * i + j) (W * i + j + 1)); [done | lia].
      + rewrite rd_wr_ne by done. rewrite (Ha _ Hp).
        destruct (Z.ltb_spec p (W * i + j)), (Z.ltb_spec p (W * i + j + 1)); lia || done. }
  destruct Hinv as [_ Hinv]. intros p Hp. rewrite (Hinv p Hp).
  destruct (Z.ltb_spec p (H * W)); [done | lia].
Qed.

Lemma best_candidate_snoc ctx cs c i j v :
  best_candidate ctx (cs ++ [c]) i j v
  = if in_window (ctx_S ctx) c i j
    then Z.min (best_candidate ctx cs i j v) (candidate ctx c i j)
    else best_candidate ctx cs i j v.
Proof. unfold best_candidate. by rewrite fold_left_app. Qed.

(** The least candidate is the start value or the word of a cluster whose
    window holds the pixel, and it is below both. *)
Lemma best_candidate_spec ctx cs i j v :
  let w := best_candidate ctx cs i j v in
  w <= v /\
  (forall c, In c cs -> in_window (ctx_S ctx) c i j = true -> w <= candidate ctx c i j) /\
  (w = v \/ exists c, In c cs /\ in_window (ctx_S ctx) c i j = true
                      /\ w = candidate ctx c i j).
Proof.
  induction cs as [| c cs IH] using rev_ind; intros w.
  - simpl in w. subst w. split; [lia |]. split; [intros c [] | by left].
  - unfold w. rewrite best_candidate_snoc. destruct IH as (Hle & Hmin & Hwho).
    set (w0 := best_candidate ctx cs i j v) in *.
    destruct (in_window (ctx_S ctx) c i j) eqn:Ew.
    + split; [lia |]. split.
      * intros c' Hin Hw'. apply in_app_iff in Hin as [Hin | [<- | []]]; [| lia].
        specialize (Hmin c' Hin Hw'). lia.
      * destruct (Z.le_gt_cases w0 (candidate ctx c i j)).
        -- rewrite Z.min_l by done. destruct Hwho as [? | (c' & Hin & Hw' & ?)];
             [by left |]. right. exists c'. rewrite in_app_iff. tauto.
        -- rewrite Z.min_r by lia. right. exists c. rewrite in_app_iff. simpl. tauto.
    + split; [done |]. split.
      * intros c' Hin Hw'. apply in_app_iff in Hin as [Hin | [<- | []]];
          [by apply Hmin | congruence].
      * destruct Hwho as [? | (c' & Hin & Hw' & ?)]; [by left |].
        right. exists c'. rewrite in_app_iff. tauto.
Qed.

Section assign_kernel.
Variables (zorder_sort : list Cluster -> list Cluster) (ctx : Context).
Hypothesis Hctx : assign_ctx_ok ctx.
Hypothesis Hsort : Permutation (zorder_sort (ctx_clusters ctx)) (ctx_clusters ctx).

Let H := ctx_H ctx.
Let W := ctx_W ctx.

(** After the loop over the sorted clusters every pixel holds the least
    candidate word of the clusters whose window holds it. *)
Lemma assign_clusters_loop assignment :
  Z.of_nat (length assignment) = H * W ->
  let sorted := zorder_sort (ctx_clusters ctx) in
  let assignment' :=
    for_range 0 (ctx_K ctx) (fun cluster_sorted_idx assignment =>
      assign_cluster ctx (cluster_at sorted cluster_sorted_idx) assignment)
      assignment in
  Z.of_nat (length assignment') = H * W /\
  forall i j, 0 <= i < H -> 0 <= j < W ->
    rd assignment' (W * i + j)
    = best_candidate ctx sorted i j (rd assignment (W * i + j)).
Proof using Hctx Hsort.
  intros Hlen sorted assignment'. unfold assignment'.
  pose proof Hctx as (_ & _ & _ & _ & _ & _ & HK & Hok & _).
  assert (Hlens : Z.of_nat (length sorted) = ctx_K ctx).
  { unfold sorted. by rewrite (Permutation_length Hsort). }
  assert (Hoks : Forall (assign_cluster_ok ctx) sorted).
  { unfold sorted. by rewrite Hsort. }
  set (inv := fun (n : Z) (a : list Z) =>
    Z.of_nat (length a) = H * W /\
    forall i j, 0 <= i < H -> 0 <= j < W ->
      rd a (W * i + j)
      = best_candidate ctx (take (Z.to_nat n) sorted) i j (rd assignment (W * i + j))).
  assert (Hinv : inv (ctx_K ctx)
    (for_range 0 (ctx_K ctx) (fun cluster_sorted_idx assignment =>
       assign_cluster ctx (cluster_at sorted cluster_sorted_idx) assignment)
       assignment)).
  { apply (for_range_ind inv); [lia | split; [done | done] |].
    intros n a Hn [Hl Ha].
    pose proof (cluster_at_lookup sorted n ltac:(lia)) as Hc.
    set (c := cluster_at sorted n) in *.
    assert (Hcok : assign_cluster_ok ctx c)
      by (eapply (proj1 (Forall_lookup _ _) Hoks); eauto).
    destruct (assign_cluster_relaxed ctx c Hctx Hcok a Hl) as [Hl' Ha'].
    split; [lia |]. intros i j Hi Hj.
    replace (Z.to_nat (n + 1)) with (S (Z.to_nat n)) by lia.
    rewrite (take_S_r _ _ c Hc), best_candidate_snoc.
    rewrite <- (Ha i j Hi Hj). by apply Ha'. }
  destruct Hinv as [Hl Ha]. split; [done |].
  intros i j Hi Hj. rewrite (Ha i j Hi Hj).
  by rewrite firstn_all2 by lia.
Qed.

(** A candidate word never exceeds the start value of the image. *)
Lemma candidate_range c i j :
  In c (ctx_clusters ctx) -> 0 <= i < H -> 0 <= j < W ->
  0 <= candidate ctx c i j <= 4294967295 /\
  Z.land (candidate ctx c i j) 65535 = number c /\
  (slic_distance ctx c i j < 65536 ->
   candidate ctx c i j = slic_distance ctx c i j * 65536 + number c).
Proof using Hctx.
  intros Hin Hi Hj.
  pose proof Hctx as (HH & HW & Hsz & HS & Hq & Himg & _ & Hok & _ & Hcache).
  fold H W in HH, HW, Hsz.
  assert (Hc : assign_cluster_ok ctx c).
  { rewrite Forall_forall in Hok. apply Hok. by apply list_elem_of_In. }
  destruct Hc as (Hwf & _).
  assert (Hp : 0 <= W * i + j < 715827882) by nia.
  set (m := Z.abs (i - y c) + Z.abs (j - x c)).
  assert (Hsp : 0 <= rd (ctx_spatial_normalize_cache ctx) m < 65536).
  { unfold rd. destruct (0 <=? m); [| lia].
    destruct (ctx_spatial_normalize_cache ctx !! Z.to_nat m) as [v |] eqn:Ev;
      simpl; [| lia].
    eapply (proj1 (Forall_lookup _ _) Hcache); eauto. }
  pose proof (get_assignment_value_halves c (ctx_image ctx) (W * i + j)
                (rd (ctx_spatial_normalize_cache ctx) m) (ctx_quantize_level ctx)
                Hwf Himg Hp Hsp Hq) as Hw.
  cbv zeta in Hw. fold (candidate ctx c i j) in Hw.
  change (get_assignment_value c (ctx_image ctx) (W * i + j)
            (rd (ctx_spatial_normalize_cache ctx) m) (ctx_quantize_level ctx))
    with (candidate ctx c i j) in Hw.
  destruct Hw as (Hl1 & Hlow & Hhigh & Hexact).
  set (w := candidate ctx c i j) in *.
  assert (Hsplit : w = Z.shiftr w 16 * 65536 + Z.land w 65535).
  { rewrite Z.shiftr_div_pow2 by lia. change 65535 with (Z.ones 16).
    rewrite Z.land_ones by lia. change (2 ^ 16) with 65536.
    pose proof (Z.div_mod w 65536 ltac:(lia)). lia. }
  assert (Hhi : 0 <= Z.shiftr w 16 < 65536).
  { rewrite Hhigh. apply Z.mod_pos_bound. lia. }
  destruct Hwf as (Hnum & _).
  split; [lia |]. split; [done |].
  intros Hd. unfold slic_distance in *. fold W in Hd |- *. fold m in Hd |- *.
  rewrite <- (Hexact Hd). lia.
Qed.
End assign_kernel.


Lemma assign_ctx_ok_example quantize_level :
  0 <= quantize_level <= 7 -> assign_ctx_ok (assign_ctx quantize_level).
Proof.
  intros Hq. unfold assign_ctx_ok, assign_ctx; cbn.
  repeat split; try lia.
  - unfold bytes_wf, assign_image. repeat constructor; lia.
  - unfold assign_clusters, assign_cluster_ok, cluster_wf.
    repeat (constructor; cbn); lia.
  - repeat constructor; lia.
Qed.

(** ** Assignment kernel: the label image *)

Lemma length_for_pixels_wr H W (idx : Z -> Z -> Z) (val : Z -> Z -> list Z -> Z)
    (assignment : list Z) :
  length (for_range 0 H (fun i => for_range 0 W (fun j a =>
            wr a (idx i j) (val i j a))) assignment)
  = length assignment.
Proof.
  apply (for_range_inv (fun a => length a = length assignment)); [done |].
  intros i a _ Ha. apply (for_range_inv (fun a => length a = length assignment)); [done |].
  intros j a' _ Ha'. by rewrite length_wr.
Qed.

(** Every word of the image after the kernel: the low half of the least
    candidate word of the clusters whose window holds the pixel. *)
Lemma slic_assign_pixels zorder_sort ctx assignment0 :
  assign_ctx_ok ctx ->
  Permutation (zorder_sort (ctx_clusters ctx)) (ctx_clusters ctx) ->
  Z.of_nat (length assignment0) = ctx_H ctx * ctx_W ctx ->
  let assignment := slic_assign_cluster_oriented zorder_sort ctx assignment0 in
  length assignment = length assignment0 /\
  forall i j, 0 <= i < ctx_H ctx -> 0 <= j < ctx_W ctx ->
    rd assignment (ctx_W ctx * i + j)
    = Z.land (best_candidate ctx (zorder_sort (ctx_clusters ctx)) i j 4294967295) 65535.
Proof.
  intros Hctx Hsort Hlen assignment.
  pose proof Hctx as (HH & HW & Hsz & _).
  set (H := ctx_H ctx) in *. set (W := ctx_W ctx) in *.
  assert (Hsz' : H * W < 2147483648) by lia.
  subst assignment. unfold slic_assign_cluster_oriented. fold H W.
  destruct (fill_loop H W 4294967295 assignment0 ltac:(lia) ltac:(lia) Hsz' Hlen)
    as [Hlen1 Hfill].
  set (a1 := for_range 0 H _ assignment0) in *.
  destruct (assign_clusters_loop zorder_sort ctx Hctx Hsort a1 Hlen1) as [Hlen2 Hbest].
  fold H W in Hlen2, Hbest.
  set (a2 := for_range 0 (ctx_K ctx) _ a1) in *.
  split.
  - transitivity (length a2); [| lia].
    apply (length_for_pixels_wr H W (fun i j => int_add (int_mul i W) j)
             (fun i j a => Z.land (rd a (int_add (int_mul i W) j)) 65535)).
  - intros i j Hi Hj. assert (Hp : 0 <= W * i + j < H * W) by nia.
    rewrite (mask_loop H W a2 ltac:(lia) ltac:(lia) Hsz' Hlen2 _ Hp).
    by rewrite (Hbest i j Hi Hj), (Hfill _ Hp).
Qed.

(** X1: after the assignment kernel the image has its length, and every
    pixel holds the sentinel 0xFFFF or the number of a cluster whose window
    holds the pixel, whether or not a score wrapped. *)
Theorem slic_assign_labels_local zorder_sort ctx assignment0 i j :
  assign_ctx_ok ctx ->
  Permutation (zorder_sort (ctx_clusters ctx)) (ctx_clusters ctx) ->
  Z.of_nat (length assignment0) = ctx_H ctx * ctx_W ctx ->
  0 <= i < ctx_H ctx -> 0 <= j < ctx_W ctx ->
  let assignment := slic_assign_cluster_oriented zorder_sort ctx assignment0 in
  length assignment = length assignment0 /\
  (rd assignment (ctx_W ctx * i + j) = 65535
   \/ exists c, covering ctx i j c /\ rd assignment (ctx_W ctx * i + j) = number c).
Proof.
  intros Hctx Hsort Hlen Hi Hj assignment.
  destruct (slic_assign_pixels zorder_sort ctx assignment0 Hctx Hsort Hlen) as [Hl Hpix].
  split; [exact Hl |]. unfold assignment. rewrite (Hpix i j Hi Hj).
  destruct (best_candidate_spec ctx (zorder_sort (ctx_clusters ctx)) i j 4294967295)
    as (_ & _ & [-> | (c & Hc & Hw & ->)]).
  - left. reflexivity.
  - right. exists c.
    assert (Hin : In c (ctx_clusters ctx)).
    { apply list_elem_of_In. rewrite <- Hsort. by apply list_elem_of_In. }
    split; [split; done |]. by apply candidate_range.
Qed.

Lemma slic_assign_labels_local_witness :
  let assignment :=
    slic_assign_cluster_oriented (fun cs => cs) (assign_ctx 6) [7; 7; 7; 7] in
  length assignment = 4%nat /\
  (rd assignment 1 = 65535
   \/ exists c, covering (assign_ctx 6) 0 1 c /\ rd assignment 1 = number c).
Proof.
  exact (slic_assign_labels_local (fun cs => cs) (assign_ctx 6) [7; 7; 7; 7] 0 1
           (assign_ctx_ok_example 6 ltac:(lia)) (Permutation_refl _)
           ltac:(reflexivity) ltac:(cbn; lia) ltac:(cbn; lia)).
Defined.

(** The least candidate word does not depend on the order of the clusters. *)
Lemma best_candidate_perm ctx cs cs' i j v :
  Permutation cs cs' -> best_candidate ctx cs i j v = best_candidate ctx cs' i j v.
Proof.
  intros Hperm.
  assert (Hle : forall l l', Permutation l l' ->
            best_candidate ctx l i j v <= best_candidate ctx l' i j v).
  { intros l l' Hp.
    destruct (best_candidate_spec ctx l i j v) as (Hv & Hmin & _).
    destruct (best_candidate_spec ctx l' i j v) as (_ & _ & [-> | (c & Hc & Hw & ->)]).
    - exact Hv.
    - apply Hmin; [| done]. apply list_elem_of_In. rewrite Hp. by apply list_elem_of_In. }
  apply Z.le_antisymm; apply Hle; [done | by symmetry].
Qed.

(** The kernel run by one worker returns the same label image for every
    order in which the clusters are visited and for every prior content of
    the buffer. *)
Lemma slic_assign_one_worker_order sort1 sort2 ctx buffer1 buffer2 :
  assign_ctx_ok ctx ->
  Permutation (sort1 (ctx_clusters ctx)) (ctx_clusters ctx) ->
  Permutation (sort2 (ctx_clusters ctx)) (ctx_clusters ctx) ->
  Z.of_nat (length buffer1) = ctx_H ctx * ctx_W ctx ->
  Z.of_nat (length buffer2) = ctx_H ctx * ctx_W ctx ->
  slic_assign_cluster_oriented sort1 ctx buffer1
  = slic_assign_cluster_oriented sort2 ctx buffer2.
Proof.
  intros Hctx Hs1 Hs2 Hl1 Hl2.
  destruct (slic_assign_pixels sort1 ctx buffer1 Hctx Hs1 Hl1) as [Hlen1 Hpix1].
  destruct (slic_assign_pixels sort2 ctx buffer2 Hctx Hs2 Hl2) as [Hlen2 Hpix2].
  pose proof Hctx as (HH & HW & _).
  set (a1 := slic_assign_cluster_oriented sort1 ctx buffer1) in *.
  set (a2 := slic_assign_cluster_oriented sort2 ctx buffer2) in *.
  apply list_eq. intros n.
  destruct (decide (n < length a1)%nat) as [Hn | Hn].
  - set (p := Z.of_nat n).
    assert (Hp : 0 <= p < ctx_H ctx * ctx_W ctx) by lia.
    assert (Hi : 0 <= p / ctx_W ctx < ctx_H ctx).
    { split; [apply Z.div_pos; lia | apply Z.div_lt_upper_bound; lia]. }
    pose proof (Z.mod_pos_bound p (ctx_W ctx) ltac:(lia)) as Hj.
    assert (Ep : p = ctx_W ctx * (p / ctx_W ctx) + p mod ctx_W ctx)
      by (apply Z.div_mod; lia).
    pose proof (rd_in_range a1 p ltac:(lia)) as E1.
    pose proof (rd_in_range a2 p ltac:(lia)) as E2.
    unfold p in E1, E2 at 1. rewrite Nat2Z.id in E1, E2. rewrite E1, E2. f_equal.
    fold p. rewrite Ep, (Hpix1 _ _ Hi Hj), (Hpix2 _ _ Hi Hj). f_equal.
    apply best_candidate_perm. by rewrite Hs1, Hs2.
  - rewrite !lookup_ge_None_2 by lia. reflexivity.
Qed.

(** ** Update kernel: what the next assignment step relies on *)

(** The fields of every cluster after the update kernel, with the ranges of
    the new centroid. *)
Lemma slic_update_clusters_fields H W K image clusters assignment k :
  0 < H <= 32768 -> 0 < W <= 32768 ->
  H * W * Z.max 256 (Z.max H W) < 2147483648 ->
  0 < K <= 65535 ->
  labels_wf H W K assignment ->
  bytes_wf image ->
  Z.of_nat (length clusters) = K ->
  0 <= k < K ->
  let clusters' := slic_update_clusters H W K image clusters assignment in
  let c := cluster_at clusters k in
  let c' := cluster_at clusters' k in
  let n := Z.of_nat (count_occ Z.eq_dec assignment k) in
  length clusters' = length clusters /\
  number c' = number c /\
  num_members c' = n /\
  0 <= n <= H * W /\
  (n = 0 -> y c' = y c /\ x c' = x c /\ r c' = r c /\ g c' = g c /\ b c' = b c) /\
  (0 < n ->
   0 <= y c' < H /\ 0 <= x c' < W /\
   0 <= r c' < 256 /\ 0 <= g c' < 256 /\ 0 <= b c' < 256).
Proof.
  intros HH HW Hsize HK Hlabels Himage Hlen Hk clusters' c c' n.
  set (total := fun d =>
    member_sum (pixel_feature W image d) assignment k (Z.to_nat (H * W))).
  assert (HM : 256 <= Z.max 256 (Z.max H W) /\ H <= Z.max 256 (Z.max H W)
               /\ W <= Z.max 256 (Z.max H W)) by lia.
  assert (Hsz : H * W < 2147483648) by nia.
  pose proof (update_accumulate_sums H W K image assignment
                ltac:(lia) ltac:(lia) Hsize HK Hlabels Himage) as Hacc.
  subst c' clusters'. unfold slic_update_clusters.
  assert (E5 : int_mul K 5 = 5 * K) by (unfold int_mul; rewrite to_int32_small; lia).
  rewrite E5 in *.
  revert Hacc. destruct (update_accumulate H W image assignment _) as [lnum lacc].
  intros (Hln & Hla & Hsum). cbn [fst snd] in *.
  assert (Hcount : forall k', 0 <= k' < K ->
    rd lnum k' = Z.of_nat (count_occ Z.eq_dec assignment k')).
  { intros k' Hk'. rewrite (proj1 (Hsum k' Hk')).
    destruct Hlabels as [Hlenl _].
    rewrite member_sum_count by lia. by rewrite firstn_all2 by lia. }
  assert (Hfeat : forall k' d, 0 <= k' < K -> 0 <= d < 5 ->
    0 <= rd lacc (5 * k' + d)
      <= rd lnum k' * (if d =? 0 then H - 1 else if d =? 1 then W - 1 else 255)).
  { intros k' d Hk' Hd. rewrite (proj2 (Hsum k' Hk') d Hd), (proj1 (Hsum k' Hk')).
    apply member_sum_le_count. intros p Hp. unfold pixel_feature.
    destruct (Z.eqb_spec d 0); [| destruct (Z.eqb_spec d 1)].
    - assert (0 <= p / W < H); [| lia].
      split; [apply Z.div_pos; lia | apply Z.div_lt_upper_bound; lia].
    - pose proof (Z.mod_pos_bound p W ltac:(lia)). lia.
    - pose proof (rd_bytes image (3 * p + (d - 2)) Himage). lia. }
  assert (Hnb : forall k', 0 <= k' < K -> 0 <= rd lnum k' <= H * W).
  { intros k' Hk'. rewrite Hcount by done.
    pose proof (count_occ_bound Z.eq_dec k' assignment).
    destruct Hlabels as [Hlenl _]. lia. }
  pose proof (update_merge_copies K lnum lacc ltac:(lia)) as Hmerge.
  revert Hmerge. destruct (update_merge K lnum lacc _) as [num acc]. intros Hmerge.
  specialize (Hmerge ltac:(intros k' Hk'; specialize (Hnb k' Hk'); lia)).
  assert (Hmerge' : forall k', 0 <= k' < K ->
            rd num k' = rd lnum k' /\
            forall d, 0 <= d < 5 -> rd acc (5 * k' + d) = rd lacc (5 * k' + d)).
  { apply Hmerge. intros q Hq.
    replace q with (5 * (q / 5) + q mod 5) by (pose proof (Z.div_mod q 5); lia).
    assert (0 <= q / 5 < K)
      by (split; [apply Z.div_pos; lia | apply Z.div_lt_upper_bound; lia]).
    pose proof (Z.mod_pos_bound q 5 ltac:(lia)).
    pose proof (Hfeat (q / 5) (q mod 5) ltac:(done) ltac:(done)) as Hf.
    pose proof (Hnb (q / 5) ltac:(done)).
    repeat case_match; nia. }
  clear Hmerge.
  set (final := fun k' =>
    let cl := cluster_at clusters k' in
    let m := rd num k' in
    if m =? 0
    then mkCluster (number cl) (y cl) (x cl) (r cl) (g cl) (b cl) (to_uint32 m)
    else mkCluster (number cl)
           (to_int16 (round_int (rd acc (5 * k' + 0)) m))
           (to_int16 (round_int (rd acc (5 * k' + 1)) m))
           (to_uint8 (round_int (rd acc (5 * k' + 2)) m))
           (to_uint8 (round_int (rd acc (5 * k' + 3)) m))
           (to_uint8 (round_int (rd acc (5 * k' + 4)) m))
           (to_uint32 m)).
  set (inv := fun (m : Z) (cl : list Cluster) =>
    length cl = length clusters /\
    forall k', 0 <= k' < K ->
      cluster_at cl k' = if k' <? m then final k' else cluster_at clusters k').
  match goal with |- context [for_range 0 K ?body clusters] =>
    assert (Hinv : inv K (for_range 0 K body clusters)) end.
  { apply (for_range_ind inv); [lia | |].
    - split; [done |]. intros k' Hk'. destruct (Z.ltb_spec k' 0); [lia | done].
    - intros m cl Hm [Hl Hcl]. cbv zeta. cbn [number y x r g b num_members].
      assert (Ecl : cluster_at cl m = cluster_at clusters m).
      { rewrite Hcl by lia. destruct (Z.ltb_spec m m); [lia | done]. }
      rewrite Ecl.
      split; [destruct (rd num m =? 0); by rewrite length_set_cluster |].
      intros k' Hk'. destruct (Z.eq_dec m k') as [<- | Hne].
      + destruct (Z.ltb_spec m (m + 1)); [| lia]. unfold final. cbv zeta.
        destruct (rd num m =? 0); by rewrite cluster_at_set_eq by lia.
      + assert (Eo : cluster_at (set_cluster cl m (final m)) k' = cluster_at cl k')
          by (by apply cluster_at_set_ne).
        destruct (rd num m =? 0); rewrite cluster_at_set_ne by done;
          rewrite Hcl by done;
          destruct (Z.ltb_spec k' m), (Z.ltb_spec k' (m + 1)); lia || done. }
  destruct Hinv as [Hlen' Hfinal]. split; [exact Hlen' |].
  rewrite (Hfinal k Hk). destruct (Z.ltb_spec k K); [| lia].
  unfold final. cbv zeta. fold c.
  destruct (Hmerge' k Hk) as [En Ea]. rewrite En, (Hcount k Hk). fold n.
  assert (Hn : 0 <= n <= H * W) by (unfold n; rewrite <- Hcount by done; by apply Hnb).
  assert (Etot : forall d, 0 <= d < 5 -> rd acc (5 * k + d) = total d).
  { intros d Hd. rewrite (Ea d Hd). apply (proj2 (Hsum k Hk) d Hd). }
  rewrite !Etot by lia.
  assert (Htot : forall d, 0 <= d < 5 ->
    0 <= total d <= n * (if d =? 0 then H - 1 else if d =? 1 then W - 1 else 255)).
  { intros d Hd. rewrite <- Etot by done. rewrite (Ea d Hd).
    unfold n. rewrite <- Hcount by done. by apply Hfeat. }
  destruct (Z.eqb_spec n 0) as [Hz | Hnz]; cbn [number y x r g b num_members].
  - rewrite to_uint32_small by lia. repeat split; try done; lia.
  - rewrite to_uint32_small by lia. split; [done |]. split; [done |].
    split; [lia |]. split; [lia |]. intros Hpos.
    pose proof (round_int_range (total 0) n (H - 1) Hpos ltac:(lia) (Htot 0 ltac:(lia))).
    pose proof (round_int_range (total 1) n (W - 1) Hpos ltac:(lia) (Htot 1 ltac:(lia))).
    pose proof (round_int_range (total 2) n 255 Hpos ltac:(lia) (Htot 2 ltac:(lia))).
    pose proof (round_int_range (total 3) n 255 Hpos ltac:(lia) (Htot 3 ltac:(lia))).
    pose proof (round_int_range (total 4) n 255 Hpos ltac:(lia) (Htot 4 ltac:(lia))).
    rewrite !to_int16_small by lia. unfold to_uint8. rewrite !Z.mod_small by lia.
    lia.
Qed.

(** X3: the update kernel hands the next assignment step clusters it can
    take: a cluster with the widths of its fields and its centre inside the
    image keeps both, and keeps its number. *)
Theorem slic_update_keeps_centres H W K image clusters assignment k :
  0 < H <= 32768 -> 0 < W <= 32768 ->
  H * W * Z.max 256 (Z.max H W) < 2147483648 ->
  0 < K <= 65535 ->
  labels_wf H W K assignment ->
  bytes_wf image ->
  Z.of_nat (length clusters) = K ->
  0 <= k < K ->
  let c := cluster_at clusters k in
  let c' := cluster_at (slic_update_clusters H W K image clusters assignment) k in
  cluster_wf c -> 0 <= y c < H -> 0 <= x c < W ->
  cluster_wf c' /\ 0 <= y c' < H /\ 0 <= x c' < W /\ number c' = number c.
Proof.
  intros HH HW Hsize HK Hlabels Himage Hlen Hk c c' Hwf Hy Hx.
  destruct (slic_update_clusters_fields H W K image clusters assignment k
              HH HW Hsize HK Hlabels Himage Hlen Hk)
    as (_ & Hnum & Hn & Hnr & Hzero & Hpos).
  fold c c' in Hnum, Hn, Hzero, Hpos.
  destruct Hwf as (Hwn & Hwy & Hwx & Hwr & Hwg & Hwb & Hwm).
  assert (Hnn : 0 <= num_members c' < 4294967296) by nia.
  destruct (Z.eq_dec (Z.of_nat (count_occ Z.eq_dec assignment k)) 0) as [Hz | Hnz].
  - destruct (Hzero Hz) as (Ey & Ex & Er & Eg & Eb).
    unfold cluster_wf. rewrite Hnum, Ey, Ex, Er, Eg, Eb. repeat split; lia.
  - specialize (Hpos ltac:(lia)).
    unfold cluster_wf. rewrite Hnum. repeat split; lia.
Qed.

Lemma slic_update_keeps_centres_witness :
  let c' := cluster_at (slic_update_clusters 2 2 2 assign_image assign_clusters
                          mask_labels) 0 in
  cluster_wf c' /\ 0 <= y c' < 2 /\ 0 <= x c' < 2 /\ number c' = 0.
Proof.
  assert (Hl : labels_wf 2 2 2 mask_labels).
  { split; [reflexivity |]. unfold mask_labels. repeat constructor; lia. }
  assert (Hi : bytes_wf assign_image).
  { unfold bytes_wf, assign_image. repeat constructor; lia. }
  apply (slic_update_keeps_centres 2 2 2 assign_image assign_clusters mask_labels 0
           ltac:(lia) ltac:(lia) ltac:(simpl; lia) ltac:(lia) Hl Hi
           ltac:(reflexivity) ltac:(lia)).
  - vm_compute. repeat split; congruence.
  - vm_compute. split; congruence.
  - vm_compute. split; congruence.
Defined.

Lemma sum_below_ext f f' (n : nat) :
  (forall k, 0 <= k < Z.of_nat n -> f k = f' k) -> sum_below f n = sum_below f' n.
Proof.
  induction n as [| n IH]; intros Hext; [done |].
  cbn [sum_below]. rewrite IH by (intros; apply Hext; lia).
  by rewrite Hext by lia.
Qed.

Lemma sum_below_add f f' (n : nat) :
  sum_below (fun k => f k + f' k) n = sum_below f n + sum_below f' n.
Proof. induction n as [| n IH]; cbn [sum_below]; lia. Qed.

(** One label counts once among the indices below [n], when it is one. *)
Lemma sum_below_indicator l (n : nat) :
  sum_below (fun k => if Z.eq_dec l k then 1 else 0) n
  = if (0 <=? l) && (l <? Z.of_nat n) then 1 else 0.
Proof.
  induction n as [| n IH]; cbn [sum_below].
  - destruct (Z.leb_spec 0 l), (Z.ltb_spec l (Z.of_nat 0)); cbn [andb]; lia.
  - rewrite IH.
    destruct (Z.eq_dec l (Z.of_nat n)), (Z.leb_spec 0 l), (Z.ltb_spec l (Z.of_nat n)),
      (Z.ltb_spec l (Z.of_nat (S n))); cbn [andb]; lia.
Qed.

Lemma sum_below_count_occ (labels : list Z) (n : nat) :
  sum_below (fun k => Z.of_nat (count_occ Z.eq_dec labels k)) n
  = Z.of_nat (length (List.filter (fun l => (0 <=? l) && (l <? Z.of_nat n)) labels)).
Proof.
  induction labels as [| l labels IH]; cbn [count_occ List.filter].
  - induction n as [| n IHn]; cbn [sum_below length] in *; lia.
  - rewrite (sum_below_ext _
      (fun k => (if Z.eq_dec l k then 1 else 0)
                + Z.of_nat (count_occ Z.eq_dec labels k)))
      by (intros k _; destruct (Z.eq_dec l k); lia).
    rewrite sum_below_add, sum_below_indicator, IH.
    destruct ((0 <=? l) && (l <? Z.of_nat n)); cbn [length]; lia.
Qed.

Lemma total_members_sum_below (clusters : list Cluster) :
  total_members clusters
  = sum_below (fun k => num_members (cluster_at clusters k)) (length clusters).
Proof.
  induction clusters as [| c clusters IH] using rev_ind; [reflexivity |].
  unfold total_members in *. rewrite fold_right_app. cbn [fold_right].
  rewrite length_app, Nat.add_1_r. cbn [sum_below].
  assert (Eshift : forall z cs,
    fold_right (fun c s => num_members c + s) z cs
    = fold_right (fun c s => num_members c + s) 0 cs + z).
  { intros z cs. induction cs as [| c' cs IHcs]; cbn [fold_right]; lia. }
  rewrite Eshift, IH.
  rewrite (sum_below_ext (fun k => num_members (cluster_at (clusters ++ [c]) k))
             (fun k => num_members (cluster_at clusters k))).
  - assert (Elast : cluster_at (clusters ++ [c]) (Z.of_nat (length clusters)) = c).
    { unfold cluster_at. destruct (Z.leb_spec 0 (Z.of_nat (length clusters))); [| lia].
      rewrite Nat2Z.id, lookup_app_r by lia. by rewrite Nat.sub_diag. }
    rewrite Elast. lia.
  - intros k Hk. unfold cluster_at. destruct (Z.leb_spec 0 k); [| done].
    by rewrite lookup_app_l by lia.
Qed.

(** The labels below [K] are those that are not the sentinel. *)
Lemma labelled_count K (labels : list Z) :
  0 <= K <= 65535 ->
  Forall (fun l => 0 <= l < K \/ l = 65535) labels ->
  Z.of_nat (length (List.filter (fun l => (0 <=? l) && (l <? Z.of_nat (Z.to_nat K)))
                                labels))
  = Z.of_nat (length labels) - Z.of_nat (count_occ Z.eq_dec labels 65535).
Proof.
  intros HK Hall. rewrite Z2Nat.id by lia.
  induction Hall as [| l labels Hlk Hall IH]; [reflexivity |].
  cbn [List.filter count_occ length].
  destruct (Z.eq_dec l 65535) as [-> | Hne].
  - destruct (Z.leb_spec 0 65535), (Z.ltb_spec 65535 K); cbn [andb]; lia.
  - destruct (Z.leb_spec 0 l), (Z.ltb_spec l K); cbn [andb length]; lia.
Qed.

(** X4: after the update kernel the member counts of the clusters add up to
    the number of pixels that do not hold the sentinel: every labelled pixel
    is a member of exactly one cluster. *)
Theorem slic_update_members_total H W K image clusters assignment :
  0 < H <= 32768 -> 0 < W <= 32768 ->
  H * W * Z.max 256 (Z.max H W) < 2147483648 ->
  0 < K <= 65535 ->
  labels_wf H W K assignment ->
  bytes_wf image ->
  Z.of_nat (length clusters) = K ->
  total_members (slic_update_clusters H W K image clusters assignment)
  = H * W - Z.of_nat (count_occ Z.eq_dec assignment 65535).
Proof.
  intros HH HW Hsize HK Hlabels Himage Hlen.
  set (clusters' := slic_update_clusters H W K image clusters assignment).
  assert (Hlen' : length clusters' = length clusters).
  { apply (slic_update_clusters_fields H W K image clusters assignment 0); try done. lia. }
  rewrite total_members_sum_below, Hlen'.
  rewrite (sum_below_ext (fun k => num_members (cluster_at clusters' k))
             (fun k => Z.of_nat (count_occ Z.eq_dec assignment k))).
  2: { intros k Hk.
       apply (slic_update_clusters_fields H W K image clusters assignment k); try done.
       lia. }
  rewrite sum_below_count_occ. destruct Hlabels as [Hl Hall]. rewrite <- Hl.
  replace (length clusters) with (Z.to_nat K) by lia.
  apply labelled_count; [lia | done].
Qed.

Lemma slic_update_members_total_witness :
  total_members (slic_update_clusters 2 2 3 update_image update_clusters update_labels)
  = 2 * 2 - 1.
Proof.
  assert (Hl : labels_wf 2 2 3 update_labels).
  { split; [reflexivity |]. unfold update_labels. repeat constructor; lia. }
  assert (Hi : bytes_wf update_image).
  { unfold bytes_wf, update_image. repeat constructor; lia. }
  exact (slic_update_members_total 2 2 3 update_image update_clusters update_labels
           ltac:(lia) ltac:(lia) ltac:(simpl; lia) ltac:(lia) Hl Hi
           ltac:(reflexivity)).
Defined.

(** ** Iteration driver *)

Lemma cluster_at_Forall (P : Cluster -> Prop) clusters k :
  Forall P clusters -> 0 <= k < Z.of_nat (length clusters) -> P (cluster_at clusters k).
Proof.
  intros Hall Hk. eapply (proj1 (Forall_lookup _ _) Hall). by apply cluster_at_lookup.
Qed.

Lemma Forall_cluster_at (P : Cluster -> Prop) clusters :
  (forall k, 0 <= k < Z.of_nat (length clusters) -> P (cluster_at clusters k)) ->
  Forall P clusters.
Proof.
  intros Hall. apply Forall_lookup. intros n c Hc.
  pose proof (lookup_lt_Some _ _ _ Hc) as Hn.
  specialize (Hall (Z.of_nat n) ltac:(lia)).
  pose proof (cluster_at_lookup clusters (Z.of_nat n) ltac:(lia)) as Hc'.
  rewrite Nat2Z.id in Hc'. congruence.
Qed.

(** One pass of the loop body: the labels it leaves are cluster indices or
    the sentinel, the member counts match them, and the context is fit for
    the next pass. *)
Lemma slic_iteration_ok zorder_sort ctx assignment :
  (forall cs, Permutation (zorder_sort cs) cs) ->
  iterate_ctx_ok ctx ->
  Z.of_nat (length assignment) = ctx_H ctx * ctx_W ctx ->
  match slic_iteration zorder_sort (ctx, assignment) with
  | (ctx', assignment') =>
      iterate_ctx_ok ctx' /\
      ctx_H ctx' = ctx_H ctx /\ ctx_W ctx' = ctx_W ctx /\ ctx_K ctx' = ctx_K ctx /\
      labels_wf (ctx_H ctx) (ctx_W ctx) (ctx_K ctx) assignment' /\
      members_counted (ctx_K ctx) (ctx_clusters ctx') assignment'
  end.
Proof.
  intros Hsort (Hctx & HK & Hnum & Hsize & HHS & HWS) Hlen.
  unfold slic_iteration, slic_assign. cbn [String.eqb Ascii.eqb Bool.eqb].
  cbv beta iota.
  pose proof Hctx as (HH & HW & Hsz & HS & Hq & Himg & HlenK & Hok & Hcl & Hcache).
  set (H := ctx_H ctx) in *. set (W := ctx_W ctx) in *. set (K := ctx_K ctx) in *.
  destruct (slic_assign_pixels zorder_sort ctx assignment Hctx (Hsort _) Hlen)
    as [Hlen1 Hpix]. fold H W in Hpix.
  set (a1 := slic_assign_cluster_oriented zorder_sort ctx assignment) in *.
  assert (Hlabels : labels_wf H W K a1).
  { split; [lia |]. apply Forall_lookup. intros n l Hl.
    pose proof (lookup_lt_Some _ _ _ Hl) as Hn.
    set (p := Z.of_nat n).
    assert (Hi : 0 <= p / W < H).
    { split; [apply Z.div_pos; lia | apply Z.div_lt_upper_bound; lia]. }
    pose proof (Z.mod_pos_bound p W ltac:(lia)) as Hj.
    assert (Ep : p = W * (p / W) + p mod W) by (apply Z.div_mod; lia).
    pose proof (rd_lookup a1 n l Hl) as El. fold p in El.
    rewrite Ep, (Hpix _ _ Hi Hj) in El. rewrite <- El.
    destruct (best_candidate_spec ctx (zorder_sort (ctx_clusters ctx))
                (p / W) (p mod W) 4294967295)
      as (_ & _ & [-> | (c & Hc & Hw & ->)]).
    - right. reflexivity.
    - left.
      assert (Hin : In c (ctx_clusters ctx)).
      { apply list_elem_of_In. rewrite <- (Hsort (ctx_clusters ctx)).
        by apply list_elem_of_In. }
      destruct (candidate_range ctx Hctx c (p / W) (p mod W) Hin Hi Hj) as (_ & -> & _).
      apply list_elem_of_In in Hin.
      pose proof (proj1 (Forall_forall _ _) Hnum c Hin).
      pose proof (proj1 (Forall_forall _ _) Hok c Hin) as ((Hn0 & _) & _).
      simpl in *. lia. }
  set (cl' := slic_update_clusters H W K (ctx_image ctx) (ctx_clusters ctx) a1).
  assert (Hfields : forall k, 0 <= k < K ->
    let c := cluster_at (ctx_clusters ctx) k in
    let c' := cluster_at cl' k in
    let n := Z.of_nat (count_occ Z.eq_dec a1 k) in
    length cl' = length (ctx_clusters ctx) /\ number c' = number c /\
    num_members c' = n /\ 0 <= n <= H * W /\
    (n = 0 -> y c' = y c /\ x c' = x c /\ r c' = r c /\ g c' = g c /\ b c' = b c) /\
    (0 < n -> 0 <= y c' < H /\ 0 <= x c' < W /\
              0 <= r c' < 256 /\ 0 <= g c' < 256 /\ 0 <= b c' < 256)).
  { intros k Hk.
    apply (slic_update_clusters_fields H W K (ctx_image ctx) (ctx_clusters ctx) a1 k);
      try done; lia. }
  assert (Hlen' : length cl' = length (ctx_clusters ctx)) by (apply (Hfields 0); lia).
  assert (Hnew : forall k, 0 <= k < K ->
    assign_cluster_ok ctx (cluster_at cl' k) /\ number (cluster_at cl' k) < K).
  { intros k Hk. destruct (Hfields k Hk) as (_ & En & Em & Hn & Hzero & Hpos).
    pose proof (cluster_at_Forall _ _ k Hok ltac:(lia))
      as ((Hwn & Hwy & Hwx & Hwr & Hwg & Hwb & Hwm) & Hcy & Hcx & HyS & HxS).
    pose proof (cluster_at_Forall _ _ k Hnum ltac:(lia)) as Hlt. simpl in Hlt.
    fold H W in Hcy, Hcx.
    split; [| lia].
    destruct (Z.eq_dec (Z.of_nat (count_occ Z.eq_dec a1 k)) 0) as [Hz | Hnz].
    - destruct (Hzero Hz) as (Ey & Ex & Er & Eg & Eb).
      unfold assign_cluster_ok, cluster_wf. fold H W.
      rewrite En, Em, Ey, Ex, Er, Eg, Eb. repeat split; lia.
    - specialize (Hpos ltac:(lia)).
      unfold assign_cluster_ok, cluster_wf. fold H W.
      rewrite En, Em. repeat split; lia. }
  split; [| split; [done | split; [done | split; [done | split; [done |]]]]].
  - split; [| split; [done | split; [| split; [done | split; done]]]].
    + unfold assign_ctx_ok, with_clusters; cbn. fold H W K.
      split; [done |]. split; [done |]. split; [done |]. split; [done |].
      split; [done |]. split; [done |]. split; [lia |].
      split; [| split; done].
      apply Forall_cluster_at. intros k Hk. apply Hnew. lia.
    + cbn. apply Forall_cluster_at. intros k Hk. apply Hnew. lia.
  - split; [cbn; lia |]. intros k Hk. cbn. apply (Hfields k Hk).
Qed.

(** X5: the loop of the driver, run at least once on a fit context and a
    buffer of the size of the image, ends with labels that are cluster
    indices or the sentinel, member counts that match them, and clusters the
    assignment kernel can take again. *)
Theorem slic_iterations_ok zorder_sort max_iter ctx assignment :
  (forall cs, Permutation (zorder_sort cs) cs) ->
  iterate_ctx_ok ctx ->
  Z.of_nat (length assignment) = ctx_H ctx * ctx_W ctx ->
  0 < max_iter ->
  let ctx' := (slic_iterations zorder_sort max_iter (ctx, assignment)).1 in
  let assignment' := (slic_iterations zorder_sort max_iter (ctx, assignment)).2 in
  iterate_ctx_ok ctx' /\
  labels_wf (ctx_H ctx) (ctx_W ctx) (ctx_K ctx) assignment' /\
  members_counted (ctx_K ctx) (ctx_clusters ctx') assignment'.
Proof.
  intros Hsort Hctx Hlen Hiter. cbv zeta. unfold slic_iterations.
  set (inv := fun (n : Z) (st : Context * list Z) =>
    iterate_ctx_ok st.1 /\
    ctx_H st.1 = ctx_H ctx /\ ctx_W st.1 = ctx_W ctx /\ ctx_K st.1 = ctx_K ctx /\
    Z.of_nat (length st.2) = ctx_H ctx * ctx_W ctx /\
    (0 < n ->
     labels_wf (ctx_H ctx) (ctx_W ctx) (ctx_K ctx) st.2 /\
     members_counted (ctx_K ctx) (ctx_clusters st.1) st.2)).
  assert (Hinv : inv max_iter
    (for_range 0 max_iter (fun _ => slic_iteration zorder_sort) (ctx, assignment))).
  { apply (for_range_ind inv); [lia | |].
    - unfold inv. cbn [fst snd].
      split; [done |]. split; [done |]. split; [done |]. split; [done |].
      split; [done | intros; lia].
    - intros n [c a] Hn (Hc & EH & EW & EK & Hl & _). cbn [fst snd] in *.
      pose proof (slic_iteration_ok zorder_sort c a Hsort Hc ltac:(lia)) as Hstep.
      destruct (slic_iteration zorder_sort (c, a)) as [c' a'].
      destruct Hstep as (Hc' & EH' & EW' & EK' & Hlab & Hmem).
      unfold inv. cbn [fst snd]. rewrite EH, EW, EK in *.
      split; [done |]. split; [lia |]. split; [lia |]. split; [lia |].
      split; [apply Hlab |]. intros _. split; done. }
  destruct Hinv as (Hc & _ & _ & _ & _ & Hres). split; [exact Hc |]. by apply Hres.
Qed.

Lemma iterate_ctx_ok_example : iterate_ctx_ok (assign_ctx 6).
Proof.
  split; [apply assign_ctx_ok_example; lia |].
  unfold assign_ctx; cbn. repeat split; try lia.
  unfold assign_clusters. repeat (constructor; cbn); lia.
Qed.

Lemma slic_iterations_ok_witness :
  let st := slic_iterations (fun cs => cs) 2 (assign_ctx 6, [7; 7; 7; 7]) in
  iterate_ctx_ok st.1 /\
  labels_wf 2 2 2 st.2 /\
  members_counted 2 (ctx_clusters st.1) st.2.
Proof.
  exact (slic_iterations_ok (fun cs => cs) 2 (assign_ctx 6) [7; 7; 7; 7]
           (fun cs => Permutation_refl cs) iterate_ctx_ok_example
           ltac:(reflexivity) ltac:(lia)).
Defined.

(** ** Mask aggregation: any mask *)

(** The sums of [fast_slic_get_mask_density] over the whole image. *)
Lemma mask_sums H W K (assignment mask : list Z) :
  0 < H -> 0 < W -> 255 * (H * W) < 2147483648 ->
  0 < K <= 65535 ->
  labels_wf H W K assignment ->
  bytes_wf mask ->
  let sum :=
    for_range 0 H (fun i =>
      for_range 0 W (fun j sum =>
        let cluster_no := rd assignment (int_add (int_mul W i) j) in
        if cluster_no <? to_uint32 K
        then wr sum cluster_no
               (int_add (rd sum cluster_no) (rd mask (int_add (int_mul W i) j)))
        else sum)) (replicate (Z.to_nat K) 0) in
  Z.of_nat (length sum) = K /\
  forall k, 0 <= k < K ->
    rd sum k = member_sum (rd mask) assignment k (Z.to_nat (H * W)).
Proof.
  intros HH HW Hsize HK [Hlenl Hall] Hmask sum. unfold sum.
  set (inv := fun (n : Z) (s : list Z) =>
    Z.of_nat (length s) = K /\
    forall k, 0 <= k < K -> rd s k = member_sum (rd mask) assignment k (Z.to_nat n)).
  apply (for_pixels_ind inv); [lia | lia | |].
  - split; [rewrite length_replicate; lia |].
    intros k Hk. by rewrite rd_replicate by lia.
  - intros i j s Hi Hj [Hlen Hsum].
    destruct (pixel_index H W i j Hi Hj ltac:(lia)) as [-> Hp].
    set (p := W * i + j) in *. cbv zeta.
    rewrite to_uint32_small by lia.
    assert (Hl : 0 <= rd assignment p < K \/ rd assignment p = 65535).
    { eapply (proj1 (Forall_lookup _ _) Hall). apply rd_in_range. lia. }
    assert (Hms : forall k,
      member_sum (rd mask) assignment k (Z.to_nat (p + 1))
      = member_sum (rd mask) assignment k (Z.to_nat p)
        + (if rd assignment p =? k then rd mask p else 0))
      by (intros; apply member_sum_succ; lia).
    destruct (Z.ltb_spec (rd assignment p) K) as [Hlt | Hge].
    + split; [by rewrite length_wr |]. intros k Hk. rewrite Hms.
      destruct (Z.eqb_spec (rd assignment p) k) as [<- | Hne].
      * rewrite rd_wr_eq by lia. rewrite Hsum by lia.
        pose proof (member_sum_bound (rd mask) assignment (rd assignment p) 255
                      (Z.to_nat p) ltac:(lia)
                      ltac:(intros q _; pose proof (rd_bytes mask q Hmask); lia)).
        pose proof (rd_bytes mask p Hmask).
        unfold int_add. rewrite to_int32_small by nia. reflexivity.
      * rewrite rd_wr_ne by done. rewrite Hsum by done. lia.
    + split; [done |]. intros k Hk. rewrite Hms.
      destruct (Z.eqb_spec (rd assignment p) k); [lia |].
      rewrite Hsum by done. lia.
Qed.

(** X6: for any mask of bytes, the density [fast_slic_get_mask_density]
    writes for cluster [k] is the sum of the mask over the pixels labelled
    [k], divided by [num_members] of the cluster (by 1 when that is 0),
    cut off at 255; the array keeps its length. *)
Theorem get_mask_density_values H W K clusters assignment mask densities0 k :
  0 < H -> 0 < W -> 255 * (H * W) < 2147483648 ->
  0 < K <= 65535 ->
  labels_wf H W K assignment ->
  bytes_wf mask ->
  Z.of_nat (length densities0) = K ->
  0 <= num_members (cluster_at clusters k) < 4294967296 ->
  0 <= k < K ->
  let densities :=
    fast_slic_get_mask_density H W K clusters assignment mask densities0 in
  length densities = length densities0 /\
  rd densities k
  = Z.min 255 (member_sum (rd mask) assignment k (Z.to_nat (H * W))
               / Z.max (num_members (cluster_at clusters k)) 1).
Proof.
  intros HH HW Hsize HK Hlabels Hmask Hlen0 Hnm Hk densities.
  unfold densities, fast_slic_get_mask_density.
  destruct (mask_sums H W K assignment mask HH HW Hsize HK Hlabels Hmask) as [Hls Hsum].
  set (sum := for_range 0 H _ _) in *.
  set (value := fun k' =>
    to_uint8 (my_min 255 (to_int32 (Z.quot (to_uint32 (rd sum k'))
                (my_max (num_members (cluster_at clusters k')) 1))))).
  set (inv := fun (n : Z) (d : list Z) =>
    length d = length densities0 /\
    forall k', 0 <= k' < n -> rd d k' = value k').
  change (for_range 0 K _ densities0)
    with (for_range 0 K (fun k' d => wr d k' (value k')) densities0).
  assert (Hinv : inv K (for_range 0 K (fun k' d => wr d k' (value k')) densities0)).
  { apply (for_range_ind inv); [lia | split; [done | intros; lia] |].
    intros n d Hn [Hl Hd]. split; [by rewrite length_wr |].
    intros k' Hk'. destruct (Z.eq_dec n k') as [<- | Hne].
    - rewrite rd_wr_eq by lia. reflexivity.
    - rewrite rd_wr_ne by done. apply Hd. lia. }
  destruct Hinv as [Hl Hd]. split; [exact Hl |].
  rewrite (Hd k Hk). unfold value. rewrite (Hsum k Hk).
  set (s := member_sum (rd mask) assignment k (Z.to_nat (H * W))).
  set (m := num_members (cluster_at clusters k)) in *.
  assert (Hs : 0 <= s <= H * W * 255).
  { pose proof (member_sum_bound (rd mask) assignment k 255 (Z.to_nat (H * W))
                  ltac:(lia)
                  ltac:(intros q _; pose proof (rd_bytes mask q Hmask); lia)). lia. }
  rewrite to_uint32_small by lia.
  assert (Em : my_max m 1 = Z.max m 1)
    by (unfold my_max; destruct (Z.ltb_spec m 1); lia).
  rewrite Em. rewrite Z.quot_div_nonneg by lia.
  assert (Hq : 0 <= s / Z.max m 1 <= s).
  { split; [apply Z.div_pos; lia |]. apply Z.div_le_upper_bound; nia. }
  rewrite to_int32_small by lia.
  assert (Emin : my_min 255 (s / Z.max m 1) = Z.min 255 (s / Z.max m 1))
    by (unfold my_min; destruct (Z.ltb_spec 255 (s / Z.max m 1)); lia).
  rewrite Emin. unfold to_uint8. apply Z.mod_small. lia.
Qed.

Lemma get_mask_density_values_witness :
  let densities :=
    fast_slic_get_mask_density 2 2 2 mask_clusters mask_labels [10; 20; 30; 40] [0; 0] in
  length densities = 2%nat /\ rd densities 0 = 15.
Proof.
  assert (Hl : labels_wf 2 2 2 mask_labels).
  { split; [reflexivity |]. unfold mask_labels. repeat constructor; lia. }
  assert (Hm : bytes_wf [10; 20; 30; 40]).
  { unfold bytes_wf. repeat constructor; lia. }
  exact (get_mask_density_values 2 2 2 mask_clusters mask_labels [10; 20; 30; 40]
           [0; 0] 0 ltac:(lia) ltac:(lia) ltac:(lia) ltac:(lia) Hl Hm
           ltac:(reflexivity) ltac:(vm_compute; split; congruence) ltac:(lia)).
Defined.

(** X7: [fast_slic_cluster_density_to_mask] overwrites every pixel of the
    result, whatever it held: with the density of the pixel's cluster, or
    with 0 where the label is not below [K]. *)
Theorem cluster_density_to_mask_values H W K clusters assignment densities result0 i j :
  0 < H -> 0 < W -> H * W < 2147483648 ->
  0 <= K < 4294967296 ->
  Z.of_nat (length result0) = H * W ->
  0 <= i < H -> 0 <= j < W ->
  let result :=
    fast_slic_cluster_density_to_mask H W K clusters assignment densities result0 in
  length result = length result0 /\
  rd result (W * i + j)
  = if rd assignment (W * i + j) <? K
    then rd densities (rd assignment (W * i + j)) else 0.
Proof.
  intros HH HW Hsize HK Hlen0 Hi Hj result.
  unfold result, fast_slic_cluster_density_to_mask.
  set (inv := fun n res => length res = length result0 /\
    forall p, 0 <= p < n ->
      rd res p = if rd assignment p <? K then rd densities (rd assignment p) else 0).
  assert (Hinv : inv (H * W)
    (for_range 0 H (fun i => for_range 0 W (fun j result =>
       let cluster_no := rd assignment (int_add (int_mul W i) j) in
       if cluster_no <? to_uint32 K
       then wr result (int_add (int_mul W i) j) (rd densities cluster_no)
       else wr result (int_add (int_mul W i) j) 0)) result0)).
  { apply (for_pixels_ind inv); [lia | lia | split; [done | intros; lia] |].
    intros i' j' res Hi' Hj' [Hlen Hres].
    destruct (pixel_index H W i' j' Hi' Hj' ltac:(lia)) as [-> Hp].
    set (q := W * i' + j') in *. cbv zeta.
    rewrite to_uint32_small by lia.
    split; [destruct (rd assignment q <? K); by rewrite length_wr |].
    intros p Hp'. destruct (Z.eq_dec q p) as [<- | Hne].
    - destruct (rd assignment q <? K); by rewrite rd_wr_eq by lia.
    - destruct (rd assignment q <? K); rewrite rd_wr_ne by done; apply Hres; lia. }
  destruct Hinv as [Hl Hres]. split; [exact Hl |]. apply Hres. nia.
Qed.

Lemma cluster_density_to_mask_values_witness :
  let result :=
    fast_slic_cluster_density_to_mask 2 2 2 mask_clusters mask_labels [15; 30]
      [7; 7; 7; 7] in
  length result = 4%nat /\ rd result 3 = 0.
Proof.
  exact (cluster_density_to_mask_values 2 2 2 mask_clusters mask_labels [15; 30]
           [7; 7; 7; 7] 1 1 ltac:(lia) ltac:(lia) ltac:(lia) ltac:(lia)
           ltac:(reflexivity) ltac:(lia) ltac:(lia)).
Defined.

(** ** Pixel-adjacency builder: the hashtable *)

Lemma symmetric_int_hash_comm a c : symmetric_int_hash a c = symmetric_int_hash c a.
Proof. unfold symmetric_int_hash. f_equal. lia. Qed.

Lemma hash_idx_comm K a c : hash_idx K a c = hash_idx K c a.
Proof. unfold hash_idx. by rewrite symmetric_int_hash_comm. Qed.

Lemma slot_set_comm K hashtable a c : slot_set K hashtable a c -> slot_set K hashtable c a.
Proof. unfold slot_set. by rewrite (hash_idx_comm K a c). Qed.

Lemma hash_idx_range K a c :
  0 < K <= 65535 -> 0 <= hash_idx K a c < K * 32.
Proof.
  intros HK. unfold hash_idx, int_mul.
  rewrite to_int32_small, to_uint32_small by lia.
  apply Z.rem_bound_pos; [| lia].
  unfold symmetric_int_hash, to_uint32. apply Z.mod_pos_bound. lia.
Qed.

Lemma hash_bit_pos r : 0 <= r < 32 -> 0 < to_uint32 (Z.shiftl 1 r).
Proof.
  intros Hr. rewrite Z.shiftl_1_l.
  assert (2 ^ r < 2 ^ 32) by (apply Z.pow_lt_mono_r; lia).
  assert (0 < 2 ^ r) by (apply Z.pow_pos_nonneg; lia).
  rewrite to_uint32_small; lia.
Qed.

(** Setting a bit of the hashtable clears none. *)
Lemma slot_set_mono K hashtable q bit a c :
  slot_set K hashtable a c ->
  slot_set K (wr hashtable q (Z.lor (rd hashtable q) bit)) a c.
Proof.
  unfold slot_set. intros Hset.
  set (q' := Z.quot (hash_idx K a c) 32) in *.
  destruct (Z.eq_dec q q') as [<- | Hne]; [| by rewrite rd_wr_ne by done].
  destruct (Z_lt_dec q 0) as [Hneg |].
  { unfold wr. destruct (Z.leb_spec 0 q); [lia | done]. }
  destruct (Z_lt_dec q (Z.of_nat (length hashtable))) as [Hin | Hout].
  - rewrite rd_wr_eq by lia. rewrite Z.land_lor_distr_l.
    intros E. apply Z.lor_eq_0_iff in E. tauto.
  - unfold wr. destruct (0 <=? q); [| done].
    rewrite list_insert_ge by lia. done.
Qed.

Lemma slot_set_wr K hashtable a c :
  0 < K <= 65535 -> Z.of_nat (length hashtable) = K ->
  let q := Z.quot (hash_idx K a c) 32 in
  let bit := to_uint32 (Z.shiftl 1 (Z.rem (hash_idx K a c) 32)) in
  slot_set K (wr hashtable q (Z.lor (rd hashtable q) bit)) a c.
Proof.
  intros HK Hlen q bit. unfold slot_set. fold q bit.
  pose proof (hash_idx_range K a c HK) as Hh.
  assert (Hq : 0 <= q < K).
  { unfold q. split; [apply Z.quot_pos; lia |]. apply Z.quot_lt_upper_bound; lia. }
  assert (Hb : 0 < bit).
  { apply hash_bit_pos. apply Z.rem_bound_pos; lia. }
  rewrite rd_wr_eq by lia. rewrite Z.land_lor_distr_l, Z.land_diag.
  intros E. apply Z.lor_eq_0_iff in E. lia.
Qed.

(** What one expansion of the macro does to the hashtable and to the local
    count: nothing, or the bit of the pair is set and the count goes up by
    one; in the second case the target was not among the neighbors of the
    source if the bit was set before. *)
Lemma CONNECTIVITY_SEARCH_table K assignment source target_index conn hashtable n :
  let target := rd assignment target_index in
  let q := Z.quot (hash_idx K source target) 32 in
  let bit := to_uint32 (Z.shiftl 1 (Z.rem (hash_idx K source target) 32)) in
  match CONNECTIVITY_SEARCH K assignment source target_index (conn, hashtable, n) with
  | (conn', hashtable', n') =>
      (conn', hashtable', n') = (conn, hashtable, n)
      \/ (n' = int_add n 1 /\
          hashtable' = wr hashtable q (Z.lor (rd hashtable q) bit) /\
          (slot_set K hashtable source target ->
           ~ In target (take (Z.to_nat n) (row_at (neighbors conn) source))))
  end.
Proof.
  intros target q bit. unfold CONNECTIVITY_SEARCH. fold target.
  destruct ((to_uint32 K <=? target) || (source =? target)); [by left |].
  destruct ((max_conn <=? n) || (max_conn <=? rd (num_neighbors conn) target));
    [by left |].
  fold (hash_idx K source target). fold q bit.
  destruct (Z.eqb_spec (Z.land (rd hashtable q) bit) 0) as [E0 | Eset]; cbn [negb andb].
  - right. split; [done |]. split; [done |]. unfold slot_set. fold q bit. done.
  - destruct (existsb (Z.eqb target) _) eqn:E1; [by left |].
    destruct (existsb (Z.eqb source) _) eqn:E2; [by left |].
    right. split; [done |]. split; [done |]. intros _ Hin.
    apply existsb_eqb_In in Hin. congruence.
Qed.

Section connectivity_table.
Variables (K : Z) (assignment : list Z).
Hypothesis HK : 0 < K <= 65535.
Hypothesis Hwords : Forall (fun l => 0 <= l) assignment.

Lemma CONNECTIVITY_SEARCH_table_ok source target_index conn hashtable n :
  conn_table_ok K (commit conn source n) hashtable ->
  0 <= source < K ->
  match CONNECTIVITY_SEARCH K assignment source target_index (conn, hashtable, n) with
  | (conn', hashtable', n') => conn_table_ok K (commit conn' source n') hashtable'
  end.
Proof using HK Hwords.
  intros (Hgood & Hlen & Hslot & Hnd) Hsrc.
  assert (HK' : 0 < K < 4294967296) by lia.
  pose proof (rd_assignment_nonneg assignment Hwords target_index) as Htgt0.
  pose proof (CONNECTIVITY_SEARCH_step K assignment (fun _ _ => True) HK' Hwords
                source target_index conn hashtable n Hgood Hsrc ltac:(done)) as Hstep.
  pose proof (CONNECTIVITY_SEARCH_cases K assignment HK' source target_index
                conn hashtable n (proj1 Hgood) Hsrc Htgt0) as Hcases.
  pose proof (CONNECTIVITY_SEARCH_table K assignment source target_index
                conn hashtable n) as Htable.
  cbv zeta in Hcases, Htable.
  destruct (CONNECTIVITY_SEARCH K assignment source target_index (conn, hashtable, n))
    as [[conn' hashtable'] n'].
  destruct Hstep as (Hgood' & _ & _).
  set (target := rd assignment target_index) in *.
  destruct Htable as [Esame | (En & Eh & Hnot)].
  { injection Esame as -> -> ->. done. }
  destruct Hgood as [Hshape Hgood].
  assert (Hn : 0 <= n <= 12).
  { destruct Hshape as (Hlc & _ & _ & Hcounts). simpl in Hlc, Hcounts.
    rewrite length_wr in Hlc.
    rewrite <- (rd_wr_eq (num_neighbors conn) source n) by lia. by apply Hcounts. }
  assert (Hlc : Z.of_nat (length (num_neighbors conn)) = K).
  { destruct Hshape as (Hlc & _). simpl in Hlc. by rewrite length_wr in Hlc. }
  assert (Hlc' : Z.of_nat (length (num_neighbors conn')) = K).
  { destruct Hgood' as [(Hlc' & _) _]. simpl in Hlc'. by rewrite length_wr in Hlc'. }
  destruct Hcases as [_ [[Heq _] | (Hlt & Hne & _ & _ & Hnl & _)]].
  { exfalso. apply (f_equal (fun v => rd (num_neighbors v) source)) in Heq.
    simpl in Heq. rewrite !rd_wr_eq in Heq by lia.
    unfold int_add in En. rewrite to_int32_small in En by lia. lia. }
  set (v := commit conn source n) in *. set (v' := commit conn' source n') in *.
  assert (Hin' : forall k c, 0 <= k < K ->
    In c (neighbor_list v' k) ->
    In c (neighbor_list v k)
    \/ (k = source /\ c = target) \/ (k = target /\ c = source)).
  { intros k c Hk. rewrite Hnl by done. rewrite in_app_iff.
    destruct (Z.eqb_spec k source) as [-> | Hks]; simpl; [intuition lia |].
    destruct (Z.eqb_spec k target) as [-> | Hkt]; simpl; intuition lia. }
  assert (Hfresh : ~ In target (neighbor_list v source)).
  { intros Hin. apply Hnot.
    - by apply Hslot.
    - unfold v in Hin. rewrite neighbor_list_commit in Hin.
      by rewrite rd_wr_eq in Hin by lia. }
  assert (Hfresh' : ~ In source (neighbor_list v target)).
  { intros Hin. apply Hfresh. apply (Hgood target source); [lia | done]. }
  split; [done |]. split; [rewrite Eh, length_wr; done |]. split.
  - intros a c Ha Hin. rewrite Eh.
    destruct (Hin' a c Ha Hin) as [Hold | [[-> ->] | [-> ->]]].
    + apply slot_set_mono. by apply Hslot.
    + by apply slot_set_wr.
    + apply slot_set_comm. by apply slot_set_wr.
  - intros a Ha. rewrite Hnl by done. apply NoDup_app.
    split; [by apply Hnd |]. split.
    + intros e He1 He2. apply list_elem_of_In in He1.
      destruct (Z.eqb_spec a source) as [-> | Has].
      * apply list_elem_of_singleton in He2 as ->. done.
      * destruct (Z.eqb_spec a target) as [-> | Hat].
        -- apply list_elem_of_singleton in He2 as ->. done.
        -- by apply elem_of_nil in He2.
    + destruct (a =? source); [apply NoDup_singleton |].
      destruct (a =? target); [apply NoDup_singleton | apply NoDup_nil_2].
Qed.

Lemma connectivity_pixel_table_ok W i j conn hashtable :
  conn_table_ok K conn hashtable ->
  match connectivity_pixel W K assignment i j (conn, hashtable) with
  | (conn', hashtable') => conn_table_ok K conn' hashtable'
  end.
Proof using HK Hwords.
  intros Hok. unfold connectivity_pixel.
  set (base_index := int_add (int_mul W i) j).
  set (source := rd assignment base_index).
  rewrite to_uint32_small by lia.
  destruct (Z.leb_spec K source) as [Hge | Hlt]; [done |].
  assert (Hsrc : 0 <= source < K)
    by (pose proof (rd_assignment_nonneg assignment Hwords base_index);
        unfold source; lia).
  set (t3 := int_add (int_add base_index W) 1).
  set (t1 := int_add base_index 1). set (t2 := int_add base_index W).
  rewrite <- (commit_same conn source) in Hok.
  pose proof (CONNECTIVITY_SEARCH_table_ok source t1 conn hashtable _ Hok Hsrc) as H1.
  destruct (CONNECTIVITY_SEARCH K assignment source t1 _) as [[c1 h1] n1].
  pose proof (CONNECTIVITY_SEARCH_table_ok source t2 c1 h1 n1 H1 Hsrc) as H2.
  destruct (CONNECTIVITY_SEARCH K assignment source t2 _) as [[c2 h2] n2].
  pose proof (CONNECTIVITY_SEARCH_table_ok source t3 c2 h2 n2 H2 Hsrc) as H3.
  destruct (CONNECTIVITY_SEARCH K assignment source t3 _) as [[c3 h3] n3].
  exact H3.
Qed.

Lemma get_connectivity_nodup H W k :
  NoDup (neighbor_list (fast_slic_get_connectivity H W K assignment) k).
Proof using HK Hwords.
  assert (HK' : 0 < K < 4294967296) by lia.
  destruct (decide (0 <= k < K)) as [Hk | Hk]; cycle 1.
  { rewrite (neighbor_list_outside K); [apply NoDup_nil_2 | | done].
    apply (get_connectivity_good H W K assignment HK' Hwords). }
  unfold fast_slic_get_connectivity.
  set (P := fun st : Connectivity * list Z => conn_table_ok K st.1 st.2).
  assert (Hend : P (for_range 0 (H - 1) (fun i =>
       for_range 0 (W - 1) (fun j => connectivity_pixel W K assignment i j))
       (mkConnectivity K (replicate (Z.to_nat K) 0)
          (replicate (Z.to_nat K) (replicate (Z.to_nat max_conn) 0)),
        replicate (Z.to_nat K) 0))).
  { apply (for_range_inv P).
    - unfold P. simpl. split; [apply (conn0_good K HK') |].
      split; [rewrite length_replicate; lia |].
      assert (Hnil : forall a, 0 <= a < K ->
        neighbor_list (mkConnectivity K (replicate (Z.to_nat K) 0)
          (replicate (Z.to_nat K) (replicate (Z.to_nat max_conn) 0))) a = []).
      { intros a Ha. unfold neighbor_list. simpl. by rewrite rd_replicate by lia. }
      split.
      + intros a c Ha Hin. by rewrite Hnil in Hin.
      + intros a Ha. rewrite Hnil by done. apply NoDup_nil_2.
    - intros i st _ Hst. apply (for_range_inv P); [done |].
      intros j [conn hashtable] _ Hok. unfold P in *. simpl in Hok.
      pose proof (connectivity_pixel_table_ok W i j conn hashtable Hok) as Hstep.
      destruct (connectivity_pixel W K assignment i j (conn, hashtable)) as [conn' h'].
      exact Hstep. }
  destruct Hend as (_ & _ & _ & Hnd). by apply Hnd.
Qed.
End connectivity_table.

(** X8: no list of the record [fast_slic_get_connectivity] returns holds a
    cluster twice: the bit of the hashtable of a recorded pair stays set, so
    the search of the two lists is never skipped for a pair already
    recorded. *)
Theorem get_connectivity_no_duplicates H W K assignment k :
  0 < K <= 65535 ->
  Forall (fun l => 0 <= l < 4294967296) assignment ->
  NoDup (neighbor_list (fast_slic_get_connectivity H W K assignment) k).
Proof.
  intros HK Hwords. apply get_connectivity_nodup; [done |]. by apply words_nonneg.
Qed.

Lemma get_connectivity_no_duplicates_witness :
  NoDup (neighbor_list (fast_slic_get_connectivity 4 4 4 tiles_4x4) 0).
Proof.
  apply (get_connectivity_no_duplicates 4 4 4 tiles_4x4 0); [lia |].
  unfold tiles_4x4. repeat constructor; lia.
Defined.

(** X9: every entry of the record, also of a list that reached the cap, is a
    cluster of the array other than the owner of the list, and comes from a
    pair of pixels the scan looked at: one outside the last row and the last
    column and its right, lower or lower-right neighbor. *)
Theorem get_connectivity_sound H W K assignment a c :
  0 < H -> 0 < W -> H * W < 2147483648 ->
  0 < K <= 65535 ->
  Forall (fun l => 0 <= l < 4294967296) assignment ->
  In c (neighbor_list (fast_slic_get_connectivity H W K assignment) a) ->
  0 <= a < K /\ 0 <= c < K /\ c <> a /\
  (scanned_pair H W assignment a c \/ scanned_pair H W assignment c a).
Proof.
  intros HH HW Hsize HK Hwords Hin.
  destruct (get_connectivity_scanned H W K assignment ltac:(lia)
              (words_nonneg _ Hwords) HH HW Hsize) as [[Hshape Hgood] _].
  destruct (decide (0 <= a < K)) as [Ha | Ha].
  - split; [done |]. destruct (Hgood a c Ha Hin) as (Hc & Hne & _ & HE). done.
  - rewrite (neighbor_list_outside K) in Hin by done. done.
Qed.

Lemma get_connectivity_sound_witness :
  0 <= 0 < 4 /\ 0 <= 1 < 4 /\ 1 <> 0 /\
  (scanned_pair 4 4 tiles_4x4 0 1 \/ scanned_pair 4 4 tiles_4x4 1 0).
Proof.
  apply (get_connectivity_sound 4 4 4 tiles_4x4 0 1); try lia.
  - unfold tiles_4x4. repeat constructor; lia.
  - vm_compute. tauto.
Defined.

(** X10: on an image of one row or of one column the scan has no pixel to
    start from, and the record holds no neighbor at all. *)
Theorem get_connectivity_single_line H W K assignment k :
  H <= 1 \/ W <= 1 ->
  let conn := fast_slic_get_connectivity H W K assignment in
  num_neighbors conn = replicate (Z.to_nat K) 0 /\ neighbor_list conn k = [].
Proof.
  intros Hline conn.
  assert (E : conn = mkConnectivity K (replicate (Z.to_nat K) 0)
                (replicate (Z.to_nat K) (replicate (Z.to_nat max_conn) 0))).
  { unfold conn, fast_slic_get_connectivity.
    destruct (Z_le_dec H 1) as [HH | HH].
    - by rewrite for_range_empty by lia.
    - set (st0 := (_, _)).
      assert (Hst : for_range 0 (H - 1) (fun i =>
                for_range 0 (W - 1) (fun j => connectivity_pixel W K assignment i j))
                st0 = st0).
      { apply (for_range_inv (fun st => st = st0)); [done |].
        intros i st _ ->. apply for_range_empty. lia. }
      by rewrite Hst. }
  rewrite E. split; [done |]. unfold neighbor_list. simpl.
  destruct (decide (0 <= k < K)) as [Hk | Hk].
  - by rewrite rd_replicate by lia.
  - unfold rd. destruct (Z.leb_spec 0 k); [| done].
    rewrite lookup_ge_None_2; [done |]. rewrite length_replicate. lia.
Qed.

Lemma get_connectivity_single_line_witness :
  let conn := fast_slic_get_connectivity 1 4 2 [0; 1; 0; 1] in
  num_neighbors conn = [0; 0] /\ neighbor_list conn 0 = [].
Proof.
  apply (get_connectivity_single_line 1 4 2 [0; 1; 0; 1] 0). left. lia.
Defined.

(** ** Centroid-KNN builder: what the heap keeps *)

Lemma fold_left_rel {A S1 S2 : Type} (R : S1 -> S2 -> Prop)
    (f1 : S1 -> A -> S1) (f2 : S2 -> A -> S2) (l : list A) s1 s2 :
  R s1 s2 ->
  (forall a t1 t2, R t1 t2 -> R (f1 t1 a) (f2 t2 a)) ->
  R (fold_left f1 l s1) (fold_left f2 l s2).
Proof.
  intros H0 Hstep. revert s1 s2 H0.
  induction l as [| a l IH]; intros s1 s2 H0; simpl; [done |].
  apply IH. by apply Hstep.
Qed.

(** Two runs of the query scan visit the same clusters in the same order. *)
Lemma knn_scan_rel {S1 S2 : Type} (R : S1 -> S2 -> Prop) H W K clusters i
    (visit1 : Z -> S1 -> S1) (visit2 : Z -> S2 -> S2) s1 s2 :
  R s1 s2 ->
  (forall c t1 t2, R t1 t2 -> R (visit1 c t1) (visit2 c t2)) ->
  R (knn_scan H W K clusters i visit1 s1) (knn_scan H W K clusters i visit2 s2).
Proof.
  intros H0 Hstep. unfold knn_scan, for_range.
  apply fold_left_rel; [done |]. intros cy t1 t2 Ht.
  apply fold_left_rel; [done |]. intros cx u1 u2 Hu.
  apply fold_left_rel; [done |]. intros c w1 w2 Hw. by apply Hstep.
Qed.

(** The query scan is a fold over the clusters it looks at. *)
Lemma knn_scan_fold {St : Type} H W K clusters i (visit : Z -> St -> St) st :
  knn_scan H W K clusters i visit st
  = fold_left (fun s c => visit c s) (knn_scanned H W K clusters i) st.
Proof.
  unfold knn_scanned.
  apply (knn_scan_rel (fun s seen => s = fold_left (fun s c => visit c s) seen st));
    [done |].
  intros c t1 t2 ->. by rewrite fold_left_app.
Qed.

Lemma push_heap_In e e' heap : In e' (push_heap e heap) <-> e' = e \/ In e' heap.
Proof.
  induction heap as [| top rest IH]; simpl; [intuition |].
  destruct (pair_lt top e); simpl; [intuition |]. rewrite IH. intuition.
Qed.

Lemma push_heap_desc e heap : heap_desc heap -> heap_desc (push_heap e heap).
Proof.
  unfold heap_desc. induction 1 as [| top rest Hrest IH Htop]; simpl.
  - repeat constructor.
  - destruct (pair_lt top e) eqn:Elt.
    + assert (Hle : top.1 <= e.1).
      { unfold pair_lt in Elt. apply orb_true_iff in Elt as [Elt | Elt].
        - apply Z.ltb_lt in Elt. lia.
        - apply andb_true_iff in Elt as [Elt _]. apply Z.eqb_eq in Elt. lia. }
      constructor; [by constructor |]. constructor; [done |].
      eapply Forall_impl; [exact Htop |]. intros q Hq. simpl in Hq. lia.
    + assert (Hle : e.1 <= top.1).
      { unfold pair_lt in Elt. apply orb_false_iff in Elt as [Elt _].
        apply Z.ltb_ge in Elt. done. }
      constructor; [done |]. by apply push_heap_Forall.
Qed.

Lemma shrink_heap_desc n heap : heap_desc heap -> heap_desc (shrink_heap n heap).
Proof.
  unfold heap_desc. induction 1 as [| top rest Hrest IH Htop]; [constructor |].
  cbn [shrink_heap]. destruct (n <? _); [done | by constructor].
Qed.

Lemma shrink_heap_In n e heap : In e (shrink_heap n heap) -> In e heap.
Proof.
  induction heap as [| top rest IH]; [done |].
  cbn [shrink_heap]. destruct (n <? _); [| done]. intros Hin. right. by apply IH.
Qed.

(** Dropping the greatest entries of a heap that keeps at least one leaves
    an entry at least as near as any it held. *)
Lemma shrink_heap_nearest n heap d :
  1 <= n -> heap_desc heap ->
  (exists e, In e heap /\ e.1 <= d) ->
  exists e, In e (shrink_heap n heap) /\ e.1 <= d.
Proof.
  intros Hn. unfold heap_desc. induction 1 as [| top rest Hrest IH Htop]; [done |].
  intros (e & Hin & Hle). cbn [shrink_heap].
  destruct (Z.ltb_spec n (Z.of_nat (length (top :: rest)))) as [Hlong | Hshort];
    [| by exists e].
  apply IH. destruct Hin as [<- | Hin]; [| by exists e].
  destruct rest as [| next rest']; [simpl in Hlong; lia |].
  exists next. split; [by left |]. inversion Htop; subst. lia.
Qed.

Lemma knn_visit_ok clusters nn i seen c heap :
  1 <= nn ->
  knn_heap_ok clusters i seen heap ->
  knn_heap_ok clusters i (seen ++ [c]) (knn_visit clusters nn i c heap).
Proof.
  intros Hn (Hdesc & Hall & Hnear). unfold knn_visit.
  assert (Hall' : Forall (fun e => e.2 <> i /\ In e.2 (seen ++ [c])
                                   /\ e.1 = knn_distance clusters i e.2) heap).
  { eapply Forall_impl; [exact Hall |]. intros e (? & ? & ?).
    rewrite in_app_iff. tauto. }
  destruct (Z.eqb_spec c i) as [-> | Hne].
  { split; [done |]. split; [done |]. intros c' Hc' Hne'.
    apply in_app_iff in Hc' as [Hc' | [<- | []]]; [by apply Hnear | done]. }
  cbv zeta. fold (knn_distance clusters i c). set (d := knn_distance clusters i c).
  assert (Hpush : knn_heap_ok clusters i (seen ++ [c])
                    (shrink_heap nn (push_heap (d, c) heap))).
  { split; [by apply shrink_heap_desc, push_heap_desc |]. split.
    - apply shrink_heap_Forall, push_heap_Forall; [| done].
      simpl. rewrite in_app_iff. simpl. tauto.
    - intros c' Hc' Hne'. apply shrink_heap_nearest; [done | by apply push_heap_desc |].
      apply in_app_iff in Hc' as [Hc' | [<- | []]].
      + destruct (Hnear c' Hc' Hne') as (e & He & Hle).
        exists e. split; [| done]. apply push_heap_In. by right.
      + exists (d, c). split; [| simpl; lia]. apply push_heap_In. by left. }
  destruct heap as [| front rest]; [done |].
  destruct (Z.leb_spec front.1 d) as [Hskip | Hpushed]; [| done].
  split; [done |]. split; [done |]. intros c' Hc' Hne'.
  apply in_app_iff in Hc' as [Hc' | [<- | []]]; [by apply Hnear |].
  exists front. split; [by left | done].
Qed.

Lemma knn_heap_fold_ok clusters nn i seen :
  1 <= nn ->
  knn_heap_ok clusters i seen
    (fold_left (fun heap c => knn_visit clusters nn i c heap) seen []).
Proof.
  intros Hn. induction seen as [| c seen IH] using rev_ind.
  - split; [constructor |]. split; [constructor | done].
  - rewrite fold_left_app. simpl. by apply knn_visit_ok.
Qed.

(** Without the nearest-first guarantee the heap still holds only clusters
    the query looked at. *)
Lemma knn_heap_fold_seen clusters nn i seen :
  Forall (fun e => In e.2 seen)
    (fold_left (fun heap c => knn_visit clusters nn i c heap) seen []).
Proof.
  induction seen as [| c seen IH] using rev_ind; [constructor |].
  rewrite fold_left_app. simpl. apply knn_visit_Forall.
  - intros d _. simpl. rewrite in_app_iff. simpl. tauto.
  - eapply Forall_impl; [exact IH |]. intros e He. simpl in *.
    rewrite in_app_iff. tauto.
Qed.

(** X11: with [num_neighbors >= 1], the list of a cluster holds a cluster at
    least as near as every other cluster its query looked at: the nearest
    cluster of the scan is never lost, whatever else the early [continue]
    drops. *)
Theorem knn_keeps_nearest H W K clusters nn i c :
  1 <= nn -> 0 <= i < K ->
  In c (knn_scanned H W K clusters i) -> c <> i ->
  let conn := fast_slic_knn_connectivity H W K clusters nn in
  exists c', In c' (knn_scanned H W K clusters i) /\ c' <> i /\
    In (number (cluster_at clusters c')) (row_at (neighbors conn) i) /\
    knn_distance clusters i c' <= knn_distance clusters i c.
Proof.
  intros Hn Hi Hc Hne conn.
  destruct (knn_connectivity_rows H W K clusters nn i Hi) as [Hrow _].
  fold conn in Hrow. rewrite Hrow. unfold knn_heap. rewrite knn_scan_fold.
  destruct (knn_heap_fold_ok clusters nn i (knn_scanned H W K clusters i) Hn)
    as (_ & Hall & Hnear).
  destruct (Hnear c Hc Hne) as (e & He & Hle).
  rewrite Forall_forall in Hall.
  destruct (Hall e ltac:(by apply list_elem_of_In)) as (Hei & Hes & Hed).
  exists e.2. split; [done |]. split; [done |]. split; [| lia].
  apply in_map_iff. by exists e.
Qed.

Lemma grid_3x3_inside k :
  0 <= k < 9 ->
  0 <= y (cluster_at grid_3x3 k) < 30 /\ 0 <= x (cluster_at grid_3x3 k) < 30.
Proof.
  intros Hk.
  assert (Ek : k = 0 \/ k = 1 \/ k = 2 \/ k = 3 \/ k = 4 \/ k = 5 \/ k = 6
               \/ k = 7 \/ k = 8) by lia.
  repeat destruct Ek as [-> | Ek]; try subst k; vm_compute; repeat split; congruence.
Qed.

Lemma knn_keeps_nearest_witness :
  let conn := fast_slic_knn_connectivity 30 30 9 grid_3x3 4 in
  exists c', In c' (knn_scanned 30 30 9 grid_3x3 4) /\ c' <> 4 /\
    In (number (cluster_at grid_3x3 c')) (row_at (neighbors conn) 4) /\
    knn_distance grid_3x3 4 c' <= knn_distance grid_3x3 4 0.
Proof.
  apply (knn_keeps_nearest 30 30 9 grid_3x3 4 4 0); try lia.
  vm_compute. tauto.
Defined.

(** X12: the record of the KNN builder has one list per cluster, of the
    length its count gives and of at most [num_neighbors] entries, and every
    entry is the number of a cluster the query looked at, other than the
    query. *)
Theorem knn_lists_from_scan H W K clusters nn i :
  0 <= nn -> 0 <= i < K ->
  let conn := fast_slic_knn_connectivity H W K clusters nn in
  num_nodes conn = K /\
  rd (num_neighbors conn) i = Z.of_nat (length (row_at (neighbors conn) i)) /\
  Z.of_nat (length (row_at (neighbors conn) i)) <= nn /\
  forall v, In v (row_at (neighbors conn) i) ->
    exists c, In c (knn_scanned H W K clusters i) /\ c <> i /\
              v = number (cluster_at clusters c).
Proof.
  intros Hn Hi conn.
  destruct (knn_connectivity_rows H W K clusters nn i Hi) as [Hrow Hcount].
  fold conn in Hrow, Hcount. rewrite Hrow, Hcount, length_map.
  split.
  { unfold conn, fast_slic_knn_connectivity. by destruct (for_range 0 K _ _). }
  split; [done |]. split; [by apply knn_heap_size |].
  intros v Hv. apply in_map_iff in Hv as (e & <- & He).
  pose proof (knn_heap_others H W K clusters nn i) as Hothers.
  pose proof (knn_heap_fold_seen clusters nn i (knn_scanned H W K clusters i)) as Hseen.
  rewrite <- knn_scan_fold in Hseen. fold (knn_heap H W K clusters nn i) in Hseen.
  rewrite Forall_forall in Hothers, Hseen. apply list_elem_of_In in He.
  exists e.2. split; [by apply Hseen |]. split; [by apply Hothers | done].
Qed.

Lemma knn_lists_from_scan_witness :
  let conn := fast_slic_knn_connectivity 30 30 9 grid_3x3 4 in
  num_nodes conn = 9 /\
  rd (num_neighbors conn) 4 = Z.of_nat (length (row_at (neighbors conn) 4)) /\
  Z.of_nat (length (row_at (neighbors conn) 4)) <= 4 /\
  forall v, In v (row_at (neighbors conn) 4) ->
    exists c, In c (knn_scanned 30 30 9 grid_3x3 4) /\ c <> 4 /\
              v = number (cluster_at grid_3x3 c).
Proof.
  apply (knn_lists_from_scan 30 30 9 grid_3x3 4 4); lia.
Defined.

(** ** Centroid-KNN builder: the cells a query looks at *)

Lemma knn_S_pos H W K : 1 <= knn_S H W K.
Proof.
  unfold knn_S, my_max. set (s := to_int32 _).
  destruct (Z.ltb_spec s 1); lia.
Qed.

Lemma ceil_int_cells n S v :
  0 < n -> 1 <= S -> 0 <= v < n ->
  0 <= Z.quot v S < ceil_int n S /\ ceil_int n S <= n.
Proof.
  intros Hn HS Hv. unfold ceil_int. rewrite !Z.quot_div_nonneg by lia.
  replace (n + S - 1) with ((n - 1) + 1 * S) by lia.
  rewrite Z.div_add by lia.
  assert (v / S <= (n - 1) / S) by (apply Z.div_le_mono; lia).
  assert (0 <= v / S) by (apply Z.div_pos; lia).
  assert ((n - 1) / S <= n - 1).
  { apply Z.div_le_upper_bound; [lia |].
    assert (0 <= (S - 1) * (n - 1)) by (apply Z.mul_nonneg_nonneg; lia). lia. }
  lia.
Qed.

(** Membership in what a loop appends to a list. *)
Lemma in_for_range (G : Z -> Z -> Prop) lo hi (body : Z -> list Z -> list Z) seen0 :
  (forall k seen c, lo <= k < hi -> In c (body k seen) <-> In c seen \/ G k c) ->
  forall c, In c (for_range lo hi body seen0)
            <-> In c seen0 \/ exists k, lo <= k < hi /\ G k c.
Proof.
  intros Hbody. destruct (Z.le_gt_cases lo hi) as [Hle | Hgt].
  - apply (for_range_ind (fun n seen => forall c,
      In c seen <-> In c seen0 \/ exists k, lo <= k < n /\ G k c)); [done | |].
    + intros c. split; [tauto |]. intros [? | (k & ? & _)]; [done | lia].
    + intros n seen Hn IH c. rewrite Hbody by done. rewrite IH. split.
      * intros [[? | (k & ? & ?)] | ?]; [tauto | |].
        -- right. exists k. split; [lia | done].
        -- right. exists n. split; [lia | done].
      * intros [? | (k & Hk & HG)]; [tauto |].
        destruct (Z.eq_dec k n) as [-> | ?]; [tauto |].
        left. right. exists k. split; [lia | done].
  - rewrite for_range_empty by lia. intros c. split; [tauto |].
    intros [? | (k & ? & _)]; [done | lia].
Qed.

(** A loop that appends disjoint lists without repetition keeps the list
    free of repetition. *)
Lemma nodup_for_range (G : Z -> Z -> Prop) lo hi (body : Z -> list Z -> list Z) seen0 :
  (forall k seen c, lo <= k < hi -> In c (body k seen) <-> In c seen \/ G k c) ->
  (forall k seen, lo <= k < hi -> NoDup seen ->
     (forall c, In c seen -> ~ G k c) -> NoDup (body k seen)) ->
  (forall k k' c, lo <= k < hi -> lo <= k' < hi -> G k c -> G k' c -> k = k') ->
  NoDup seen0 ->
  (forall k c, lo <= k < hi -> In c seen0 -> ~ G k c) ->
  NoDup (for_range lo hi body seen0).
Proof.
  intros Hbody Hnd Huniq H0 Hfresh. destruct (Z.le_gt_cases lo hi) as [Hle | Hgt];
    [| by rewrite for_range_empty by lia].
  assert (Hinv : (fun n seen => NoDup seen /\ forall c,
      In c seen <-> In c seen0 \/ exists k, lo <= k < n /\ G k c)
    hi (for_range lo hi body seen0)); [| apply Hinv].
  apply for_range_ind; [done | |].
  - split; [done |]. intros c. split; [tauto |].
    intros [? | (k & ? & _)]; [done | lia].
  - intros n seen Hn [Hseen IH]. split.
    + apply Hnd; [done | done |]. intros c Hc HG. apply IH in Hc as [Hc | (k & Hk & HG')].
      * by apply (Hfresh n c).
      * pose proof (Huniq n k c ltac:(lia) ltac:(lia) HG HG'). lia.
    + intros c. rewrite Hbody by done. rewrite IH. split.
      * intros [[? | (k & ? & ?)] | ?]; [tauto | |].
        -- right. exists k. split; [lia | done].
        -- right. exists n. split; [lia | done].
      * intros [? | (k & Hk & HG)]; [tauto |].
        destruct (Z.eq_dec k n) as [-> | ?]; [tauto |].
        left. right. exists k. split; [lia | done].
Qed.

Lemma fold_left_snoc_app (cell seen : list Z) :
  fold_left (fun st cluster_around => st ++ [cluster_around]) cell seen = seen ++ cell.
Proof.
  revert seen. induction cell as [| c cell IH]; intros seen; simpl.
  - by rewrite app_nil_r.
  - rewrite IH, <- app_assoc. reflexivity.
Qed.

Section knn_grid.
Variables (H W K : Z) (clusters : list Cluster).
Hypothesis HH : 0 < H.
Hypothesis HW : 0 < W.
Hypothesis Hsize : H * W < 2147483648.
Hypothesis Hinside : forall c, 0 <= c < K ->
  0 <= y (cluster_at clusters c) < H /\ 0 <= x (cluster_at clusters c) < W.

Let S := knn_S H W K.
Let nh := ceil_int H S.
Let nw := ceil_int W S.
Let cell_of (c : Z) : Z :=
  Z.quot (y (cluster_at clusters c)) S * nw + Z.quot (x (cluster_at clusters c)) S.

Lemma knn_cell_range c :
  0 <= c < K ->
  0 <= Z.quot (y (cluster_at clusters c)) S < nh /\
  0 <= Z.quot (x (cluster_at clusters c)) S < nw /\
  nh <= H /\ nw <= W.
Proof using HH HW Hinside.
  intros Hc. destruct (Hinside c Hc) as [Hy Hx].
  pose proof (knn_S_pos H W K) as HS. fold S in HS.
  destruct (ceil_int_cells H S _ HH HS Hy), (ceil_int_cells W S _ HW HS Hx).
  unfold nh, nw. lia.
Qed.

Lemma knn_grid_index cy cx :
  0 <= cy < nh -> 0 <= cx < nw ->
  int_add (int_mul cy nw) cx = cy * nw + cx /\ 0 <= cy * nw + cx < nh * nw.
Proof using HH HW Hsize.
  intros Hcy Hcx.
  pose proof (knn_S_pos H W K) as HS. fold S in HS.
  assert (nh <= H) by (apply (ceil_int_cells H S 0); lia).
  assert (nw <= W) by (apply (ceil_int_cells W S 0); lia).
  assert (0 <= cy * nw + cx < nh * nw) by nia.
  assert (nh * nw <= H * W) by nia.
  assert (0 <= cy * nw <= cy * nw + cx) by nia.
  unfold int_add, int_mul. rewrite !to_int32_small; rewrite ?to_int32_small; lia.
Qed.

(** Every cluster is filed once, in the cell of its centre. *)
Lemma knn_cells_rows idx :
  0 <= idx < nh * nw ->
  NoDup (row_at (knn_cells H W K clusters) idx) /\
  forall c, In c (row_at (knn_cells H W K clusters) idx)
            <-> 0 <= c < K /\ cell_of c = idx.
Proof using HH HW Hsize Hinside.
  intros Hidx. unfold knn_cells. fold S nh nw.
  assert (Hnh : 0 <= nh <= H /\ 0 <= nw <= W).
  { pose proof (knn_S_pos H W K) as HS. fold S in HS.
    pose proof (ceil_int_cells H S 0 HH HS ltac:(lia)).
    pose proof (ceil_int_cells W S 0 HW HS ltac:(lia)). unfold nh, nw. lia. }
  assert (Hnn : 0 <= nh * nw <= H * W) by nia.
  assert (Hgrid : int_mul nh nw = nh * nw).
  { unfold int_mul. rewrite to_int32_small; [done |]. lia. }
  rewrite Hgrid.
  destruct (Z.le_gt_cases 0 K) as [HK | HK]; cycle 1.
  { rewrite for_range_empty by lia. rewrite row_at_replicate by lia.
    split; [apply NoDup_nil_2 |]. intros c. split; [done | lia]. }
  revert idx Hidx.
  set (inv := fun (n : Z) (cells : list (list Z)) =>
    Z.of_nat (length cells) = nh * nw /\
    forall idx, 0 <= idx < nh * nw ->
      NoDup (row_at cells idx) /\
      forall c, In c (row_at cells idx) <-> 0 <= c < n /\ cell_of c = idx).
  apply (for_range_ind inv); [done | |].
  - split; [rewrite length_replicate; lia |]. intros idx Hidx.
    rewrite row_at_replicate by lia.
    split; [apply NoDup_nil_2 |]. intros c. split; [done | lia].
  - intros n cells Hn [Hlen Hcells].
    destruct (knn_cell_range n ltac:(lia)) as (Hy & Hx & _).
    destruct (knn_grid_index _ _ Hy Hx) as [Ecell Hcell].
    cbv zeta. rewrite Ecell. fold (cell_of n).
    split; [by rewrite length_set_row |]. intros idx Hidx.
    destruct (Hcells idx Hidx) as [Hnd Hin].
    destruct (Z.eq_dec (cell_of n) idx) as [<- | Hne].
    + rewrite row_at_set_row_eq by (fold (cell_of n) in Hcell; lia). split.
      * apply NoDup_app. split; [done |]. split; [| apply NoDup_singleton].
        intros e He ->%list_elem_of_singleton.
        apply list_elem_of_In, Hin in He. lia.
      * intros c. rewrite in_app_iff, Hin. simpl. split.
        -- intros [[? ?] | [<- | []]]; split; (lia || done).
        -- intros [Hc Ecell']. destruct (Z.eq_dec c n) as [-> | ?]; [tauto |].
           left. split; [lia | done].
    + rewrite row_at_set_row_ne by done. split; [done |].
      intros c. rewrite Hin. split.
      * intros [? ?]. split; [lia | done].
      * intros [Hc Ecell']. split; [| done].
        destruct (Z.eq_dec c n) as [-> | ?]; [done | lia].
Qed.

Lemma knn_cells_filed idx c :
  0 <= idx < nh * nw ->
  In c (row_at (knn_cells H W K clusters) idx) <-> 0 <= c < K /\ cell_of c = idx.
Proof using HH HW Hsize Hinside. intros Hidx. by apply knn_cells_rows. Qed.

(** A cell index determines its row and its column. *)
Lemma knn_grid_index_inj cy cx cy' cx' :
  0 <= cx < nw -> 0 <= cx' < nw ->
  cy * nw + cx = cy' * nw + cx' -> cy = cy' /\ cx = cx'.
Proof.
  intros Hcx Hcx' E.
  assert (cy = cy'); [| subst; lia].
  destruct (Z.lt_trichotomy cy cy') as [? | [? | ?]]; [| done |].
  - assert ((cy + 1) * nw <= cy' * nw) by (apply Z.mul_le_mono_nonneg_r; lia). lia.
  - assert ((cy' + 1) * nw <= cy * nw) by (apply Z.mul_le_mono_nonneg_r; lia). lia.
Qed.

Lemma knn_scanned_window i c :
  0 <= i < K ->
  In c (knn_scanned H W K clusters i)
  <-> 0 <= c < K /\ knn_window S (cluster_at clusters i) (cluster_at clusters c).
Proof using HH HW Hsize Hinside.
  intros Hi. unfold knn_scanned, knn_scan. fold S nh nw.
  set (qy := Z.quot (y (cluster_at clusters i)) S).
  set (qx := Z.quot (x (cluster_at clusters i)) S).
  destruct (knn_cell_range i Hi) as (Hqy & Hqx & _). fold qy qx in Hqy, Hqx.
  set (lo_y := my_max (qy - 3) 0). set (hi_y := my_min nh (qy + 3)).
  set (lo_x := my_max (qx - 3) 0). set (hi_x := my_min nw (qx + 3)).
  assert (Hlo_y : lo_y = Z.max (qy - 3) 0)
    by (unfold lo_y, my_max; destruct (Z.ltb_spec (qy - 3) 0); lia).
  assert (Hhi_y : hi_y = Z.min nh (qy + 3))
    by (unfold hi_y, my_min; destruct (Z.ltb_spec nh (qy + 3)); lia).
  assert (Hlo_x : lo_x = Z.max (qx - 3) 0)
    by (unfold lo_x, my_max; destruct (Z.ltb_spec (qx - 3) 0); lia).
  assert (Hhi_x : hi_x = Z.min nw (qx + 3))
    by (unfold hi_x, my_min; destruct (Z.ltb_spec nw (qx + 3)); lia).
  set (G := fun cy c => exists cx, lo_x <= cx < hi_x /\
    In c (row_at (knn_cells H W K clusters) (int_add (int_mul cy nw) cx))).
  rewrite (in_for_range G).
  - unfold G, knn_window. fold qy qx. split.
    + intros [[] | (cy & Hcy & cx & Hcx & Hin)].
      destruct (knn_grid_index cy cx ltac:(lia) ltac:(lia)) as [Eidx Hidx].
      rewrite Eidx in Hin. apply knn_cells_filed in Hin as [Hc Ecell]; [| done].
      destruct (knn_cell_range c Hc) as (Hcy' & Hcx' & _). unfold cell_of in Ecell.
      set (py := Z.quot (y (cluster_at clusters c)) S) in *.
      set (px := Z.quot (x (cluster_at clusters c)) S) in *.
      assert (py = cy).
      { destruct (Z.lt_trichotomy py cy) as [? | [? | ?]]; [| done |].
        - assert ((py + 1) * nw <= cy * nw) by (apply Z.mul_le_mono_nonneg_r; lia). lia.
        - assert ((cy + 1) * nw <= py * nw) by (apply Z.mul_le_mono_nonneg_r; lia). lia. }
      subst cy. split; [done |]. lia.
    + intros (Hc & Hy & Hx). right.
      destruct (knn_cell_range c Hc) as (Hcy' & Hcx' & _).
      set (py := Z.quot (y (cluster_at clusters c)) S) in *.
      set (px := Z.quot (x (cluster_at clusters c)) S) in *.
      exists py. split; [lia |]. exists px. split; [lia |].
      destruct (knn_grid_index py px ltac:(lia) ltac:(lia)) as [Eidx Hidx].
      rewrite Eidx. apply knn_cells_filed; [done |]. done.
  - intros cy seen c' Hcy.
    rewrite (in_for_range (fun cx c => In c (row_at (knn_cells H W K clusters)
                                           (int_add (int_mul cy nw) cx)))).
    + unfold G. reflexivity.
    + intros cx seen' c'' Hcx. rewrite fold_left_snoc_app, in_app_iff. reflexivity.
Qed.
(** No cluster is looked at twice. *)
Lemma knn_scanned_nodup i :
  0 <= i < K -> NoDup (knn_scanned H W K clusters i).
Proof using HH HW Hsize Hinside.
  intros Hi. unfold knn_scanned, knn_scan. fold S nh nw.
  set (qy := Z.quot (y (cluster_at clusters i)) S).
  set (qx := Z.quot (x (cluster_at clusters i)) S).
  destruct (knn_cell_range i Hi) as (Hqy & Hqx & _). fold qy qx in Hqy, Hqx.
  set (lo_y := my_max (qy - 3) 0). set (hi_y := my_min nh (qy + 3)).
  set (lo_x := my_max (qx - 3) 0). set (hi_x := my_min nw (qx + 3)).
  assert (Hlo_y : 0 <= lo_y)
    by (unfold lo_y, my_max; destruct (Z.ltb_spec (qy - 3) 0); lia).
  assert (Hhi_y : hi_y <= nh)
    by (unfold hi_y, my_min; destruct (Z.ltb_spec nh (qy + 3)); lia).
  assert (Hlo_x : 0 <= lo_x)
    by (unfold lo_x, my_max; destruct (Z.ltb_spec (qx - 3) 0); lia).
  assert (Hhi_x : hi_x <= nw)
    by (unfold hi_x, my_min; destruct (Z.ltb_spec nw (qx + 3)); lia).
  set (Gx := fun cy cx c => In c (row_at (knn_cells H W K clusters)
                                    (int_add (int_mul cy nw) cx))).
  set (G := fun cy c => exists cx, lo_x <= cx < hi_x /\ Gx cy cx c).
  assert (Hcell : forall cy cx c, lo_y <= cy < hi_y -> lo_x <= cx < hi_x ->
    Gx cy cx c -> cell_of c = cy * nw + cx).
  { intros cy cx c Hcy Hcx Hin. unfold Gx in Hin.
    destruct (knn_grid_index cy cx ltac:(lia) ltac:(lia)) as [Eidx Hidx].
    rewrite Eidx in Hin. by apply knn_cells_filed in Hin as [_ ?]. }
  assert (Hinner : forall cy seen c, lo_y <= cy < hi_y ->
    In c (for_range lo_x hi_x (fun cx st =>
            fold_left (fun st cluster_around => st ++ [cluster_around])
              (row_at (knn_cells H W K clusters) (int_add (int_mul cy nw) cx)) st) seen)
    <-> In c seen \/ G cy c).
  { intros cy seen c Hcy. rewrite (in_for_range (Gx cy)); [done |].
    intros cx seen' c' Hcx. rewrite fold_left_snoc_app, in_app_iff. done. }
  apply (nodup_for_range G lo_y hi_y).
  - intros cy seen c Hcy. by apply Hinner.
  - intros cy seen Hcy Hseen Hfresh.
    apply (nodup_for_range (Gx cy) lo_x hi_x).
    + intros cx seen' c' Hcx. rewrite fold_left_snoc_app, in_app_iff. done.
    + intros cx seen' Hcx Hseen' Hfresh'. rewrite fold_left_snoc_app.
      apply NoDup_app. split; [done |]. split.
      * intros e He He'. apply list_elem_of_In in He, He'. by apply (Hfresh' e).
      * destruct (knn_grid_index cy cx ltac:(lia) ltac:(lia)) as [Eidx Hidx].
        rewrite Eidx. by apply knn_cells_rows.
    + intros cx cx' c Hcx Hcx' H1 H2.
      pose proof (Hcell cy cx c Hcy Hcx H1) as E1.
      pose proof (Hcell cy cx' c Hcy Hcx' H2) as E2.
      rewrite E1 in E2. apply knn_grid_index_inj in E2; lia.
    + done.
    + intros cx c Hcx Hc HG. apply (Hfresh c Hc). by exists cx.
  - intros cy cy' c Hcy Hcy' (cx & Hcx & H1) (cx' & Hcx' & H2).
    pose proof (Hcell cy cx c Hcy Hcx H1) as E1.
    pose proof (Hcell cy' cx' c Hcy' Hcx' H2) as E2.
    rewrite E1 in E2. apply knn_grid_index_inj in E2; lia.
  - apply NoDup_nil_2.
  - done.
Qed.
End knn_grid.

(** X13: with every centre inside the image, the query for cluster [i] looks
    at exactly the clusters whose cell lies from 3 cells before the cell of
    [i] to 2 cells after it, in each axis: a block of at most 6 by 6 cells. *)
Theorem knn_scan_window H W K clusters i c :
  0 < H -> 0 < W -> H * W < 2147483648 ->
  (forall k, 0 <= k < K ->
     0 <= y (cluster_at clusters k) < H /\ 0 <= x (cluster_at clusters k) < W) ->
  0 <= i < K ->
  In c (knn_scanned H W K clusters i)
  <-> 0 <= c < K /\
      knn_window (knn_S H W K) (cluster_at clusters i) (cluster_at clusters c).
Proof. intros. by apply knn_scanned_window. Qed.

Lemma knn_scan_window_witness :
  In 8 (knn_scanned 30 30 9 grid_3x3 0)
  <-> 0 <= 8 < 9 /\
      knn_window (knn_S 30 30 9) (cluster_at grid_3x3 0) (cluster_at grid_3x3 8).
Proof.
  apply (knn_scan_window 30 30 9 grid_3x3 0 8); try lia.
  apply grid_3x3_inside.
Defined.

Lemma push_heap_nodup e heap :
  ~ In e.2 (map snd heap) -> NoDup (map snd heap) ->
  NoDup (map snd (push_heap e heap)).
Proof.
  induction heap as [| top rest IH]; intros Hfresh Hnd; simpl.
  - apply NoDup_singleton.
  - destruct (pair_lt top e); simpl.
    + apply NoDup_cons. split; [| done]. intros Hin. by apply list_elem_of_In in Hin.
    + simpl in Hfresh, Hnd. apply NoDup_cons in Hnd as [Htop Hrest].
      apply NoDup_cons. split; [| apply IH; [tauto | done]].
      intros Hin. apply list_elem_of_In, in_map_iff in Hin as (e' & E & Hin).
      apply push_heap_In in Hin as [-> | Hin]; [apply Hfresh; by left |].
      apply Htop. apply list_elem_of_In, in_map_iff. by exists e'.
Qed.

Lemma shrink_heap_nodup n heap :
  NoDup (map snd heap) -> NoDup (map snd (shrink_heap n heap)).
Proof.
  induction heap as [| top rest IH]; intros Hnd; [done |].
  cbn [shrink_heap]. destruct (n <? _); [| done].
  simpl in Hnd. apply NoDup_cons in Hnd as [_ Hrest]. by apply IH.
Qed.

Lemma knn_heap_fold_nodup clusters nn i seen :
  NoDup seen ->
  NoDup (map snd (fold_left (fun heap c => knn_visit clusters nn i c heap) seen [])).
Proof.
  induction seen as [| c seen IH] using rev_ind; intros Hnd; [apply NoDup_nil_2 |].
  apply NoDup_app in Hnd as (Hseen & Hfresh & _).
  rewrite fold_left_app. simpl.
  pose proof (knn_heap_fold_seen clusters nn i seen) as Hin.
  set (heap := fold_left _ seen []) in *. specialize (IH Hseen).
  assert (Hc : ~ In c (map snd heap)).
  { intros Hc. apply in_map_iff in Hc as (e & <- & He).
    rewrite Forall_forall in Hin. apply list_elem_of_In in He.
    apply (Hfresh e.2); [by apply list_elem_of_In, Hin | by left]. }
  unfold knn_visit. destruct (c =? i); [done |]. cbv zeta. set (d := int_add _ _).
  assert (NoDup (map snd (shrink_heap nn (push_heap (d, c) heap))))
    by (by apply shrink_heap_nodup, push_heap_nodup).
  destruct heap as [| front rest]; [done |].
  destruct (front.1 <=? d); done.
Qed.

Lemma NoDup_map_inj_on {A B : Type} (f : A -> B) (l : list A) :
  (forall a b, In a l -> In b l -> f a = f b -> a = b) ->
  NoDup l -> NoDup (map f l).
Proof.
  induction l as [| a l IH]; intros Hinj Hnd; [apply NoDup_nil_2 |].
  apply NoDup_cons in Hnd as [Ha Hl]. simpl. apply NoDup_cons. split.
  - intros Hin. apply list_elem_of_In, in_map_iff in Hin as (b & E & Hb).
    assert (b = a) by (apply Hinj; [by right | by left | done]).
    subst. by apply Ha, list_elem_of_In.
  - apply IH; [| done]. intros b b' Hb Hb'. apply Hinj; by right.
Qed.

(** X14: with every centre inside the image and pairwise distinct cluster
    numbers, no list of the KNN builder holds a number twice: every cluster
    lies in one cell, and every cell is visited once. *)
Theorem knn_no_duplicates H W K clusters nn i :
  0 < H -> 0 < W -> H * W < 2147483648 ->
  (forall k, 0 <= k < K ->
     0 <= y (cluster_at clusters k) < H /\ 0 <= x (cluster_at clusters k) < W) ->
  Z.of_nat (length clusters) = K ->
  NoDup (map number clusters) ->
  0 <= i < K ->
  NoDup (row_at (neighbors (fast_slic_knn_connectivity H W K clusters nn)) i).
Proof.
  intros HH HW Hsize Hinside Hlen Hnum Hi.
  destruct (knn_connectivity_rows H W K clusters nn i Hi) as [-> _].
  rewrite <- (map_map snd (fun c => number (cluster_at clusters c))).
  pose proof (knn_heap_others H W K clusters nn i) as Hothers.
  apply NoDup_map_inj_on.
  - intros a b Ha Hb E.
    apply in_map_iff in Ha as (ea & <- & Ha), Hb as (eb & <- & Hb).
    rewrite Forall_forall in Hothers.
    apply list_elem_of_In in Ha, Hb. apply Hothers in Ha, Hb.
    apply (cluster_number_inj clusters); [done | lia | lia | done].
  - unfold knn_heap. rewrite knn_scan_fold. apply knn_heap_fold_nodup.
    by apply knn_scanned_nodup.
Qed.

Lemma knn_no_duplicates_witness :
  NoDup (row_at (neighbors (fast_slic_knn_connectivity 30 30 9 grid_3x3 4)) 4).
Proof.
  apply (knn_no_duplicates 30 30 9 grid_3x3 4 4); try lia.
  - apply grid_3x3_inside.
  - reflexivity.
  - apply NoDup_ListNoDup. vm_compute. repeat constructor; simpl; lia.
Defined.

(** ** Assignment kernel: accesses *)

Lemma wr_outside (a : list Z) p v :
  ~ 0 <= p < Z.of_nat (length a) -> wr a p v = a.
Proof.
  intros Hp. unfold wr. destruct (Z.leb_spec 0 p); [| done].
  apply list_insert_ge. lia.
Qed.

Lemma wr_wr_eq (a : list Z) p v v' : wr (wr a p v) p v' = wr a p v'.
Proof.
  unfold wr. destruct (0 <=? p); [| done]. apply list_insert_insert_eq.
Qed.

Lemma wr_wr_ne (a : list Z) p p' v v' :
  p <> p' -> wr (wr a p v) p' v' = wr (wr a p' v') p v.
Proof.
  intros Hne. unfold wr.
  destruct (Z.leb_spec 0 p), (Z.leb_spec 0 p'); try done.
  apply list_insert_insert_ne. lia.
Qed.


(** Two accesses give the same image in either order. *)
Lemma assign_access_comm o1 o2 (a : list Z) :
  assign_access o1 (assign_access o2 a) = assign_access o2 (assign_access o1 a).
Proof.
  destruct o1 as [p1 v1], o2 as [p2 v2]. unfold assign_access. cbn [fst snd].
  destruct (Z.eq_dec p1 p2) as [<- | Hne].
  - destruct (decide (0 <= p1 < Z.of_nat (length a))) as [Hin | Hout].
    + destruct (Z.ltb_spec v2 (rd a p1)), (Z.ltb_spec v1 (rd a p1));
        rewrite ?rd_wr_eq by lia;
        repeat match goal with
               | |- context [?u <? ?w] => destruct (Z.ltb_spec u w)
               end;
        rewrite ?wr_wr_eq; try done; try lia.
      assert (v1 = v2) by lia. by subst.
    + assert (Hw : forall v, wr a p1 v = a) by (intros; by apply wr_outside).
      destruct (v2 <? rd a p1) eqn:E2; destruct (v1 <? rd a p1) eqn:E1;
        rewrite ?Hw, ?E1, ?E2, ?Hw; done.
  - destruct (Z.ltb_spec v2 (rd a p2)), (Z.ltb_spec v1 (rd a p1));
      rewrite ?rd_wr_ne by done;
      repeat match goal with
             | |- context [?u <? ?w] => destruct (Z.ltb_spec u w)
             end;
      try done; try lia.
    by apply wr_wr_ne.
Qed.

Lemma fold_left_Permutation {A St : Type} (f : St -> A -> St) (l l' : list A) :
  (forall s x y, f (f s x) y = f (f s y) x) ->
  Permutation l l' -> forall s, fold_left f l s = fold_left f l' s.
Proof.
  intros Hcomm. induction 1 as [| x l l' _ IH | x y l | l l' l'' _ IH1 _ IH2];
    intros s; simpl.
  - done.
  - apply IH.
  - by rewrite Hcomm.
  - by rewrite IH1.
Qed.

(** Accesses made one at a time give the same image in every order. *)
Lemma assign_accesses_Permutation l l' a :
  Permutation l l' -> assign_accesses l a = assign_accesses l' a.
Proof.
  intros Hp. unfold assign_accesses. apply fold_left_Permutation; [| done].
  intros s o1 o2. apply assign_access_comm.
Qed.

Lemma assign_accesses_app l l' a :
  assign_accesses (l ++ l') a = assign_accesses l' (assign_accesses l a).
Proof. unfold assign_accesses. apply fold_left_app. Qed.

Lemma for_range_rel {S1 S2 : Type} (R : S1 -> S2 -> Prop) lo hi
    (body1 : Z -> S1 -> S1) (body2 : Z -> S2 -> S2) s1 s2 :
  R s1 s2 ->
  (forall k t1 t2, R t1 t2 -> R (body1 k t1) (body2 k t2)) ->
  R (for_range lo hi body1 s1) (for_range lo hi body2 s2).
Proof.
  intros H0 Hstep. unfold for_range. apply fold_left_rel; [done |].
  intros k t1 t2 Ht. by apply Hstep.
Qed.

(** The scan of one row makes the accesses of [assign_row_accesses], one at
    a time. *)
Lemma assign_row_accesses_spec ctx cluster x_lo x_hi i current_manhattan a :
  assign_row ctx cluster x_lo x_hi i current_manhattan a
  = assign_accesses (assign_row_accesses ctx cluster x_lo x_hi i current_manhattan) a.
Proof.
  unfold assign_row, assign_row_accesses.
  set (R := fun (s1 : list Z * Z) (s2 : list (Z * Z) * Z) =>
    s1.2 = s2.2 /\ s1.1 = assign_accesses s2.1 a).
  assert (HR : forall s1 s2, R s1 s2 -> s1.1 = assign_accesses s2.1 a)
    by (intros s1 s2 [_ E]; exact E).
  apply HR.
  apply for_range_rel.
  - apply for_range_rel; [done |].
    intros j [a1 m1] [l2 m2] [Em Ea]. simpl in Em, Ea. subst m2 a1.
    split; [done |]. simpl. by rewrite assign_accesses_app.
  - intros j [a1 m1] [l2 m2] [Em Ea]. simpl in Em, Ea. subst m2 a1.
    split; [done |]. simpl. by rewrite assign_accesses_app.
Qed.

(** One iteration of the loop over the sorted clusters makes the accesses of
    [assign_cluster_accesses], one at a time. *)
Lemma assign_cluster_accesses_spec ctx cluster a :
  assign_cluster ctx cluster a
  = assign_accesses (assign_cluster_accesses ctx cluster) a.
Proof.
  unfold assign_cluster, assign_cluster_accesses.
  set (R := fun (s1 : list Z * Z) (s2 : list (Z * Z) * Z) =>
    s1.2 = s2.2 /\ s1.1 = assign_accesses s2.1 a).
  assert (HR : forall s1 s2, R s1 s2 -> s1.1 = assign_accesses s2.1 a)
    by (intros s1 s2 [_ E]; exact E).
  apply HR.
  apply for_range_rel.
  - apply for_range_rel; [done |].
    intros i [a1 m1] [l2 m2] [Em Ea]. simpl in Em, Ea. subst m2 a1.
    split; [done |]. simpl. by rewrite assign_accesses_app, assign_row_accesses_spec.
  - intros i [a1 m1] [l2 m2] [Em Ea]. simpl in Em, Ea. subst m2 a1.
    split; [done |]. simpl. by rewrite assign_accesses_app, assign_row_accesses_spec.
Qed.

Lemma for_range_clusters {St : Type} (f : Cluster -> St -> St) (cs : list Cluster) K s :
  Z.of_nat (length cs) = K ->
  for_range 0 K (fun k s => f (cluster_at cs k) s) s
  = fold_left (fun s c => f c s) cs s.
Proof.
  intros Hlen.
  assert (Hinv : (fun n t => t = fold_left (fun s c => f c s) (take (Z.to_nat n) cs) s)
                   K (for_range 0 K (fun k s => f (cluster_at cs k) s) s)).
  { apply for_range_ind; [lia | done |].
    intros n t Hn ->.
    replace (Z.to_nat (n + 1)) with (S (Z.to_nat n)) by lia.
    rewrite (take_S_r _ _ (cluster_at cs n)) by (apply cluster_at_lookup; lia).
    by rewrite fold_left_app. }
  simpl in Hinv. rewrite Hinv. by rewrite firstn_all2 by lia.
Qed.

Lemma assign_clusters_accesses ctx (cs : list Cluster) a :
  fold_left (fun a c => assign_cluster ctx c a) cs a
  = assign_accesses (flat_map (assign_cluster_accesses ctx) cs) a.
Proof.
  revert a. induction cs as [| c cs IH]; intros a; [done |].
  simpl. rewrite assign_accesses_app, IH. by rewrite assign_cluster_accesses_spec.
Qed.

(** ** Assignment kernel: runs of a team *)

Lemma team_split (ws : list Worker) t w :
  ws !! t = Some w ->
  exists l1 l2, ws = l1 ++ w :: l2 /\
    (forall w', <[t := w']> ws = l1 ++ w' :: l2) /\ delete t ws = l1 ++ l2.
Proof.
  intros Hw. exists (take t ws), (drop (S t) ws).
  pose proof (lookup_lt_Some _ _ _ Hw) as Hlt.
  split; [by rewrite take_drop_middle |].
  split; [intros w'; by apply insert_take_drop | apply delete_take_drop].
Qed.

Lemma team_step_calm start accesses t ws a :
  disturbing t ws = false ->
  team_calm start accesses (ws, a) ->
  team_calm start accesses (team_step t (ws, a)).
Proof.
  intros Hquiet [(done & Ea & Hperm) Hwait]. simpl in Ea, Hperm, Hwait.
  unfold team_step. simpl.
  destruct (ws !! t) as [w |] eqn:Hw; [| by split; [exists done |]].
  destruct (team_split ws t w Hw) as (l1 & l2 & Ews & Eins & Edel).
  unfold disturbing in Hquiet. rewrite Hw, Edel in Hquiet.
  rewrite Ews in Hperm, Hwait. rewrite flat_map_app in Hperm. simpl in Hperm.
  apply Forall_app in Hwait as [Hwait1 Hwait2].
  apply Forall_cons in Hwait2 as [Hwaitw Hwait2].
  destruct w as [[[p v] |] rem]; unfold worker_step; simpl in *.
  - (* the store *)
    rewrite Eins. pose proof (Hwaitw p v eq_refl) as Hlt.
    assert (Estore : wr a p v = assign_access (p, v) a).
    { unfold assign_access. simpl. destruct (Z.ltb_spec v (rd a p)); [done | lia]. }
    assert (Hothers : forall l, Forall (fun w => waits_on p w = false) l ->
      Forall (fun w => forall p' v', chosen w = Some (p', v') -> v' < rd a p') l ->
      Forall (fun w => forall p' v', chosen w = Some (p', v') -> v' < rd (wr a p v) p') l).
    { intros l Hl1 Hl2. rewrite Forall_forall in *. intros w' Hin p' v' Ec.
      specialize (Hl1 w' Hin). specialize (Hl2 w' Hin p' v' Ec).
      unfold waits_on in Hl1. rewrite Ec in Hl1. apply Z.eqb_neq in Hl1.
      rewrite rd_wr_ne by done. exact Hl2. }
    assert (Hq : Forall (fun w => waits_on p w = false) (l1 ++ l2)).
    { rewrite Forall_forall. intros w' Hin. apply list_elem_of_In in Hin.
      destruct (waits_on p w') eqn:E; [| done].
      assert (existsb (waits_on p) (l1 ++ l2) = true)
        by (apply existsb_exists; by exists w').
      congruence. }
    apply Forall_app in Hq as [Hq1 Hq2].
    split.
    + exists (done ++ [(p, v)]). simpl. split.
      * rewrite assign_accesses_app, <- Ea. exact Estore.
      * rewrite <- Hperm, flat_map_app. simpl. unfold worker_accesses at 2 4. simpl.
        rewrite <- app_assoc. apply Permutation_app_head. simpl.
        apply Permutation_middle.
    + simpl. apply Forall_app. split; [by apply Hothers |].
      apply Forall_cons. split; [done | by apply Hothers].
  - destruct rem as [| [p v] rest].
    + (* nothing left *)
      rewrite Eins. split; [exists done; simpl; by rewrite flat_map_app |].
      simpl. apply Forall_app. split; [done |]. by apply Forall_cons.
    + destruct (Z.ltb_spec v (rd a p)) as [Hlt | Hge]; rewrite Eins.
      * (* the test finds the word greater *)
        split; [exists done; simpl; by rewrite flat_map_app |].
        simpl. apply Forall_app. split; [done |]. apply Forall_cons. split; [| done].
        simpl. intros p' v' [= <- <-]. done.
      * (* the test finds the word not greater *)
        assert (Eskip : a = assign_access (p, v) a).
        { unfold assign_access. simpl. destruct (Z.ltb_spec v (rd a p)); [lia | done]. }
        split.
        -- exists (done ++ [(p, v)]). simpl. split.
           ++ rewrite assign_accesses_app, <- Ea. exact Eskip.
           ++ rewrite <- Hperm, flat_map_app. simpl.
              unfold worker_accesses at 2 4. simpl.
              rewrite <- app_assoc. apply Permutation_app_head. simpl.
              apply Permutation_middle.
        -- simpl. apply Forall_app. split; [done |]. by apply Forall_cons.
Qed.

Lemma team_run_calm start accesses schedule st :
  undisturbed schedule st = true ->
  team_calm start accesses st ->
  team_calm start accesses (team_run schedule st).
Proof.
  revert st. induction schedule as [| t schedule IH]; intros st Hq Hst; [done |].
  simpl in Hq. apply andb_true_iff in Hq as [Hq1 Hq2]. apply negb_true_iff in Hq1.
  simpl. apply IH; [done |]. destruct st as [ws a]. by apply team_step_calm.
Qed.



Lemma team_start_accesses (f : Cluster -> list (Z * Z)) (team : list (list Cluster)) :
  flat_map worker_accesses (map (fun chunk => mkWorker None (flat_map f chunk)) team)
  = flat_map f (concat team).
Proof.
  induction team as [| chunk team IH]; [done |].
  simpl. rewrite IH, flat_map_app. reflexivity.
Qed.

Lemma team_done_accesses (ws : list Worker) :
  forallb worker_done ws = true -> flat_map worker_accesses ws = [].
Proof.
  induction ws as [| w ws IH]; [done |]. simpl. intros Hd.
  apply andb_true_iff in Hd as [Hw Hws]. rewrite (IH Hws).
  destruct w as [[o |] [| o' rem]]; done.
Qed.






Lemma team_start_calm team ctx assignment0 :
  let st := team_start team ctx assignment0 in
  team_calm st.2 (flat_map (assign_cluster_accesses ctx) (concat team)) st.
Proof.
  unfold team_start. cbn [fst snd]. split; cbn [fst snd].
  - exists []. split; [done |]. by rewrite team_start_accesses.
  - apply Forall_forall. intros w Hw p v Ec.
    apply list_elem_of_In, in_map_iff in Hw as (chunk & <- & _). done.
Qed.


(** A run of a team in which no store is disturbed returns the image of the
    run by one worker, for every order of the clusters. *)
Lemma slic_assign_team_calm team schedule zorder_sort ctx assignment0 assignment :
  Z.of_nat (length (ctx_clusters ctx)) = ctx_K ctx ->
  Permutation (concat team) (ctx_clusters ctx) ->
  Permutation (zorder_sort (ctx_clusters ctx)) (ctx_clusters ctx) ->
  undisturbed schedule (team_start team ctx assignment0) = true ->
  slic_assign_cluster_oriented_team team schedule ctx assignment0 = Some assignment ->
  assignment = slic_assign_cluster_oriented zorder_sort ctx assignment0.
Proof.
  intros HK Hteam Hsort Hquiet Hrun.
  pose proof (team_run_calm _ _ schedule _ Hquiet (team_start_calm team ctx assignment0))
    as [(done & Ea & Hperm) _].
  unfold slic_assign_cluster_oriented_team in Hrun.
  destruct (team_run schedule (team_start team ctx assignment0)) as [ws a] eqn:Erun.
  cbn [fst snd] in Ea, Hperm.
  destruct (forallb worker_done ws) eqn:Hdone; [| done]. injection Hrun as <-.
  rewrite (team_done_accesses ws Hdone), app_nil_r in Hperm.
  unfold slic_assign_cluster_oriented. f_equal.
  rewrite (for_range_clusters (assign_cluster ctx))
    by (by rewrite (Permutation_length Hsort)).
  rewrite assign_clusters_accesses, Ea. unfold team_start. cbn [snd].
  apply assign_accesses_Permutation. rewrite Hperm.
  apply Permutation_flat_map. by rewrite Hteam, Hsort.
Qed.


(** A team of one worker. *)
Lemma team_of_one_idle n (a : list Z) :
  team_run (repeat 0%nat n) ([mkWorker None []], a) = ([mkWorker None []], a).
Proof. induction n as [| n IH]; [done | exact IH]. Qed.

Lemma team_step_one w (a : list Z) :
  team_step 0 ([w], a) = ([(worker_step w a).1], (worker_step w a).2).
Proof. unfold team_step. simpl. by destruct (worker_step w a). Qed.

Lemma team_of_one_run accesses n (a : list Z) :
  (2 * length accesses <= n)%nat ->
  team_run (repeat 0%nat n) ([mkWorker None accesses], a)
  = ([mkWorker None []], assign_accesses accesses a).
Proof.
  revert n a. induction accesses as [| [p v] rest IH]; intros n a Hn.
  - apply team_of_one_idle.
  - destruct n as [| [| n]]; [simpl in Hn; lia | simpl in Hn; lia |].
    change (assign_accesses ((p, v) :: rest) a)
      with (assign_accesses rest (assign_access (p, v) a)).
    change (team_run (repeat 0%nat (S (S n))) ([mkWorker None ((p, v) :: rest)], a))
      with (team_run (repeat 0%nat (S n))
              (team_step 0 ([mkWorker None ((p, v) :: rest)], a))).
    rewrite team_step_one. unfold assign_access, worker_step at 1 2.
    cbn [chosen remaining fst snd].
    destruct (v <? rd a p); cbn [fst snd].
    + change (team_run (repeat 0%nat (S n)) ([mkWorker (Some (p, v)) rest], a))
        with (team_run (repeat 0%nat n)
                (team_step 0 ([mkWorker (Some (p, v)) rest], a))).
      rewrite team_step_one. cbn [worker_step chosen remaining fst snd].
      apply IH. simpl in Hn. lia.
    + apply (IH (S n)). simpl in Hn. lia.
Qed.

Lemma team_of_one_undisturbed n w (a : list Z) :
  undisturbed (repeat 0%nat n) ([w], a) = true.
Proof.
  revert w a. induction n as [| n IH]; intros w a; [done |].
  cbn [repeat undisturbed]. apply andb_true_iff. split.
  - unfold disturbing. cbn [fst lookup list_lookup]. by destruct (chosen w) as [[p v] |].
  - rewrite team_step_one. apply IH.
Qed.

(** The kernel as one worker runs it is a run of the team of that worker,
    and no store of it is disturbed. *)
Lemma slic_assign_one_worker zorder_sort ctx assignment0 :
  Z.of_nat (length (ctx_clusters ctx)) = ctx_K ctx ->
  Permutation (zorder_sort (ctx_clusters ctx)) (ctx_clusters ctx) ->
  let team := [zorder_sort (ctx_clusters ctx)] in
  let schedule :=
    repeat 0%nat
      (2 * length (flat_map (assign_cluster_accesses ctx)
                     (zorder_sort (ctx_clusters ctx)))) in
  undisturbed schedule (team_start team ctx assignment0) = true /\
  slic_assign_cluster_oriented_team team schedule ctx assignment0
  = Some (slic_assign_cluster_oriented zorder_sort ctx assignment0).
Proof.
  intros HK Hsort team schedule. split; [apply team_of_one_undisturbed |].
  unfold slic_assign_cluster_oriented_team, team_start, team. cbn [map].
  unfold schedule. rewrite team_of_one_run by done. cbn [forallb worker_done chosen remaining andb].
  unfold slic_assign_cluster_oriented. do 2 f_equal.
  rewrite (for_range_clusters (assign_cluster ctx))
    by (by rewrite (Permutation_length Hsort)).
  by rewrite assign_clusters_accesses.
Qed.




(** X2: the label image does not depend on the number of workers, on the
    division of the clusters among them, on the order of the sort, on the
    schedule or on the prior content of the buffer, over the runs in which
    no store falls between the test and the store of another worker on the
    same word. *)
Theorem slic_assign_order_independent team1 schedule1 team2 schedule2 ctx
    buffer1 buffer2 :
  assign_ctx_ok ctx ->
  Permutation (concat team1) (ctx_clusters ctx) ->
  Permutation (concat team2) (ctx_clusters ctx) ->
  Z.of_nat (length buffer1) = ctx_H ctx * ctx_W ctx ->
  Z.of_nat (length buffer2) = ctx_H ctx * ctx_W ctx ->
  undisturbed schedule1 (team_start team1 ctx buffer1) = true ->
  undisturbed schedule2 (team_start team2 ctx buffer2) = true ->
  slic_assign_cluster_oriented_team team1 schedule1 ctx buffer1 <> None ->
  slic_assign_cluster_oriented_team team2 schedule2 ctx buffer2 <> None ->
  slic_assign_cluster_oriented_team team1 schedule1 ctx buffer1
  = slic_assign_cluster_oriented_team team2 schedule2 ctx buffer2.
Proof.
  intros Hctx Ht1 Ht2 Hl1 Hl2 Hq1 Hq2 Hr1 Hr2.
  pose proof Hctx as (_ & _ & _ & _ & _ & _ & HK & _).
  destruct (slic_assign_cluster_oriented_team team1 schedule1 ctx buffer1)
    as [image1 |] eqn:Hr1'; [clear Hr1; rename Hr1' into Hr1 | done].
  destruct (slic_assign_cluster_oriented_team team2 schedule2 ctx buffer2)
    as [image2 |] eqn:Hr2'; [clear Hr2; rename Hr2' into Hr2 | done].
  f_equal.
  rewrite (slic_assign_team_calm team1 schedule1 (fun cs => cs) ctx buffer1 image1
             HK Ht1 (Permutation_refl _) Hq1 Hr1).
  rewrite (slic_assign_team_calm team2 schedule2 (fun cs => cs) ctx buffer2 image2
             HK Ht2 (Permutation_refl _) Hq2 Hr2).
  by apply slic_assign_one_worker_order.
Qed.

Lemma slic_assign_order_independent_witness :
  slic_assign_cluster_oriented_team assign_team calm_schedule (assign_ctx 6) [7; 7; 7; 7]
  = slic_assign_cluster_oriented_team [rev assign_clusters] (repeat 0%nat 16)
      (assign_ctx 6) [0; 0; 0; 0].
Proof.
  apply (slic_assign_order_independent assign_team calm_schedule
           [rev assign_clusters] (repeat 0%nat 16) (assign_ctx 6)).
  - apply assign_ctx_ok_example. lia.
  - apply Permutation_refl.
  - simpl. apply Permutation_swap.
  - reflexivity.
  - reflexivity.
  - vm_compute; reflexivity.
  - vm_compute; reflexivity.
  - vm_compute; discriminate.
  - vm_compute; discriminate.
Defined.
